(** * UP Experiences: a shallow embedding of the site's client code

    The development follows the module structure of the repository:
    [Js] holds the fragment of the JavaScript run time the code relies on
    (strings as sequences of UTF-16 code units, [trim], [includes],
    truthiness, property access and string conversion on JSON values);
    [Utils] embeds utils.js, [Api] embeds api.js, [Modal] embeds modal.js,
    [Main] embeds main.js together with the two functions of ui.js that
    run inside its [try] block, and [Ui] embeds the regions and the
    language selector of ui.js.  Definitions come first, the theorems about
    them follow. *)

From Stdlib Require Import String Ascii DecimalString NArith ZArith Bool Lia List.
Import ListNotations.

Set Implicit Arguments.

(* ================================================================== *)
(** * The JavaScript fragment *)
(* ================================================================== *)

Module Js.

(** A JavaScript string is a sequence of UTF-16 code units. *)
Abbreviation JsString := (list N).

(** An ASCII literal of the source, as code units. *)
Fixpoint lit (s : string) : JsString :=
  match s with
  | EmptyString => []
  | String a r => N_of_ascii a :: lit r
  end.

Definition inRange (lo hi c : N) : bool := (lo <=? c)%N && (c <=? hi)%N.

Fixpoint str_eqb (a b : JsString) : bool :=
  match a, b with
  | [], [] => true
  | x :: a', y :: b' => (x =? y)%N && str_eqb a' b'
  | _, _ => false
  end.

(** ECMAScript's LineTerminator code points: LF, CR, LS, PS. *)
Definition isLineTerminator (c : N) : bool :=
  ((c =? 10) || (c =? 13) || (c =? 0x2028) || (c =? 0x2029))%N.

(** ECMAScript's WhiteSpace and LineTerminator code points: what
    [String.prototype.trim] strips and what the regular expression class
    [\s] matches. *)
Definition isWhiteSpace (c : N) : bool :=
  (inRange 9 13 c || (c =? 32) || (c =? 0xA0) || (c =? 0x1680)
   || inRange 0x2000 0x200A c || (c =? 0x2028) || (c =? 0x2029)
   || (c =? 0x202F) || (c =? 0x205F) || (c =? 0x3000) || (c =? 0xFEFF))%N.

Fixpoint dropWhile (p : N -> bool) (s : JsString) : JsString :=
  match s with
  | [] => []
  | c :: r => if p c then dropWhile p r else s
  end.

Definition trimStart (s : JsString) : JsString := dropWhile isWhiteSpace s.
Definition trimEnd (s : JsString) : JsString := rev (dropWhile isWhiteSpace (rev s)).

(** [String.prototype.trim]. *)
Definition trim (s : JsString) : JsString := trimEnd (trimStart s).

(** The regular expression class [\d]: the ASCII digits. *)
Definition isDigit (c : N) : bool := inRange 48 57 c.

Fixpoint isPrefixOf (p s : JsString) : bool :=
  match p, s with
  | [], _ => true
  | _ :: _, [] => false
  | x :: p', y :: s' => (x =? y)%N && isPrefixOf p' s'
  end.

(** [s.includes(sub)]: [sub] occurs in [s] as a substring. *)
Fixpoint includes (s sub : JsString) : bool :=
  isPrefixOf sub s
  || match s with
     | [] => false
     | _ :: r => includes r sub
     end.

(** [String.prototype.isWellFormed]: the string holds no lone surrogate.
    [encodeURIComponent] throws a URIError on a string that is not well
    formed. *)
Fixpoint isWellFormed (s : JsString) : bool :=
  match s with
  | [] => true
  | c :: r =>
      if inRange 0xD800 0xDBFF c then
        match r with
        | d :: r' => inRange 0xDC00 0xDFFF d && isWellFormed r'
        | [] => false
        end
      else if inRange 0xDC00 0xDFFF c then false
      else isWellFormed r
  end.

(** JSON values as [response.json()] yields them, with [undefined] for
    what a property access that finds nothing evaluates to.  Numbers are
    the integers (row identifiers, sizes, status codes). *)
#[local] Set Warnings "-register-all".
Inductive JsValue : Type :=
| JUndefined
| JNull
| JBool (b : bool)
| JNum (n : Z)
| JStr (s : JsString)
| JArr (xs : list JsValue)
| JObj (props : list (JsString * JsValue)).
#[local] Set Warnings "register-all".

(** ToBoolean. *)
Definition truthy (v : JsValue) : bool :=
  match v with
  | JUndefined | JNull => false
  | JBool b => b
  | JNum n => negb (n =? 0)%Z
  | JStr s => match s with [] => false | _ => true end
  | JArr _ | JObj _ => true
  end.

(** [typeof v === 'string'] *)
Definition isString (v : JsValue) : bool :=
  match v with JStr _ => true | _ => false end.

(** [typeof v === 'object'] (true of [null], of arrays and of objects). *)
Definition isTypeofObject (v : JsValue) : bool :=
  match v with JNull | JArr _ | JObj _ => true | _ => false end.

(** [Array.isArray(v)] *)
Definition isArray (v : JsValue) : bool :=
  match v with JArr _ => true | _ => false end.

Fixpoint lookup (k : JsString) (props : list (JsString * JsValue)) : JsValue :=
  match props with
  | [] => JUndefined
  | (k', v) :: r => if str_eqb k k' then v else lookup k r
  end.

(** [v.k] for a named data property [k] on a value that is neither [null]
    nor [undefined] (every such access of the source is guarded by a
    truthiness test, or is modelled with its TypeError where it is not):
    an object yields its property, every other value [undefined]. *)
Definition getProp (v : JsValue) (k : JsString) : JsValue :=
  match v with
  | JObj props => lookup k props
  | _ => JUndefined
  end.

(** [v[i]] on a value known to be an array. *)
Definition getIndex (v : JsValue) (i : nat) : JsValue :=
  match v with
  | JArr xs => nth i xs JUndefined
  | _ => JUndefined
  end.

(** [a || b] *)
Definition jsOr (a b : JsValue) : JsValue := if truthy a then a else b.

(** [Object.hasOwn(v, k)] on an object with the properties [props]. *)
Definition hasOwn (k : JsString) (props : list (JsString * JsValue)) : bool :=
  existsb (fun kv => str_eqb k (fst kv)) props.

(** [v.length] on a value known to be an array. *)
Definition arrayLength (v : JsValue) : nat :=
  match v with
  | JArr xs => length xs
  | _ => 0
  end.

(** ToString completes on the value.  A primitive always has a string
    form.  An object that came out of [JSON.parse] inherits [toString] and
    [valueOf] from [Object.prototype], unless it has properties of its own
    with these names, and no property of its own is a function: with a
    [toString] of its own neither method yields a primitive, and ToString
    throws a TypeError; without one, its string form is "[object Object]".
    An array is joined, which converts each of its elements that is
    neither [null] nor [undefined]. *)
Fixpoint hasStringForm (v : JsValue) : bool :=
  match v with
  | JArr xs => forallb hasStringForm xs
  | JObj props => negb (hasOwn (lit "toString") props)
  | _ => true
  end.

(** An exception value: the [name] and [message] of an Error object. *)
Record JsError : Type := mkError { errName : JsString; errMessage : JsString }.

(** [new Error(message)] *)
Definition newError (message : JsString) : JsError :=
  {| errName := lit "Error"; errMessage := message |}.

(** A TypeError the engine raises.  The message of such an error is the
    engine's own; the wording below is V8's. *)
Definition typeError (message : JsString) : JsError :=
  {| errName := lit "TypeError"; errMessage := message |}.

(** ToString on a value that has no string form. *)
Definition noPrimitiveValue : JsError :=
  typeError (lit "Cannot convert object to primitive value").

(** [v.k] on [null] or [undefined]. *)
Definition cannotRead (v : JsValue) (k : JsString) : JsError :=
  typeError (lit "Cannot read properties of "
             ++ match v with JNull => lit "null" | _ => lit "undefined" end
             ++ lit " (reading '" ++ k ++ lit "')").

(** The completion of a call that may throw. *)
Inductive Result (A : Type) : Type :=
| Ok (a : A)
| Throw (e : JsError).
Arguments Ok {A} a.
Arguments Throw {A} e.

(** The decimal rendering of a non-negative integer in a template string. *)
Definition showN (n : N) : JsString := lit (NilZero.string_of_uint (N.to_uint n)).

(** A template literal whose text is only written to the console: its
    substitutions are converted to strings, one after the other, and the
    first that has no string form throws.  Whether the text can be built
    is kept; the text itself is not. *)
Definition template (substitutions : list JsValue) : Result unit :=
  if forallb hasStringForm substitutions then Ok tt else Throw noPrimitiveValue.

End Js.

Import Js.

(* ================================================================== *)
(** * utils.js *)
(* ================================================================== *)

Module Utils.

(** [phone.replace(/\D/g, '')] *)
Definition stripNonDigits (phone : JsString) : JsString := filter isDigit phone.

Definition validateBrazilianPhone (phone : JsString) : bool :=
  let cleanPhone := stripNonDigits phone in
  (length cleanPhone =? 10)%nat || (length cleanPhone =? 11)%nat.

(** The first [n] code units of [s] exist and are digits: [\d{n}] matches
    at the start of [s]. *)
Fixpoint digitsAhead (n : nat) (s : JsString) : bool :=
  match n with
  | O => true
  | S n' => match s with
            | [] => false
            | c :: r => isDigit c && digitsAhead n' r
            end
  end.

(** [s.replace(/(\d{a})(\d{b})(\d{c})/, '($1) $2-$3')]: the leftmost run of
    [a+b+c] digits is rewritten with the template, the text before and
    after it is kept; a string with no such run is returned as it is. *)
Fixpoint replaceMask (a b c : nat) (s : JsString) : JsString :=
  if digitsAhead (a + b + c) s then
    lit "(" ++ firstn a s ++ lit ") " ++ firstn b (skipn a s) ++ lit "-"
      ++ firstn c (skipn (a + b) s) ++ skipn (a + b + c) s
  else
    match s with
    | [] => []
    | x :: r => x :: replaceMask a b c r
    end.

Definition formatBrazilianPhone (phone : JsString) : JsString :=
  let cleanPhone := stripNonDigits phone in
  if (length cleanPhone =? 11)%nat then replaceMask 2 5 4 cleanPhone
  else if (length cleanPhone =? 10)%nat then replaceMask 2 4 4 cleanPhone
  else phone.

(** The character class [[a-zA-ZÀ-ÿ\s\-]] of [nameRegex]; the range À-ÿ is
    U+00C0..U+00FF. *)
Definition nameChar (c : N) : bool :=
  inRange 97 122 c || inRange 65 90 c || inRange 0xC0 0xFF c
  || isWhiteSpace c || (c =? 45)%N.

(** [/^[a-zA-ZÀ-ÿ\s\-]{2,}$/.test(name.trim())] *)
Definition validateName (name : JsString) : bool :=
  let trimmedName := trim name in
  (2 <=? length trimmedName)%nat && forallb nameChar trimmedName.

(** Case folding of the [i] flag on the ASCII letters of the pattern. *)
Definition lowerAscii (c : N) : N := if inRange 65 90 c then (c + 32)%N else c.

(** [p] matches at the start of [s], ignoring ASCII case; the rest of [s]. *)
Fixpoint stripPrefixCI (p s : JsString) : option JsString :=
  match p, s with
  | [], _ => Some s
  | _ :: _, [] => None
  | x :: p', y :: s' =>
      if (x =? lowerAscii y)%N then stripPrefixCI p' s' else None
  end.

Definition imageExtensionNames : list JsString :=
  [lit "jpg"; lit "jpeg"; lit "png"; lit "gif"; lit "bmp"; lit "webp"; lit "svg"].

(** The tail of the [imageExtensions] pattern, an optional group made of a
    question mark and any run of code units that are not line terminators,
    then the end of the input. *)
Definition queryTail (r : JsString) : bool :=
  match r with
  | [] => true
  | c :: q => (c =? 63)%N && forallb (fun x => negb (isLineTerminator x)) q
  end.

(** The [imageExtensions] pattern matching at the start of [s]: a dot, one
    of the seven extension names in either case, then [queryTail]. *)
Definition extensionAt (s : JsString) : bool :=
  match s with
  | c :: r =>
      (c =? 46)%N
      && existsb (fun e => match stripPrefixCI e r with
                           | Some rest => queryTail rest
                           | None => false
                           end) imageExtensionNames
  | [] => false
  end.

(** [imageExtensions.test(s)] *)
Fixpoint imageExtensionsTest (s : JsString) : bool :=
  extensionAt s
  || match s with
     | [] => false
     | _ :: r => imageExtensionsTest r
     end.

Definition imageHostHints : list JsString :=
  [lit "images"; lit "photos"; lit "media"; lit "img"; lit "baserow.io";
   lit "amazonaws.com"; lit "cloudinary.com"; lit "unsplash.com"].

(** [isValidImageUrl].  [canParseUrl s] says that the browser's
    [new URL(s)] does not throw. *)
Definition isValidImageUrl (canParseUrl : JsString -> bool) (url : JsValue) : bool :=
  match url with
  | JStr s =>
      if negb (truthy url) then false
      else
        let trimmedUrl := trim s in
        if negb (canParseUrl trimmedUrl) then false
        else imageExtensionsTest trimmedUrl
             || existsb (includes trimmedUrl) imageHostHints
  | _ => false
  end.

(** [getUrlLang].  [langParam] is what [params.get('lang')] yields
    ([null] when the query string has no such parameter); [toLowerCase] is
    [String.prototype.toLowerCase]. *)
Definition getUrlLang (toLowerCase : JsString -> JsString)
    (langParam : option JsString) : JsString :=
  match langParam with
  | Some l =>
      if truthy (JStr l) then
        let normalizedLang := toLowerCase l in
        if str_eqb normalizedLang (lit "en_us") || str_eqb normalizedLang (lit "en-us")
        then lit "en-us"
        else if str_eqb normalizedLang (lit "pt_br")
                || str_eqb normalizedLang (lit "pt-br")
        then lit "pt-br"
        else lit "pt-br"
      else lit "pt-br"
  | None => lit "pt-br"
  end.

End Utils.

Import Utils.

(* ================================================================== *)
(** * api.js *)
(* ================================================================== *)

Module Api.

(** What the awaited [response.json()] comes to. *)
Inductive JsonOutcome : Type :=
| JsonParsed (v : JsValue)
| JsonRejected (e : JsError).

(** What the awaited [fetch(...)] comes to: the promise rejects (a
    network-level failure), or it resolves to a response with a status
    code and a body. *)
Inductive FetchOutcome : Type :=
| FetchRejected (e : JsError)
| FetchResponse (status : N) (body : JsonOutcome).

(** [response.ok]: the status is in the range 200-299. *)
Definition responseOk (status : N) : bool := inRange 200 299 status.

(** The argument of [submitContact].  The experience identifier is a
    number (a row id), on which [Number(...)] is the identity; the coupon
    is a string or absent. *)
Record ContactData : Type := mkContact {
  name : JsString;
  whatsapp : JsString;
  experienceId : Z;
  cupom : option JsString
}.

Definition key_Name : JsString := lit "Name".
Definition key_Whatsapp : JsString := lit "Whatsapp".
Definition key_Experiencias : JsString := lit "Experi" ++ [0xEA%N] ++ lit "ncias".
Definition key_Parceiro_id : JsString := lit "Parceiro_id".

(** [cupom && cupom.trim()] *)
Definition cupomProvided (c : option JsString) : bool :=
  match c with
  | None => false
  | Some s => truthy (JStr s) && truthy (JStr (trim s))
  end.

(** The request body of [submitContact], its properties in insertion order. *)
Definition contactBody (d : ContactData) : list (JsString * JsValue) :=
  let body :=
    [ (key_Name, JStr (trim (name d)));
      (key_Whatsapp, JStr (trim (whatsapp d)));
      (key_Experiencias, JArr [JNum (experienceId d)]) ] in
  if cupomProvided (cupom d) then
    match cupom d with
    | Some s => body ++ [(key_Parceiro_id, JStr (trim s))]
    | None => body
    end
  else body.

Definition msg_serverError : JsString :=
  lit "Erro no servidor. Tente novamente em alguns minutos.".
Definition msg_connectionError : JsString :=
  lit "Erro de conex" ++ [0xE3%N] ++ lit "o. Verifique sua internet e tente novamente.".
Definition msg_sendError : JsString :=
  lit "Erro ao enviar mensagem. Tente novamente.".

(** [new Error(`HTTP error! status: ${response.status}`)] *)
Definition httpError (status : N) : JsError :=
  newError (lit "HTTP error! status: " ++ showN status).

(** The [try] block of [submitContact] after the body is built. *)
Definition submitContactTry (out : FetchOutcome) : Result JsValue :=
  match out with
  | FetchRejected e => Throw e
  | FetchResponse status body =>
      match body with
      | JsonRejected e => Throw e
      | JsonParsed responseData =>
          if negb (responseOk status) then Throw (httpError status)
          else Ok responseData
      end
  end.

(** The [catch] block of [submitContact]. *)
Definition submitContactCatch (error : JsError) : JsError :=
  if includes (errMessage error) (lit "HTTP error") then newError msg_serverError
  else if str_eqb (errName error) (lit "TypeError")
          && includes (errMessage error) (lit "fetch")
  then newError msg_connectionError
  else newError msg_sendError.

(** [submitContact]: [post] is what the POST of the request body to the
    contacts table comes to. *)
Definition submitContact (post : list (JsString * JsValue) -> FetchOutcome)
    (d : ContactData) : Result JsValue :=
  match submitContactTry (post (contactBody d)) with
  | Ok responseData => Ok responseData
  | Throw error => Throw (submitContactCatch error)
  end.

Definition msg_fetchExperiences : JsString :=
  lit "N" ++ [0xE3%N] ++ lit "o foi poss" ++ [0xED%N] ++ lit "vel carregar as experi"
    ++ [0xEA%N] ++ lit "ncias. Tente novamente mais tarde.".

(** [fetchExperiences]: [out] is what the GET of the experiences table
    comes to.  Every failure inside the [try] block (a rejected fetch, a
    status that is not ok, a body that is not JSON, a body without an
    array of results) is replaced by the one fixed message. *)
Definition fetchExperiences (out : FetchOutcome) : Result JsValue :=
  match out with
  | FetchRejected _ => Throw (newError msg_fetchExperiences)
  | FetchResponse status body =>
      if negb (responseOk status) then Throw (newError msg_fetchExperiences)
      else
        match body with
        | JsonRejected _ => Throw (newError msg_fetchExperiences)
        | JsonParsed data =>
            match data with
            | JUndefined | JNull => Throw (newError msg_fetchExperiences)
            | _ =>
                let results := getProp data (lit "results") in
                if negb (truthy results) || negb (isArray results)
                then Throw (newError msg_fetchExperiences)
                else Ok data
            end
        end
  end.

(** [validateExperienceData], as the truthiness of what it returns (the
    way [Array.prototype.filter] reads it).  On [null] and [undefined] the
    unguarded [experience.Name_pt_br] throws a TypeError.  The warning
    about a record without image writes [experience.id] into a template,
    which throws when the identifier has no string form. *)
Definition validateExperienceData (experience : JsValue) : Result bool :=
  match experience with
  | JUndefined | JNull => Throw (cannotRead experience (lit "Name_pt_br"))
  | _ =>
      let hasValidId :=
        truthy experience && isTypeofObject experience
        && truthy (getProp experience (lit "id")) in
      let hasValidName :=
        truthy (jsOr (getProp experience (lit "Name_pt_br"))
                     (getProp experience (lit "Name_en_us"))) in
      let hasValidDescription :=
        truthy (jsOr (getProp experience (lit "Description_pt_br"))
                     (getProp experience (lit "Description_en_us"))) in
      let hasImage :=
        (truthy (getProp experience (lit "Image URL"))
         && isString (getProp experience (lit "Image URL")))
        || (truthy (getProp experience (lit "Image"))
            && isArray (getProp experience (lit "Image"))
            && (0 <? arrayLength (getProp experience (lit "Image")))%nat) in
      match (if hasValidId && hasValidName && hasValidDescription && negb hasImage
             then template [getProp experience (lit "id")]
             else Ok tt) with
      | Throw e => Throw e
      | Ok _ => Ok (hasValidId && hasValidName && hasValidDescription)
      end
  end.

Definition placeholderName : JsString :=
  lit "Experi" ++ [0xEA%N] ++ lit "ncia sem nome".
Definition placeholderDescription : JsString :=
  lit "Descri" ++ [0xE7%N; 0xE3%N] ++ lit "o n" ++ [0xE3%N] ++ lit "o dispon"
    ++ [0xED%N] ++ lit "vel".

(** The object [formatExperienceData] returns. *)
Record FormattedExperience : Type := mkFormatted {
  fe_id : JsValue;
  fe_name : JsValue;
  fe_description : JsValue;
  fe_imageUrl : JsValue;
  fe_originalData : JsValue
}.

(** First try of [formatExperienceData]: the 'Image URL' field.  The
    warning about a field that does not pass writes [experience.id] into a
    template. *)
Definition imageFromDirectField (canParseUrl : JsString -> bool)
    (experience imageUrl : JsValue) : Result JsValue :=
  let direct := getProp experience (lit "Image URL") in
  if truthy direct && isString direct then
    match direct with
    | JStr s =>
        let candidateUrl := JStr (trim s) in
        if isValidImageUrl canParseUrl candidateUrl then Ok candidateUrl
        else
          match template [getProp experience (lit "id"); candidateUrl] with
          | Throw e => Throw e
          | Ok _ => Ok imageUrl
          end
    | _ => Ok imageUrl
    end
  else Ok imageUrl.

(** Second try: the card_cover thumbnail of the first element of Image. *)
Definition imageFromThumbnail (canParseUrl : JsString -> bool)
    (experience imageUrl : JsValue) : JsValue :=
  let image := getProp experience (lit "Image") in
  if negb (truthy imageUrl) && truthy image && isArray image
     && truthy (getIndex image 0)
     && truthy (getProp (getIndex image 0) (lit "thumbnails"))
     && truthy (getProp (getProp (getIndex image 0) (lit "thumbnails")) (lit "card_cover"))
  then
    let candidateUrl :=
      getProp (getProp (getProp (getIndex image 0) (lit "thumbnails")) (lit "card_cover"))
              (lit "url") in
    if isValidImageUrl canParseUrl candidateUrl then candidateUrl else imageUrl
  else imageUrl.

(** Third try: the original URL of the first element of Image. *)
Definition imageFromOriginal (canParseUrl : JsString -> bool)
    (experience imageUrl : JsValue) : JsValue :=
  let image := getProp experience (lit "Image") in
  if negb (truthy imageUrl) && truthy image && isArray image
     && truthy (getIndex image 0)
     && truthy (getProp (getIndex image 0) (lit "url"))
  then
    let candidateUrl := getProp (getIndex image 0) (lit "url") in
    if isValidImageUrl canParseUrl candidateUrl then candidateUrl else imageUrl
  else imageUrl.

(** [formatExperienceData].  On [null] and [undefined] the unguarded
    access to the name of the language throws a TypeError; every other
    value is read property by property.  The line written to the console
    before the return holds [experience.id] in a template, and the name
    too when no image was found: the function throws when one of them has
    no string form. *)
Definition formatExperienceData (canParseUrl : JsString -> bool)
    (experience : JsValue) (language : JsString) : Result FormattedExperience :=
  match experience with
  | JUndefined | JNull =>
      Throw (cannotRead experience
               (if str_eqb language (lit "en-us") then lit "Name_en_us"
                else lit "Name_pt_br"))
  | _ =>
      let name :=
        if str_eqb language (lit "en-us") then getProp experience (lit "Name_en_us")
        else getProp experience (lit "Name_pt_br") in
      let description :=
        if str_eqb language (lit "en-us")
        then getProp experience (lit "Description_en_us")
        else getProp experience (lit "Description_pt_br") in
      let imageUrl := JStr [] in
      match imageFromDirectField canParseUrl experience imageUrl with
      | Throw e => Throw e
      | Ok imageUrl =>
          let imageUrl := imageFromThumbnail canParseUrl experience imageUrl in
          let imageUrl := imageFromOriginal canParseUrl experience imageUrl in
          match (if negb (truthy imageUrl)
                 then template [getProp experience (lit "id"); name]
                 else template [getProp experience (lit "id"); imageUrl]) with
          | Throw e => Throw e
          | Ok _ =>
              Ok {| fe_id := getProp experience (lit "id");
                    fe_name := jsOr name (JStr placeholderName);
                    fe_description := jsOr description (JStr placeholderDescription);
                    fe_imageUrl := imageUrl;
                    fe_originalData := experience |}
          end
      end
  end.

End Api.

Import Api.

(* ================================================================== *)
(** * modal.js *)
(* ================================================================== *)

Module Modal.

Definition msg_nameRequired : JsString :=
  lit "Nome " ++ [0xE9%N] ++ lit " obrigat" ++ [0xF3%N] ++ lit "rio".
Definition msg_nameInvalid : JsString :=
  lit "Nome deve ter pelo menos 2 caracteres e conter apenas letras".
Definition msg_whatsappRequired : JsString :=
  lit "WhatsApp " ++ [0xE9%N] ++ lit " obrigat" ++ [0xF3%N] ++ lit "rio".
Definition msg_whatsappInvalid : JsString :=
  lit "N" ++ [0xFA%N] ++ lit "mero de WhatsApp inv" ++ [0xE1%N] ++ lit "lido".
Definition msg_fieldNameInvalid : JsString := lit "Nome inv" ++ [0xE1%N] ++ lit "lido".
Definition msg_fieldWhatsappInvalid : JsString := lit "WhatsApp inv" ++ [0xE1%N] ++ lit "lido".

(** A value read from the form: [formData.get(field)?.trim()] is a string,
    or [undefined] when the form has no such field. *)
Definition FormValue := option JsString.

(** [!value] *)
Definition isBlank (v : FormValue) : bool :=
  match v with
  | None => true
  | Some s => negb (truthy (JStr s))
  end.

(** [!value || !validate(value)]: how the source tells an invalid field. *)
Definition fieldInvalid (validate : JsString -> bool) (v : FormValue) : bool :=
  match v with
  | None => true
  | Some s => negb (truthy (JStr s)) || negb (validate s)
  end.

Definition validateForm (name whatsapp : FormValue) : list JsString :=
  let errors := [] in
  let errors :=
    match name with
    | None => errors ++ [msg_nameRequired]
    | Some s =>
        if negb (truthy (JStr s)) then errors ++ [msg_nameRequired]
        else if negb (validateName s) then errors ++ [msg_nameInvalid]
        else errors
    end in
  let errors :=
    match whatsapp with
    | None => errors ++ [msg_whatsappRequired]
    | Some s =>
        if negb (truthy (JStr s)) then errors ++ [msg_whatsappRequired]
        else if negb (validateBrazilianPhone s) then errors ++ [msg_whatsappInvalid]
        else errors
    end in
  errors.

Inductive Field : Type := NameField | WhatsappField.

(** What a submission of the form does to the page and to the network, in
    the order it does it. *)
Inductive ModalEvent : Type :=
| HideFormError
| ClearFieldErrors
| ShowFormError (message : JsString)
| ShowFieldError (field : Field) (message : JsString)
| SetButtonLoading (isLoading : bool)
| CallSubmitContact (d : ContactData)
| OpenWhatsApp (message : JsString)
| CloseContactModal.

Definition highlightInvalidFields (name whatsapp : FormValue) : list ModalEvent :=
  (if fieldInvalid validateName name
   then [ShowFieldError NameField
           (if isBlank name then msg_nameRequired else msg_fieldNameInvalid)]
   else [])
  ++ (if fieldInvalid validateBrazilianPhone whatsapp
      then [ShowFieldError WhatsappField
              (if isBlank whatsapp then msg_whatsappRequired else msg_fieldWhatsappInvalid)]
      else []).

Definition generateWhatsAppMessage (experienceName name whatsapp cupom : JsString)
  : JsString :=
  let message :=
    lit "Ol" ++ [0xE1%N] ++ lit ", estou interessada no passeio " ++ experienceName
      ++ [10%N] ++ lit "Me chamo " ++ name
      ++ [10%N] ++ lit "Telefone " ++ whatsapp in
  if truthy (JStr cupom) then message ++ [10%N] ++ lit "Cupom de desconto " ++ cupom
  else message.

Definition uriError : JsError :=
  {| errName := lit "URIError"; errMessage := lit "URI malformed" |}.

(** [openWhatsApp]: the link carries [encodeURIComponent(message)], which
    throws on a message that is not well formed; otherwise the link is
    opened. *)
Definition openWhatsApp (message : JsString) : Result ModalEvent :=
  if isWellFormed message then Ok (OpenWhatsApp message) else Throw uriError.

Definition fromForm (v : FormValue) : JsString :=
  match v with Some s => s | None => [] end.

(** [handleFormSubmit]: [formName] and [formWhatsapp] are the raw values of
    the two inputs, [urlCupom] is [getUrlParam('cupom')], [post] is what
    the POST of a request body comes to.  The result is the sequence of
    effects, the [try], [catch] and [finally] blocks laid out in the order
    they run. *)
Definition handleFormSubmit (post : list (JsString * JsValue) -> FetchOutcome)
    (formName formWhatsapp : FormValue) (urlCupom : JsString)
    (experienceName : JsString) (experienceId : Z) : list ModalEvent :=
  let name := option_map trim formName in
  let whatsapp := option_map trim formWhatsapp in
  let cupom := urlCupom in
  let validationErrors := validateForm name whatsapp in
  [HideFormError; ClearFieldErrors]
  ++ match validationErrors with
     | firstError :: _ =>
         ShowFormError firstError :: highlightInvalidFields name whatsapp
     | [] =>
         let d := {| Api.name := fromForm name; Api.whatsapp := fromForm whatsapp;
                     Api.experienceId := experienceId; Api.cupom := Some cupom |} in
         [SetButtonLoading true; CallSubmitContact d]
         ++ match submitContact post d with
            | Ok _ =>
                match openWhatsApp (generateWhatsAppMessage experienceName
                                      (fromForm name) (fromForm whatsapp) cupom) with
                | Ok opened => [opened; CloseContactModal]
                | Throw error => [ShowFormError (errMessage error)]
                end
            | Throw error => [ShowFormError (errMessage error)]
            end
         ++ [SetButtonLoading false]
     end.

(** The part of the document the modal code reads and writes: how many
    elements with the id contact-modal the body holds, whether
    [document.body.style.overflow] is 'hidden', and how many of the keydown
    listeners that [setupModalEventListeners] put on the document are
    still registered. *)
Record Page : Type := mkPage {
  modals : nat;
  overflowHidden : bool;
  escapeListeners : nat
}.

Definition initialPage : Page :=
  {| modals := 0; overflowHidden := false; escapeListeners := 0 |}.

(** [closeContactModal] *)
Definition closeContactModal (p : Page) : Page :=
  match modals p with
  | O => p
  | S n => {| modals := n; overflowHidden := false;
              escapeListeners := escapeListeners p |}
  end.

(** [openContactModal]: the modal element is appended, its listeners are
    set up (one more keydown listener on the document), the body no longer
    scrolls. *)
Definition openContactModal (p : Page) : Page :=
  let p := closeContactModal p in
  {| modals := S (modals p); overflowHidden := true;
     escapeListeners := S (escapeListeners p) |}.

(** [n] of the [handleEscape] listeners run on an Escape key: each closes
    the modal; each then takes itself off the document. *)
Fixpoint runEscapeListeners (n : nat) (p : Page) : Page :=
  match n with
  | O => p
  | S n' => runEscapeListeners n' (closeContactModal p)
  end.

(** What happens to the page: a click on a contact button; a close of
    the modal by its close control, by a click on the backdrop or by a
    submission that went through; a key pressed. *)
Inductive PageEvent : Type :=
| ContactClick
| CloseClick
| Keydown (isEscape : bool).

Definition pageStep (p : Page) (e : PageEvent) : Page :=
  match e with
  | ContactClick => openContactModal p
  | CloseClick => closeContactModal p
  | Keydown true =>
      let p' := runEscapeListeners (escapeListeners p) p in
      {| modals := modals p'; overflowHidden := overflowHidden p';
         escapeListeners := 0 |}
  | Keydown false => p
  end.

Definition runPage (events : list PageEvent) (p : Page) : Page :=
  fold_left pageStep events p.

(** The input listener of [setupPhoneFormatting]: the value the field
    holds afterwards, and the caret position asked of [setSelectionRange]
    when the value changed. *)
Definition phoneInput (cursorPosition : Z) (oldValue : JsString)
  : JsString * option Z :=
  let newValue := formatBrazilianPhone oldValue in
  if negb (str_eqb newValue oldValue) then
    (newValue,
     Some (cursorPosition + (Z.of_nat (length newValue) - Z.of_nat (length oldValue)))%Z)
  else (oldValue, None).

End Modal.

(* ================================================================== *)
(** * main.js *)
(* ================================================================== *)

Module Main.

(** A translation mapping: label keys to localized strings. *)
Definition Translations := list (JsString * JsString).

(** [appState] *)
Record AppState : Type := mkAppState {
  currentLang : JsString;
  cachedData : JsValue;
  translations : Translations;
  isLoading : bool
}.

(** The image block of a card (ui.js): the block with an [img] element,
    with the text that [createExperienceCard] puts between the quotes of
    its [src] attribute in the markup, or the block without an image.
    What the HTML parser makes of the markup is not modelled. *)
Inductive ImageHtml : Type :=
| ImageBlock (src : JsString)
| NoImageBlock.

(** A card as [createExperienceCard] fills its markup: from the fields of
    the formatted record, the image block, and the label of the contact
    button. *)
Record Card : Type := mkCard {
  cardExperience : FormattedExperience;
  cardImage : ImageHtml;
  cardLabel : JsString
}.

(** The calls the controller makes to its collaborators (translate.js,
    api.js, ui.js), and those [renderExperiences] makes in its turn, in
    the order they are made. *)
Inductive UiEvent : Type :=
| CallLoadTranslations (language : JsString)
| CallFetchExperiences
| UpdateLanguageLabels (t : Translations)
| RenderExperiences (cards : list FormattedExperience)
| ClearContainer
| CallGetTranslation (key : JsString)
| AppendCard (card : Card)
| ShowData
| ShowLoading
| HideLoading
| ShowError (message : JsString)
| SetLangSelect (language : JsString).

Definition Trace := list UiEvent.

(** What the page and the network answer.  An answer may depend on
    everything that happened before the call.  [loadTranslations] and
    [getTranslation] are those of translate.js, which is not part of the
    sources: the first resolves to a translation mapping or rejects, the
    second returns the label of a key, a string.  [dataContainerPresent]
    and [langSelectPresent] say whether the document has the elements
    with the ids dynamicData and langSelect. *)
Record World : Type := mkWorld {
  canParseUrl : JsString -> bool;
  loadTranslations : Trace -> JsString -> Result Translations;
  getTranslation : Trace -> JsString -> JsString;
  getExperiences : Trace -> FetchOutcome;
  dataContainerPresent : bool;
  langSelectPresent : bool
}.

(** Computations over the application state that record their calls and
    may throw; what was done before a throw stays done. *)
Definition M (A : Type) : Type := AppState * Trace -> Result A * (AppState * Trace).

Definition ret {A} (a : A) : M A := fun st => (Ok a, st).
Definition throw {A} (e : JsError) : M A := fun st => (Throw e, st).
Definition bind {A B} (m : M A) (k : A -> M B) : M B :=
  fun st => match m st with
            | (Ok a, st') => k a st'
            | (Throw e, st') => (Throw e, st')
            end.
Definition tryCatch {A} (m : M A) (handler : JsError -> M A) : M A :=
  fun st => match m st with
            | (Ok a, st') => (Ok a, st')
            | (Throw e, st') => handler e st'
            end.
Definition tryFinally {A} (m : M A) (finalizer : M unit) : M A :=
  fun st => match m st with
            | (r, st') => match finalizer st' with
                          | (Ok _, st'') => (r, st'')
                          | (Throw e, st'') => (Throw e, st'')
                          end
            end.
Definition getState : M AppState := fun st => (Ok (fst st), st).
Definition setState (f : AppState -> AppState) : M unit :=
  fun st => (Ok tt, (f (fst st), snd st)).
Definition emit (e : UiEvent) : M unit :=
  fun st => (Ok tt, (fst st, snd st ++ [e])).
Definition when (b : bool) (m : M unit) : M unit := if b then m else ret tt.
(** A call that touches neither the state nor the page. *)
Definition lift {A} (r : Result A) : M A := fun st => (r, st).

Notation "x <- m ;; k" := (bind m (fun x => k))
  (at level 61, m at next level, right associativity).
Notation "m ;;; k" := (bind m (fun _ => k))
  (at level 61, right associativity).

Definition setCurrentLang (l : JsString) : M unit :=
  setState (fun s => {| currentLang := l; cachedData := cachedData s;
                        translations := translations s; isLoading := isLoading s |}).
Definition setCachedData (d : JsValue) : M unit :=
  setState (fun s => {| currentLang := currentLang s; cachedData := d;
                        translations := translations s; isLoading := isLoading s |}).
Definition setTranslations (t : Translations) : M unit :=
  setState (fun s => {| currentLang := currentLang s; cachedData := cachedData s;
                        translations := t; isLoading := isLoading s |}).
Definition setIsLoading (b : bool) : M unit :=
  setState (fun s => {| currentLang := currentLang s; cachedData := cachedData s;
                        translations := translations s; isLoading := b |}).

(** [await loadTranslations(language)] *)
Definition callLoadTranslations (w : World) (language : JsString) : M Translations :=
  fun st => (loadTranslations w (snd st) language,
             (fst st, snd st ++ [CallLoadTranslations language])).

(** [await fetchExperiences()] *)
Definition callFetchExperiences (w : World) : M JsValue :=
  fun st => (fetchExperiences (getExperiences w (snd st)),
             (fst st, snd st ++ [CallFetchExperiences])).

(** [getTranslation(key)] *)
Definition callGetTranslation (w : World) (key : JsString) : M JsString :=
  fun st => (Ok (getTranslation w (snd st) key),
             (fst st, snd st ++ [CallGetTranslation key])).

(** [xs.forEach(f)] *)
Fixpoint forEach {A} (f : A -> M unit) (xs : list A) : M unit :=
  match xs with
  | [] => ret tt
  | x :: r => f x ;;; forEach f r
  end.

Definition msg_translations : JsString :=
  lit "N" ++ [0xE3%N] ++ lit "o foi poss" ++ [0xED%N] ++ lit "vel carregar as tradu"
    ++ [0xE7%N; 0xF5%N] ++ lit "es".
Definition msg_noExperience : JsString :=
  lit "Nenhuma experi" ++ [0xEA%N] ++ lit "ncia encontrada.".
Definition msg_noValidExperience : JsString :=
  lit "Nenhuma experi" ++ [0xEA%N] ++ lit "ncia v" ++ [0xE1%N] ++ lit "lida encontrada.".
Definition msg_renderError : JsString :=
  lit "Erro ao exibir experi" ++ [0xEA%N] ++ lit "ncias.".
Definition msg_translationsError : JsString :=
  lit "Erro ao carregar tradu" ++ [0xE7%N; 0xF5%N] ++ lit "es. Verifique sua conex"
    ++ [0xE3%N] ++ lit "o.".
Definition msg_experiencesError : JsString :=
  lit "Erro ao carregar experi" ++ [0xEA%N] ++ lit "ncias. Tente novamente.".

Definition loadTranslationsForLanguage (w : World) (language : JsString) : M unit :=
  tryCatch
    (t <- callLoadTranslations w language ;;
     setTranslations t ;;;
     emit (UpdateLanguageLabels t))
    (fun _ =>
       if negb (str_eqb language (lit "pt-br")) then
         setCurrentLang (lit "pt-br") ;;;
         t <- callLoadTranslations w (lit "pt-br") ;;
         setTranslations t ;;;
         emit (UpdateLanguageLabels t)
       else throw (newError msg_translations)).

(** [results.filter(validateExperienceData)] *)
Fixpoint filterValid (xs : list JsValue) : Result (list JsValue) :=
  match xs with
  | [] => Ok []
  | x :: r =>
      match validateExperienceData x with
      | Throw e => Throw e
      | Ok keep =>
          match filterValid r with
          | Throw e => Throw e
          | Ok r' => Ok (if keep then x :: r' else r')
          end
      end
  end.

(** [.map(experience => formatExperienceData(experience, lang))] *)
Fixpoint mapFormat (w : World) (lang : JsString) (xs : list JsValue)
  : Result (list FormattedExperience) :=
  match xs with
  | [] => Ok []
  | x :: r =>
      match formatExperienceData (canParseUrl w) x lang with
      | Throw e => Throw e
      | Ok c =>
          match mapFormat w lang r with
          | Throw e => Throw e
          | Ok r' => Ok (c :: r')
          end
      end
  end.

Definition notAFunction : JsError :=
  typeError (lit "appState.cachedData.results.filter is not a function").

(** The image block of [createExperienceCard] (ui.js).  The test is
    [experience.imageUrl && experience.imageUrl.trim()]: on a value that is
    true and no string, [trim] is no function.  The block with the image
    holds the trimmed URL and the name in its template. *)
Definition imageHtml (experience : FormattedExperience) : Result ImageHtml :=
  match fe_imageUrl experience with
  | JStr s =>
      if truthy (JStr s) && truthy (JStr (trim s)) then
        match template [JStr (trim s); fe_name experience] with
        | Throw e => Throw e
        | Ok _ => Ok (ImageBlock (trim s))
        end
      else Ok NoImageBlock
  | v =>
      if truthy v
      then Throw (typeError (lit "experience.imageUrl.trim is not a function"))
      else Ok NoImageBlock
  end.

(** [createExperienceCard] (ui.js).  The identifier goes into the
    aria-labelledby attribute, then the image block is built, then the
    markup of the card, whose template holds the identifier, the name, the
    description and the label [getTranslation('whatsapp')] returns: the
    card is not built when the identifier, the name or the description
    has no string form. *)
Definition createExperienceCard (w : World) (experience : FormattedExperience)
  : M Card :=
  lift (template [fe_id experience]) ;;;
  image <- lift (imageHtml experience) ;;
  lift (template [fe_id experience; fe_name experience; fe_description experience;
                  fe_id experience; fe_name experience; fe_name experience]) ;;;
  label <- callGetTranslation w (lit "whatsapp") ;;
  ret {| cardExperience := experience; cardImage := image; cardLabel := label |}.

(** The function [renderExperiences] gives to [forEach]: the card is
    built and appended to the container. *)
Definition appendCard (w : World) (experience : FormattedExperience) : M unit :=
  card <- createExperienceCard w experience ;;
  emit (AppendCard card).

(** [renderExperiences] (ui.js): without the container nothing is done;
    with it the container is emptied, the cards are built and appended one
    after the other, and the data region is shown.  A card that cannot be
    built ends the call: the cards before it stay in the container, and
    [showData] is not reached. *)
Definition renderExperiences (w : World) (experiences : list FormattedExperience)
  : M unit :=
  emit (RenderExperiences experiences) ;;;
  if negb (dataContainerPresent w) then ret tt
  else
    emit ClearContainer ;;;
    forEach (appendCard w) experiences ;;;
    emit ShowData.

(** The cards [renderData] builds from a cached response in a language. *)
Definition formattedExperiences (w : World) (lang : JsString) (data : JsValue)
  : Result (list FormattedExperience) :=
  match getProp data (lit "results") with
  | JArr xs =>
      match filterValid xs with
      | Throw e => Throw e
      | Ok valid => mapFormat w lang valid
      end
  | _ => Throw notAFunction
  end.

Definition renderData (w : World) : M unit :=
  s <- getState ;;
  if negb (truthy (cachedData s))
     || negb (truthy (getProp (cachedData s) (lit "results")))
  then emit (ShowError msg_noExperience)
  else
    tryCatch
      (formatted <- lift (formattedExperiences w (currentLang s) (cachedData s)) ;;
       if (length formatted =? 0)%nat
       then emit (ShowError msg_noValidExperience)
       else renderExperiences w formatted)
      (fun _ => emit (ShowError msg_renderError)).

Definition loadAppData (w : World) : M unit :=
  s <- getState ;;
  if isLoading s then ret tt
  else
    setIsLoading true ;;;
    emit ShowLoading ;;;
    tryFinally
      (tryCatch
         (s1 <- getState ;;
          loadTranslationsForLanguage w (currentLang s1) ;;;
          s2 <- getState ;;
          (if negb (truthy (cachedData s2))
           then data <- callFetchExperiences w ;; setCachedData data
           else ret tt) ;;;
          renderData w)
         (fun error =>
            s3 <- getState ;;
            if (length (translations s3) =? 0)%nat
            then emit (ShowError msg_translationsError)
            else emit (ShowError (if truthy (JStr (errMessage error))
                                  then errMessage error
                                  else msg_experiencesError))))
      (setIsLoading false ;;; emit HideLoading).

Definition handleLanguageChange (w : World) (newLang : JsString) : M unit :=
  s <- getState ;;
  if str_eqb newLang (currentLang s) then ret tt
  else
    let previousLang := currentLang s in
    setCurrentLang newLang ;;;
    tryCatch
      (loadTranslationsForLanguage w newLang ;;;
       s' <- getState ;;
       when (truthy (cachedData s')) (renderData w))
      (fun error =>
         setCurrentLang previousLang ;;;
         when (langSelectPresent w) (emit (SetLangSelect previousLang)) ;;;
         throw error).

Definition handleRetry (w : World) : M unit :=
  setCachedData JNull ;;;
  loadAppData w.

(** How many list fetches a trace holds. *)
Definition isFetch (e : UiEvent) : bool :=
  match e with CallFetchExperiences => true | _ => false end.
Definition fetchCount (t : Trace) : nat := length (filter isFetch t).

End Main.

(* ================================================================== *)
(** * ui.js *)
(* ================================================================== *)

Module Ui.

(** The three regions of the page (loadingState, dynamicData, errorState):
    each is absent from the document, or present with or without the class
    hidden. *)
Record Regions : Type := mkRegions {
  loadingState : option bool;
  dynamicData : option bool;
  errorState : option bool
}.

(** [if (element) element.classList.add('hidden')] and its opposite. *)
Definition addHidden (element : option bool) : option bool :=
  option_map (fun _ => true) element.
Definition removeHidden (element : option bool) : option bool :=
  option_map (fun _ => false) element.

Definition showLoading (r : Regions) : Regions :=
  {| loadingState := removeHidden (loadingState r);
     dynamicData := addHidden (dynamicData r);
     errorState := addHidden (errorState r) |}.

Definition hideLoading (r : Regions) : Regions :=
  {| loadingState := addHidden (loadingState r);
     dynamicData := dynamicData r;
     errorState := errorState r |}.

Definition showError (r : Regions) : Regions :=
  {| loadingState := addHidden (loadingState r);
     dynamicData := addHidden (dynamicData r);
     errorState := removeHidden (errorState r) |}.

Definition hideError (r : Regions) : Regions :=
  {| loadingState := loadingState r;
     dynamicData := dynamicData r;
     errorState := addHidden (errorState r) |}.

Definition showData (r : Regions) : Regions :=
  {| loadingState := addHidden (loadingState r);
     dynamicData := removeHidden (dynamicData r);
     errorState := addHidden (errorState r) |}.

(** What a call does to the regions: the calls that touch the class
    hidden are those of the four functions above. *)
Definition perform (r : Regions) (e : Main.UiEvent) : Regions :=
  match e with
  | Main.ShowLoading => showLoading r
  | Main.HideLoading => hideLoading r
  | Main.ShowError _ => showError r
  | Main.ShowData => showData r
  | _ => r
  end.

Definition performAll (t : Main.Trace) (r : Regions) : Regions :=
  fold_left perform t r.

(** The language selector: its value, what [dataset.currentLang] holds, and
    whether it is disabled. *)
Record Selector : Type := mkSelector {
  selValue : JsString;
  selStored : option JsString;
  selDisabled : bool
}.

(** [langSelect.dataset.currentLang || 'pt-br'] *)
Definition storedOrDefault (sel : Selector) : JsString :=
  match selStored sel with
  | Some l => if truthy (JStr l) then l else lit "pt-br"
  | None => lit "pt-br"
  end.

(** The change listener of [setupLanguageSelector], with
    [handleLanguageChange] as its callback: the user has picked [newLang];
    when the callback throws, the selector is set to the stored language
    (after the callback itself has set it back to the previous one); in
    every case the selector is enabled again and [newLang] is stored. *)
Definition onLanguageSelected (w : Main.World) (newLang : JsString)
    (sel : Selector) (st : Main.AppState * Main.Trace)
  : Selector * (Main.AppState * Main.Trace) :=
  let out := Main.handleLanguageChange w newLang st in
  let value :=
    match fst out with
    | Ok _ => newLang
    | Throw _ => storedOrDefault sel
    end in
  ({| selValue := value; selStored := Some newLang; selDisabled := false |}, snd out).

End Ui.

Import Modal Main.

(* ================================================================== *)
(** * The specification's reading of the operations, and sample inputs *)
(* ================================================================== *)

Module Spec.

(** The ten decimal digit characters. *)
Definition decimalDigits : JsString := lit "0123456789".
Definition isDecimalDigit (c : N) : bool := existsb (N.eqb c) decimalDigits.

(** How many digit characters a string holds. *)
Fixpoint digitCount (s : JsString) : nat :=
  match s with
  | [] => 0
  | c :: r => (if isDecimalDigit c then 1 else 0) + digitCount r
  end.

(** The string is made of digit characters only. *)
Definition allDigits (s : JsString) : bool := forallb isDecimalDigit s.

(** The digit characters of a string, in the order they stand in it: what
    remains when all non-digit characters are stripped. *)
Fixpoint digitsOf (s : JsString) : JsString :=
  match s with
  | [] => []
  | c :: r => if isDecimalDigit c then c :: digitsOf r else digitsOf r
  end.

(** "Letters (including accented letters), spaces, and hyphens", for a
    given notion [isLetter] of what a letter is. *)
Definition specNameChar (isLetter : N -> bool) (c : N) : bool :=
  isLetter c || isWhiteSpace c || (c =? 45)%N.

(** "The trimmed string has at least 2 characters and consists only of
    letters, spaces, and hyphens." *)
Definition specValidName (isLetter : N -> bool) (name : JsString) : bool :=
  (2 <=? length (trim name))%nat && forallb (specNameChar isLetter) (trim name).

(** The unaccented letters A-Z and a-z, and the accented letters of
    U+00C0..U+00FF: that range without the multiplication sign U+00D7 and
    the division sign U+00F7. *)
Definition isLatin1Letter (c : N) : bool :=
  inRange 65 90 c || inRange 97 122 c
  || inRange 0xC0 0xD6 c || inRange 0xD8 0xF6 c || inRange 0xF8 0xFF c.

(** The multiplication and division signs. *)
Definition isMulDivSign (c : N) : bool := ((c =? 0xD7) || (c =? 0xF7))%N.

(** The fields of an experience record the image resolution reads: the
    direct image URL, and the card-sized thumbnail URL and the original
    URL of the first attachment (the first element of the Image array). *)
Definition directUrl (experience : JsValue) : JsValue :=
  getProp experience (lit "Image URL").
Definition firstAttachment (experience : JsValue) : JsValue :=
  let image := getProp experience (lit "Image") in
  if isArray image then getIndex image 0 else JUndefined.
Definition thumbnailUrl (experience : JsValue) : JsValue :=
  getProp (getProp (getProp (firstAttachment experience) (lit "thumbnails"))
                   (lit "card_cover")) (lit "url").
Definition originalUrl (experience : JsValue) : JsValue :=
  getProp (firstAttachment experience) (lit "url").

(** The first-match-wins chain as the specification words it. *)
Definition specImageUrl (canParseUrl : JsString -> bool) (experience : JsValue)
  : JsValue :=
  if isValidImageUrl canParseUrl (directUrl experience) then directUrl experience
  else if isValidImageUrl canParseUrl (thumbnailUrl experience)
       then thumbnailUrl experience
  else if isValidImageUrl canParseUrl (originalUrl experience)
       then originalUrl experience
  else JStr [].

(** A string value without its leading and trailing white space. *)
Definition trimmed (v : JsValue) : JsValue :=
  match v with
  | JStr s => JStr (trim s)
  | _ => v
  end.

(** The chain with the direct URL trimmed. *)
Definition trimmedImageUrl (canParseUrl : JsString -> bool) (experience : JsValue)
  : JsValue :=
  if isValidImageUrl canParseUrl (directUrl experience)
  then trimmed (directUrl experience)
  else if isValidImageUrl canParseUrl (thumbnailUrl experience)
       then thumbnailUrl experience
  else if isValidImageUrl canParseUrl (originalUrl experience)
       then originalUrl experience
  else JStr [].

(** The name and description fields of a record in a language. *)
Definition selectedName (experience : JsValue) (language : JsString) : JsValue :=
  getProp experience
    (if str_eqb language (lit "en-us") then lit "Name_en_us" else lit "Name_pt_br").
Definition selectedDescription (experience : JsValue) (language : JsString) : JsValue :=
  getProp experience
    (if str_eqb language (lit "en-us") then lit "Description_en_us"
     else lit "Description_pt_br").

(** A field is empty when it is absent, null or the empty string. *)
Definition isEmptyField (v : JsValue) : bool :=
  match v with
  | JUndefined | JNull | JStr [] => true
  | _ => false
  end.

(** A text field of a row: a string, null, or absent. *)
Definition isTextField (v : JsValue) : bool :=
  match v with
  | JUndefined | JNull | JStr _ => true
  | _ => false
  end.

(** The lines [formatExperienceData] writes to the console can be built:
    the identifier has a string form, and so has the name of the language
    when the chain finds no image. *)
Definition logsComplete (canParseUrl : JsString -> bool) (experience : JsValue)
    (language : JsString) : bool :=
  hasStringForm (getProp experience (lit "id"))
  && (truthy (trimmedImageUrl canParseUrl experience)
      || hasStringForm (selectedName experience language)).

(** The value is the empty string. *)
Definition isEmptyString (v : JsValue) : bool :=
  match v with
  | JStr [] => true
  | _ => false
  end.

(** The coupon as the request carries it: the trimmed coupon when that
    is not empty, nothing otherwise. *)
Definition couponAfterTrim (cupom : option JsString) : option JsString :=
  match cupom with
  | Some s => match trim s with
              | [] => None
              | _ :: _ => Some (trim s)
              end
  | None => None
  end.

(** The object has a property of that name. *)
Definition hasKey (k : JsString) (props : list (JsString * JsValue)) : bool :=
  existsb (fun kv => str_eqb k (fst kv)) props.

(** The remote submission call was made. *)
Definition isSubmitCall (e : ModalEvent) : bool :=
  match e with CallSubmitContact _ => true | _ => false end.
Definition submitCalled (trace : list ModalEvent) : bool := existsb isSubmitCall trace.

(** The first error message a submission shows, if it shows one. *)
Fixpoint firstErrorSurfaced (trace : list ModalEvent) : option JsString :=
  match trace with
  | [] => None
  | ShowFormError m :: _ => Some m
  | ShowFieldError _ m :: _ => Some m
  | _ :: r => firstErrorSurfaced r
  end.

(** The messages about the name, and those about the phone. *)
Definition isNameError (m : option JsString) : bool :=
  match m with
  | Some s => str_eqb s msg_nameRequired || str_eqb s msg_nameInvalid
  | None => false
  end.
Definition isPhoneError (m : option JsString) : bool :=
  match m with
  | Some s => str_eqb s msg_whatsappRequired || str_eqb s msg_whatsappInvalid
  | None => false
  end.

(** What a language change may do to a state and a trace: the cached
    response and the loading flag stay as they were, and the trace grows
    by calls none of which is a list fetch. *)
Definition Frame (st st' : AppState * Trace) : Prop :=
  cachedData (fst st') = cachedData (fst st)
  /\ isLoading (fst st') = isLoading (fst st)
  /\ exists new, snd st' = snd st ++ new /\ existsb isFetch new = false.

(** A computation that stays within [Frame] from every start. *)
Definition framed {A : Type} (m : M A) : Prop :=
  forall st, Frame st (snd (m st)).

(** The string ends in a dot, one of the seven image extension names in
    either letter case, and at most a query: a question mark followed by
    characters that are no line terminators. *)
Definition hasImageExtension (s : JsString) : Prop :=
  exists before ext query,
    s = before ++ [46%N] ++ ext ++ query
    /\ In (map lowerAscii ext) imageExtensionNames
    /\ (query = []
        \/ exists q, query = 63%N :: q
                     /\ forallb (fun x => negb (isLineTerminator x)) q = true).

(** The value is neither [null] nor [undefined]. *)
Definition notNullish (v : JsValue) : bool :=
  match v with
  | JUndefined | JNull => false
  | _ => true
  end.

(** A valid row: an object with an identifier, a name in one of the two
    languages and a description in one of the two, none of them empty. *)
Definition isValidRecord (v : JsValue) : bool :=
  match v with
  | JObj props =>
      truthy (lookup (lit "id") props)
      && (truthy (lookup (lit "Name_pt_br") props)
          || truthy (lookup (lit "Name_en_us") props))
      && (truthy (lookup (lit "Description_pt_br") props)
          || truthy (lookup (lit "Description_en_us") props))
  | _ => false
  end.

(** The card has an identifier that is not empty, and a name and a
    description that are not the empty string. *)
Definition cardOk (c : FormattedExperience) : bool :=
  truthy (fe_id c) && negb (isEmptyString (fe_name c))
  && negb (isEmptyString (fe_description c)).

(** A region is visible when it is in the document without the class
    hidden. *)
Definition isVisible (element : option bool) : bool :=
  match element with
  | Some false => true
  | _ => false
  end.
Definition isPresent (element : option bool) : bool :=
  match element with
  | Some _ => true
  | None => false
  end.
Definition allPresent (r : Ui.Regions) : bool :=
  isPresent (Ui.loadingState r) && isPresent (Ui.dynamicData r)
  && isPresent (Ui.errorState r).

(** What every sequence of clicks and keys keeps: at most one modal, and
    a body that is locked exactly when a modal is there. *)
Definition pageOk (p : Page) : Prop :=
  modals p <= 1 /\ overflowHidden p = (modals p =? 1).

(** How many [ContactClick] events a sequence holds. *)
Definition contactClicks (events : list PageEvent) : nat :=
  length (filter (fun e => match e with ContactClick => true | _ => false end) events).
Definition hasEscape (events : list PageEvent) : bool :=
  existsb (fun e => match e with Keydown true => true | _ => false end) events.

(** The kinds of event of a submission. *)
Definition isOpenWhatsApp (e : ModalEvent) : bool :=
  match e with OpenWhatsApp _ => true | _ => false end.
Definition isCloseModal (e : ModalEvent) : bool :=
  match e with CloseContactModal => true | _ => false end.
Definition isButtonLoading (b : bool) (e : ModalEvent) : bool :=
  match e with SetButtonLoading b' => Bool.eqb b b' | _ => false end.
Definition isFieldError (e : ModalEvent) : bool :=
  match e with ShowFieldError _ _ => true | _ => false end.

(** The calls that show the data region or the error region, and those
    that leave the regions as they are. *)
Definition isRegionCall (e : UiEvent) : bool :=
  match e with
  | ShowError _ | ShowData => true
  | _ => false
  end.
Definition isQuietCall (e : UiEvent) : bool :=
  match e with
  | CallLoadTranslations _ | CallFetchExperiences | UpdateLanguageLabels _
  | RenderExperiences _ | ClearContainer | CallGetTranslation _ | AppendCard _ => true
  | _ => false
  end.
(** The calls [renderExperiences] makes before it shows the data. *)
Definition isCardCall (e : UiEvent) : bool :=
  match e with
  | ClearContainer | CallGetTranslation _ | AppendCard _ => true
  | _ => false
  end.
Definition isRenderCall (e : UiEvent) : bool :=
  match e with
  | RenderExperiences _ => true
  | _ => isCardCall e
  end.
Definition isSetLangSelect (e : UiEvent) : bool :=
  match e with SetLangSelect _ => true | _ => false end.
Definition isPageUpdate (e : UiEvent) : bool :=
  match e with
  | UpdateLanguageLabels _ | RenderExperiences _ | ClearContainer | AppendCard _
  | ShowData | ShowError _ => true
  | _ => false
  end.
(** The cards a trace appended to the container, in order. *)
Fixpoint appendedCards (t : Trace) : list Card :=
  match t with
  | [] => []
  | AppendCard c :: r => c :: appendedCards r
  | _ :: r => appendedCards r
  end.

(** What the cache may hold: nothing, or a response with an array under
    results. *)
Definition cacheOk (data : JsValue) : Prop :=
  truthy data = false \/ exists xs, getProp data (lit "results") = JArr xs.

(** What the user and the page ask of the controller: the initial load, a
    click on the retry control, a change of the language selector. *)
Inductive Action : Type :=
| Load
| Retry
| ChangeLanguage (newLang : JsString).

Definition act (w : World) (st : AppState * Trace) (a : Action) : AppState * Trace :=
  match a with
  | Load => snd (loadAppData w st)
  | Retry => snd (handleRetry w st)
  | ChangeLanguage newLang => snd (handleLanguageChange w newLang st)
  end.

Definition runActions (w : World) (actions : list Action) (st : AppState * Trace)
  : AppState * Trace :=
  fold_left (act w) actions st.

(** How many loads and retries a sequence of actions holds. *)
Definition loadCount (actions : list Action) : nat :=
  length (filter (fun a => match a with ChangeLanguage _ => false | _ => true end)
                 actions).

(** The record [formatExperienceData] returns when it returns. *)
Definition formatted (canParseUrl : JsString -> bool)
    (record : list (JsString * JsValue)) (language : JsString)
  : FormattedExperience :=
  {| fe_id := getProp (JObj record) (lit "id");
     fe_name := jsOr (selectedName (JObj record) language) (JStr placeholderName);
     fe_description :=
       jsOr (selectedDescription (JObj record) language) (JStr placeholderDescription);
     fe_imageUrl := trimmedImageUrl canParseUrl (JObj record);
     fe_originalData := JObj record |}.

(** At most one call that shows the data or an error, and exactly one
    when the page has the data container. *)
Definition shownOk (w : World) (shown : list UiEvent) : Prop :=
  (shown = [] /\ dataContainerPresent w = false)
  \/ exists X, shown = [X] /\ isRegionCall X = true.

(** What a render appends to the trace: the calls of a render, then at
    most one call that shows a region. *)
Definition renderShape (w : World) (quiet shown : list UiEvent) : Prop :=
  forallb isRenderCall quiet = true /\ shownOk w shown.

End Spec.

(** Sample inputs. *)
Module Sample.

Definition phone_mobile : JsString := lit "21987654321".
Definition phone_landline : JsString := lit "2134567890".
Definition phone_masked : JsString := lit "(21) 98765-4321".
Definition name_Ana : JsString := lit "Ana".
Definition name_A1 : JsString := lit "A1".
(** "Jānis", with U+0101 (a with macron). *)
Definition name_Janis : JsString := lit "J" ++ [0x101%N] ++ lit "nis".

Definition url_rio : JsString := lit "https://example.com/images/rio.png".
Definition url_rio_thumb : JsString := lit "https://files.baserow.io/thumb/rio.png".
Definition url_rio_original : JsString := lit "https://files.baserow.io/rio.png".

(** The Image array of a record with one attachment. *)
Definition attachment_rio : JsValue :=
  JArr [JObj [(lit "url", JStr url_rio_original);
              (lit "thumbnails",
               JObj [(lit "card_cover", JObj [(lit "url", JStr url_rio_thumb)])])]].

(** A record whose direct image URL carries a leading blank. *)
Definition record_paddedUrl : list (JsString * JsValue) :=
  [(lit "id", JNum 1);
   (lit "Name_pt_br", JStr (lit "Rio de Janeiro"));
   (lit "Description_pt_br", JStr (lit "Passeio"));
   (lit "Image URL", JStr ([32%N] ++ url_rio));
   (lit "Image", attachment_rio)].

(** A record with a direct image URL and an attachment. *)
Definition record_rio : list (JsString * JsValue) :=
  [(lit "id", JNum 1);
   (lit "Name_pt_br", JStr (lit "Rio de Janeiro"));
   (lit "Name_en_us", JStr (lit "Rio"));
   (lit "Description_pt_br", JStr (lit "Passeio"));
   (lit "Description_en_us", JStr (lit "Tour"));
   (lit "Image URL", JStr url_rio);
   (lit "Image", attachment_rio)].

(** A gateway's answer to the POST: status 502 and an HTML page, which
    [response.json()] rejects. *)
Definition response_badGateway : FetchOutcome :=
  FetchResponse 502
    (JsonRejected {| errName := lit "SyntaxError";
                     errMessage := lit "Unexpected token < in JSON at position 0" |}).

Definition contact_ana : ContactData :=
  {| Api.name := lit " Ana Souza "; Api.whatsapp := lit "(21) 98765-4321";
     Api.experienceId := 7; Api.cupom := Some (lit " UP10 ") |}.

Definition record_paraty : list (JsString * JsValue) :=
  [(lit "id", JNum 2);
   (lit "Name_pt_br", JStr (lit "Paraty e ilhas"));
   (lit "Name_en_us", JStr (lit "Paraty"));
   (lit "Description_pt_br", JStr (lit "Passeio de barco"));
   (lit "Description_en_us", JStr (lit "Boat tour"))].

(** A cached response with two experiences. *)
Definition cache_two : JsValue :=
  JObj [(lit "results", JArr [JObj record_rio; JObj record_paraty])].

Definition translations_pt : Translations := [(lit "whatsapp", lit "Fale conosco")].
Definition translations_en : Translations := [(lit "whatsapp", lit "Contact us")].

(** A page whose translations load, whose network is down, and whose
    browser parses the URLs that start with https. *)
Definition world_offline : World :=
  {| canParseUrl := isPrefixOf (lit "https://");
     loadTranslations := fun _ language =>
       if str_eqb language (lit "en-us") then Ok translations_en else Ok translations_pt;
     getExperiences := fun _ =>
       FetchRejected {| errName := lit "TypeError"; errMessage := lit "Failed to fetch" |};
     getTranslation := fun _ key => key;
     dataContainerPresent := true;
     langSelectPresent := true |}.

(** The same page with the network up: the list fetch answers with the
    two experiences. *)
Definition world_online : World :=
  {| canParseUrl := isPrefixOf (lit "https://");
     loadTranslations := fun _ language =>
       if str_eqb language (lit "en-us") then Ok translations_en else Ok translations_pt;
     getExperiences := fun _ => FetchResponse 200 (JsonParsed cache_two);
     getTranslation := fun _ key => key;
     dataContainerPresent := true;
     langSelectPresent := true |}.

(** The application when the page opens in Portuguese. *)
Definition state_initial : AppState :=
  {| currentLang := lit "pt-br"; cachedData := JNull;
     translations := []; isLoading := false |}.

(** The application after a load in Portuguese. *)
Definition state_cached : AppState :=
  {| currentLang := lit "pt-br"; cachedData := cache_two;
     translations := translations_pt; isLoading := false |}.

(** A cached response whose second row is null. *)
Definition cache_null_row : JsValue :=
  JObj [(lit "results", JArr [JObj record_rio; JNull])].
Definition state_null_row : AppState :=
  {| currentLang := lit "pt-br"; cachedData := cache_null_row;
     translations := translations_pt; isLoading := false |}.

(** A page whose translations never load. *)
Definition world_no_translations : World :=
  {| canParseUrl := isPrefixOf (lit "https://");
     loadTranslations := fun _ _ =>
       Throw {| errName := lit "TypeError"; errMessage := lit "Failed to fetch" |};
     getExperiences := fun _ => FetchResponse 200 (JsonParsed cache_two);
     getTranslation := fun _ key => key;
     dataContainerPresent := true;
     langSelectPresent := true |}.

(** A page on which only the Portuguese translations load. *)
Definition world_pt_only : World :=
  {| canParseUrl := isPrefixOf (lit "https://");
     loadTranslations := fun _ language =>
       if str_eqb language (lit "pt-br") then Ok translations_pt
       else Throw {| errName := lit "Error"; errMessage := lit "not found" |};
     getExperiences := fun _ => FetchResponse 200 (JsonParsed cache_two);
     getTranslation := fun _ key => key;
     dataContainerPresent := true;
     langSelectPresent := true |}.

(** A row whose identifier is an object with a toString property of its
    own, as JSON.parse makes of {"toString": null}: it has no string
    form. *)
Definition record_object_id : list (JsString * JsValue) :=
  [(lit "id", JObj [(lit "toString", JNull)]);
   (lit "Name_pt_br", JStr (lit "Ilha Grande"));
   (lit "Description_pt_br", JStr (lit "Trilha"))].

(** A row with an image whose description is such an object, and a
    cached response that holds this row. *)
Definition record_object_description : list (JsString * JsValue) :=
  [(lit "id", JNum 3);
   (lit "Name_pt_br", JStr (lit "Arraial do Cabo"));
   (lit "Description_pt_br", JObj [(lit "toString", JNull)]);
   (lit "Image URL", JStr url_rio)].
Definition cache_object_description : JsValue :=
  JObj [(lit "results", JArr [JObj record_object_description])].
Definition state_object_description : AppState :=
  {| currentLang := lit "pt-br"; cachedData := cache_object_description;
     translations := translations_pt; isLoading := false |}.

(** The three regions as the page has them while it loads. *)
Definition regions_loading : Ui.Regions :=
  {| Ui.loadingState := Some false; Ui.dynamicData := Some true;
     Ui.errorState := Some true |}.

End Sample.

(* ================================================================== *)
(** * Notions and tactics of the proofs *)
(* ================================================================== *)

(** The string does not start with white space. *)
Definition noLeadingSpace (s : JsString) : bool :=
  match s with
  | [] => true
  | c :: _ => negb (isWhiteSpace c)
  end.

(** The three ways the phone branch of [validateForm] can go. *)
Ltac phone_cases w :=
  let p := fresh "p" in
  destruct w as [p|];
  [ destruct (negb (truthy (JStr p)));
    [ | destruct (negb (validateBrazilianPhone p)) ]
  | ].

(** One step of symbolic execution: the plumbing of the monad and the
    projections of the state are computed away, the calls are kept. *)
Ltac monad_step :=
  cbv beta iota delta
    [bind tryCatch tryFinally getState setState emit ret throw
     setCurrentLang setCachedData setTranslations setIsLoading lift
     callLoadTranslations callFetchExperiences callGetTranslation fst snd];
  cbn [currentLang cachedData translations isLoading].


(** A call of [renderData] in the goal is replaced by what the lemma [run]
    says it comes to. *)
Ltac render_step run :=
  match goal with
  | |- context [renderData _ ?st] =>
      let quiet := fresh "quiet" in
      let shown := fresh "shown" in
      let Hrender := fresh "Hrender" in
      let Hshape := fresh "Hshape" in
      destruct (run st) as (quiet & shown & Hrender & Hshape);
      rewrite Hrender; cbn [fst snd]
  end.

(** The cases of a membership in an explicit list. *)
Ltac in_cases H :=
  repeat (destruct H as [H|H]; try discriminate H); try contradiction.


Import Spec Sample.

Unset Implicit Arguments.

(* ================================================================== *)
(** * Facts about the JavaScript fragment *)
(* ================================================================== *)

Section JsFacts.

Lemma inRange_spec lo hi c : inRange lo hi c = true <-> (lo <= c <= hi)%N.
Proof.
  unfold inRange. rewrite andb_true_iff, !N.leb_le. tauto.
Qed.

Lemma isDigit_decimal c : isDigit c = isDecimalDigit c.
Proof.
  apply eq_true_iff_eq.
  unfold isDigit, isDecimalDigit, decimalDigits. simpl.
  rewrite inRange_spec, !orb_true_iff, !N.eqb_eq. lia.
Qed.

Lemma filter_id {A} (p : A -> bool) (l : list A) :
  forallb p l = true -> filter p l = l.
Proof.
  induction l as [|x l IH]; simpl; intros H; [reflexivity|].
  apply andb_true_iff in H as [Hx Hl]. rewrite Hx, IH by assumption. reflexivity.
Qed.

Lemma forallb_filter {A} (p : A -> bool) (l : list A) :
  forallb p (filter p l) = true.
Proof.
  induction l as [|x l IH]; simpl; [reflexivity|].
  destruct (p x) eqn:E; simpl; [rewrite E|]; assumption.
Qed.

End JsFacts.

(* ================================================================== *)
(** * Phone validation and formatting (utils.js) *)
(* ================================================================== *)

Section Phone.

Lemma stripNonDigits_length s : length (stripNonDigits s) = digitCount s.
Proof.
  unfold stripNonDigits.
  induction s as [|c s IH]; simpl; [reflexivity|].
  rewrite isDigit_decimal. destruct (isDecimalDigit c); simpl; rewrite IH; reflexivity.
Qed.

Lemma stripNonDigits_digitsOf s : stripNonDigits s = digitsOf s.
Proof.
  unfold stripNonDigits.
  induction s as [|c s IH]; simpl; [reflexivity|].
  rewrite isDigit_decimal. destruct (isDecimalDigit c); rewrite IH; reflexivity.
Qed.

Lemma stripNonDigits_digits s : forallb isDigit (stripNonDigits s) = true.
Proof. apply forallb_filter. Qed.

Lemma stripNonDigits_allDigits s : allDigits s = true -> stripNonDigits s = s.
Proof.
  intros H. apply filter_id. rewrite <- H. unfold allDigits.
  clear H. induction s as [|c s IH]; simpl; [reflexivity|].
  rewrite isDigit_decimal, IH. reflexivity.
Qed.

Lemma stripNonDigits_app s t :
  stripNonDigits (s ++ t) = stripNonDigits s ++ stripNonDigits t.
Proof. apply filter_app. Qed.

Lemma stripNonDigits_idem s : stripNonDigits (stripNonDigits s) = stripNonDigits s.
Proof. apply filter_id, stripNonDigits_digits. Qed.

Lemma digitsAhead_all n s :
  forallb isDigit s = true -> n <= length s -> digitsAhead n s = true.
Proof.
  revert s. induction n as [|n IH]; intros s Hs Hn; simpl; [reflexivity|].
  destruct s as [|c s]; simpl in *; [lia|].
  apply andb_true_iff in Hs as [Hc Hs]. rewrite Hc. apply IH; [assumption|lia].
Qed.

Lemma replaceMask_unfold a b c s :
  replaceMask a b c s =
  if digitsAhead (a + b + c) s then
    lit "(" ++ firstn a s ++ lit ") " ++ firstn b (skipn a s) ++ lit "-"
      ++ firstn c (skipn (a + b) s) ++ skipn (a + b + c) s
  else match s with
       | [] => []
       | x :: r => x :: replaceMask a b c r
       end.
Proof. destruct s; reflexivity. Qed.

(** On a string of exactly [a+b+c] digits the pattern matches the whole
    string, and the three groups are its consecutive pieces. *)
Lemma replaceMask_exact a b c s :
  forallb isDigit s = true -> length s = a + b + c ->
  exists g1 g2 g3,
    s = g1 ++ g2 ++ g3 /\ length g1 = a /\ length g2 = b /\ length g3 = c /\
    replaceMask a b c s = lit "(" ++ g1 ++ lit ") " ++ g2 ++ lit "-" ++ g3.
Proof.
  intros Hs Hlen.
  exists (firstn a s), (firstn b (skipn a s)), (skipn (a + b) s).
  assert (Hsplit : s = firstn a s ++ firstn b (skipn a s) ++ skipn (a + b) s).
  { rewrite <- (firstn_skipn a s) at 1. f_equal.
    rewrite <- (firstn_skipn b (skipn a s)) at 1. f_equal.
    rewrite skipn_skipn. f_equal. lia. }
  split; [exact Hsplit|].
  split; [rewrite length_firstn; lia|].
  split; [rewrite length_firstn, length_skipn; lia|].
  split; [rewrite length_skipn; lia|].
  rewrite replaceMask_unfold, digitsAhead_all by (assumption || lia).
  rewrite (skipn_all2 s (n := a + b + c)) by lia.
  rewrite (firstn_all2 (skipn (a + b) s) (n := c)) by (rewrite length_skipn; lia).
  rewrite app_nil_r. reflexivity.
Qed.

Lemma stripNonDigits_masked g1 g2 g3 :
  forallb isDigit (g1 ++ g2 ++ g3) = true ->
  stripNonDigits (lit "(" ++ g1 ++ lit ") " ++ g2 ++ lit "-" ++ g3) = g1 ++ g2 ++ g3.
Proof.
  intros H. rewrite !forallb_app in H.
  apply andb_true_iff in H as [H1 H]. apply andb_true_iff in H as [H2 H3].
  unfold stripNonDigits. rewrite !filter_app.
  rewrite (filter_id _ g1), (filter_id _ g2), (filter_id _ g3) by assumption.
  reflexivity.
Qed.

Lemma formatBrazilianPhone_eleven phone :
  length (stripNonDigits phone) = 11 ->
  exists g1 g2 g3,
    stripNonDigits phone = g1 ++ g2 ++ g3 /\
    length g1 = 2 /\ length g2 = 5 /\ length g3 = 4 /\
    formatBrazilianPhone phone = lit "(" ++ g1 ++ lit ") " ++ g2 ++ lit "-" ++ g3.
Proof.
  intros H. unfold formatBrazilianPhone. cbv zeta. rewrite H. simpl Nat.eqb. cbv iota.
  apply (replaceMask_exact 2 5 4); [apply stripNonDigits_digits | exact H].
Qed.

Lemma formatBrazilianPhone_ten phone :
  length (stripNonDigits phone) = 10 ->
  exists g1 g2 g3,
    stripNonDigits phone = g1 ++ g2 ++ g3 /\
    length g1 = 2 /\ length g2 = 4 /\ length g3 = 4 /\
    formatBrazilianPhone phone = lit "(" ++ g1 ++ lit ") " ++ g2 ++ lit "-" ++ g3.
Proof.
  intros H. unfold formatBrazilianPhone. cbv zeta. rewrite H. simpl Nat.eqb. cbv iota.
  apply (replaceMask_exact 2 4 4); [apply stripNonDigits_digits | exact H].
Qed.

Lemma formatBrazilianPhone_other phone :
  length (stripNonDigits phone) <> 11 -> length (stripNonDigits phone) <> 10 ->
  formatBrazilianPhone phone = phone.
Proof.
  intros H11 H10. unfold formatBrazilianPhone. cbv zeta.
  apply Nat.eqb_neq in H11, H10. rewrite H11, H10. reflexivity.
Qed.

(** C3.  [validateBrazilianPhone] returns true exactly when the string
    holds 10 or 11 digit characters (whatever else it holds); in
    particular a string made of digits only is accepted exactly when its
    length is 10 or 11. *)
Theorem validateBrazilianPhone_iff_ten_or_eleven_digits (phone : JsString) :
  (validateBrazilianPhone phone = true <->
     digitCount phone = 10 \/ digitCount phone = 11)
  /\ (allDigits phone = true ->
        (validateBrazilianPhone phone = true <->
           length phone = 10 \/ length phone = 11)).
Proof.
  assert (Hiff : validateBrazilianPhone phone = true <->
                 digitCount phone = 10 \/ digitCount phone = 11).
  { unfold validateBrazilianPhone. cbv zeta.
    rewrite orb_true_iff, !Nat.eqb_eq, stripNonDigits_length. tauto. }
  split; [exact Hiff|].
  intros Hall. rewrite Hiff, <- stripNonDigits_length, stripNonDigits_allDigits by assumption.
  tauto.
Qed.

(** C4.  [formatBrazilianPhone] strips the non-digits: when the string
    holds 11 digit characters they come back, in the order they stand in
    it, grouped 2-5-4 as (DD) DDDDD-DDDD; when it holds 10, grouped 2-4-4 as
    (DD) DDDD-DDDD; with any other digit count the input comes back
    unchanged.  The digits of the string and their count are those of the
    specification ([digitsOf], [digitCount]), not what the code computes.
    The two examples of the specification evaluate as it says. *)
Theorem formatBrazilianPhone_grouping (phone : JsString) :
  (digitCount phone = 11 ->
     exists g1 g2 g3,
       digitsOf phone = g1 ++ g2 ++ g3 /\
       length g1 = 2 /\ length g2 = 5 /\ length g3 = 4 /\
       formatBrazilianPhone phone = lit "(" ++ g1 ++ lit ") " ++ g2 ++ lit "-" ++ g3)
  /\ (digitCount phone = 10 ->
     exists g1 g2 g3,
       digitsOf phone = g1 ++ g2 ++ g3 /\
       length g1 = 2 /\ length g2 = 4 /\ length g3 = 4 /\
       formatBrazilianPhone phone = lit "(" ++ g1 ++ lit ") " ++ g2 ++ lit "-" ++ g3)
  /\ (digitCount phone <> 11 -> digitCount phone <> 10 ->
      formatBrazilianPhone phone = phone)
  /\ formatBrazilianPhone (lit "21987654321") = lit "(21) 98765-4321"
  /\ formatBrazilianPhone (lit "2134567890") = lit "(21) 3456-7890".
Proof.
  rewrite <- stripNonDigits_length, <- stripNonDigits_digitsOf.
  split; [apply formatBrazilianPhone_eleven|].
  split; [apply formatBrazilianPhone_ten|].
  split; [apply formatBrazilianPhone_other|].
  split; reflexivity.
Qed.

(** C10.  [formatBrazilianPhone] is idempotent: the mask adds no digit and
    drops none, so a formatted number is formatted to itself, and a string
    left unchanged is left unchanged again. *)
Theorem formatBrazilianPhone_idempotent (phone : JsString) :
  formatBrazilianPhone (formatBrazilianPhone phone) = formatBrazilianPhone phone.
Proof.
  destruct (Nat.eq_dec (length (stripNonDigits phone)) 11) as [H11|H11].
  - destruct (formatBrazilianPhone_eleven phone H11)
      as (g1 & g2 & g3 & Hd & _ & _ & _ & Hf).
    assert (Hs : stripNonDigits (formatBrazilianPhone phone) = stripNonDigits phone).
    { rewrite Hf, Hd. apply stripNonDigits_masked. rewrite <- Hd.
      apply stripNonDigits_digits. }
    unfold formatBrazilianPhone at 1. cbv zeta. rewrite Hs, H11. simpl Nat.eqb. cbv iota.
    unfold formatBrazilianPhone. cbv zeta. rewrite H11. reflexivity.
  - destruct (Nat.eq_dec (length (stripNonDigits phone)) 10) as [H10|H10].
    + destruct (formatBrazilianPhone_ten phone H10)
        as (g1 & g2 & g3 & Hd & _ & _ & _ & Hf).
      assert (Hs : stripNonDigits (formatBrazilianPhone phone) = stripNonDigits phone).
      { rewrite Hf, Hd. apply stripNonDigits_masked. rewrite <- Hd.
        apply stripNonDigits_digits. }
      unfold formatBrazilianPhone at 1. cbv zeta. rewrite Hs, H10. simpl Nat.eqb. cbv iota.
      unfold formatBrazilianPhone. cbv zeta. rewrite H10. reflexivity.
    + rewrite (formatBrazilianPhone_other phone) by assumption.
      apply formatBrazilianPhone_other; assumption.
Qed.

End Phone.

(* ================================================================== *)
(** * Name validation (utils.js) *)
(* ================================================================== *)

Section Name.

Lemma nameChar_latin1 c :
  isMulDivSign c = false -> nameChar c = specNameChar isLatin1Letter c.
Proof.
  unfold isMulDivSign, nameChar, specNameChar, isLatin1Letter. intros H.
  apply orb_false_iff in H as [Hmul Hdiv].
  apply N.eqb_neq in Hmul, Hdiv.
  destruct (isWhiteSpace c); [rewrite !orb_true_r; reflexivity|].
  destruct (c =? 45)%N; [rewrite !orb_true_r; reflexivity|].
  rewrite !orb_false_r.
  apply eq_true_iff_eq. rewrite !orb_true_iff, !inRange_spec. lia.
Qed.

Lemma forallb_nameChar_latin1 s :
  existsb isMulDivSign s = false ->
  forallb nameChar s = forallb (specNameChar isLatin1Letter) s.
Proof.
  induction s as [|c s IH]; simpl; intros H; [reflexivity|].
  apply orb_false_iff in H as [Hc Hs].
  rewrite nameChar_latin1, IH by assumption. reflexivity.
Qed.

(** C5, as the specification states it, fails: "Jānis" is made of letters
    only (one of them accented) and has five characters, and
    [validateName] rejects it, because U+0101 lies outside the ranges of
    [nameRegex].  This holds for every notion of letter that counts the
    five characters of the name as letters. *)
Lemma validateName_rejects_Janis :
  validateName name_Janis = false
  /\ (forall isLetter : N -> bool,
        forallb isLetter name_Janis = true ->
        specValidName isLetter name_Janis = true).
Proof.
  split; [reflexivity|].
  intros isLetter H. unfold specValidName.
  change (trim name_Janis) with name_Janis.
  apply andb_true_iff. split; [reflexivity|].
  revert H. unfold name_Janis, specNameChar. simpl.
  rewrite !andb_true_iff. intros (H1 & H2 & H3 & H4 & H5 & _).
  rewrite H1, H2, H3, H4, H5. repeat split.
Qed.

(** C5, amended.  On a string whose trimmed form holds neither the
    multiplication sign U+00D7 nor the division sign U+00F7,
    [validateName] returns true exactly when the trimmed string has at
    least 2 code units, each an unaccented letter A-Z or a-z, an accented
    letter of U+00C0..U+00FF, a white-space character or a hyphen;
    "Ana" is accepted, "A1" and the empty string are rejected. *)
Theorem validateName_latin1 (name : JsString) :
  existsb isMulDivSign (trim name) = false ->
  validateName name = specValidName isLatin1Letter name
  /\ validateName (lit "Ana") = true
  /\ validateName (lit "A1") = false
  /\ validateName [] = false.
Proof.
  intros H. split; [|repeat split].
  unfold validateName, specValidName. cbv zeta.
  rewrite forallb_nameChar_latin1 by assumption. reflexivity.
Qed.

Lemma validateName_latin1_witness :
  validateName name_Ana = specValidName isLatin1Letter name_Ana
  /\ validateName (lit "Ana") = true
  /\ validateName (lit "A1") = false
  /\ validateName [] = false.
Proof.
  apply (validateName_latin1 name_Ana). reflexivity.
Defined.

End Name.

(* ================================================================== *)
(** * Trimming *)
(* ================================================================== *)

Section Trim.

Lemma dropWhile_noLeading s : noLeadingSpace (dropWhile isWhiteSpace s) = true.
Proof.
  induction s as [|c s IH]; simpl; [reflexivity|].
  destruct (isWhiteSpace c) eqn:E; [assumption|]. simpl. rewrite E. reflexivity.
Qed.

Lemma dropWhile_fixed s : noLeadingSpace s = true -> dropWhile isWhiteSpace s = s.
Proof.
  destruct s as [|c s]; simpl; [reflexivity|].
  intros H. apply negb_true_iff in H. rewrite H. reflexivity.
Qed.

Lemma dropWhile_snoc s c :
  isWhiteSpace c = false ->
  dropWhile isWhiteSpace (s ++ [c]) = dropWhile isWhiteSpace s ++ [c].
Proof.
  intros Hc. induction s as [|x s IH]; simpl.
  - rewrite Hc. reflexivity.
  - destruct (isWhiteSpace x); [assumption | reflexivity].
Qed.

Lemma trimEnd_noLeading s : noLeadingSpace s = true -> noLeadingSpace (trimEnd s) = true.
Proof.
  destruct s as [|c s]; [reflexivity|]. simpl. intros H.
  apply negb_true_iff in H. unfold trimEnd. simpl rev.
  rewrite dropWhile_snoc by assumption. rewrite rev_app_distr. simpl.
  rewrite H. reflexivity.
Qed.

Lemma trimEnd_idem s : trimEnd (trimEnd s) = trimEnd s.
Proof.
  unfold trimEnd. rewrite rev_involutive.
  rewrite (dropWhile_fixed _ (dropWhile_noLeading _)). reflexivity.
Qed.

Lemma trim_idem s : trim (trim s) = trim s.
Proof.
  unfold trim, trimStart.
  rewrite (dropWhile_fixed _ (trimEnd_noLeading _ (dropWhile_noLeading s))).
  apply trimEnd_idem.
Qed.

Lemma trim_nonempty s : trim s <> [] -> s <> [].
Proof. intros H E. subst s. apply H. reflexivity. Qed.

End Trim.

(* ================================================================== *)
(** * Formatting an experience record (api.js) *)
(* ================================================================== *)

Section Format.

Variable canParseUrl : JsString -> bool.

Lemma isValidImageUrl_string v :
  isValidImageUrl canParseUrl v = true -> exists s, v = JStr s /\ s <> [].
Proof.
  destruct v as [| | | |s| |]; simpl; try discriminate.
  destruct s as [|c s]; [discriminate|]. intros _. exists (c :: s). split; [reflexivity|discriminate].
Qed.

Lemma isValidImageUrl_truthy v :
  isValidImageUrl canParseUrl v = true -> truthy v = true.
Proof.
  intros H. destruct (isValidImageUrl_string v H) as (s & -> & Hs).
  destruct s; [contradiction|reflexivity].
Qed.

(** [isValidImageUrl] trims its argument, so it cannot tell a string from
    its trimmed form. *)
Lemma isValidImageUrl_trim s :
  isValidImageUrl canParseUrl (JStr (trim s)) = isValidImageUrl canParseUrl (JStr s).
Proof.
  unfold isValidImageUrl. rewrite trim_idem.
  destruct (trim s) as [|c t] eqn:Et.
  - destruct s as [|c s]; [reflexivity|]. simpl.
    destruct (canParseUrl []); reflexivity.
  - destruct s as [|x s]; [discriminate Et|]. reflexivity.
Qed.

Lemma falsy_getProp v k : truthy v = false -> getProp v k = JUndefined.
Proof. destruct v; simpl; intros H; try reflexivity; discriminate. Qed.

Lemma falsy_invalid v : truthy v = false -> isValidImageUrl canParseUrl v = false.
Proof.
  intros H. destruct (isValidImageUrl canParseUrl v) eqn:E; [|reflexivity].
  apply isValidImageUrl_truthy in E. congruence.
Qed.

(** A template with the identifier and a string is built exactly when the
    identifier has a string form. *)
Lemma template_id_string v s :
  template [v; JStr s] = if hasStringForm v then Ok tt else Throw noPrimitiveValue.
Proof. unfold template. simpl. rewrite andb_true_r. reflexivity. Qed.

Lemma template_pair v u :
  template [v; u] =
  if hasStringForm v && hasStringForm u then Ok tt else Throw noPrimitiveValue.
Proof. unfold template. simpl. rewrite andb_true_r. reflexivity. Qed.

(** The three tries of [formatExperienceData], each against the fields of
    the record it reads. *)
Lemma imageFromDirectField_spec e :
  imageFromDirectField canParseUrl e (JStr []) =
  if isValidImageUrl canParseUrl (directUrl e) then Ok (trimmed (directUrl e))
  else if truthy (directUrl e) && isString (directUrl e)
          && negb (hasStringForm (getProp e (lit "id")))
       then Throw noPrimitiveValue
       else Ok (JStr []).
Proof.
  unfold imageFromDirectField, directUrl. cbv zeta.
  destruct (getProp e (lit "Image URL")) as [| |b|n|s|xs|ps]; simpl truthy; simpl isString;
    rewrite ?andb_false_r; try reflexivity.
  destruct s as [|c s]; [reflexivity|].
  cbv beta iota. unfold andb at 1.
  rewrite isValidImageUrl_trim, template_id_string.
  destruct (isValidImageUrl canParseUrl (JStr (c :: s))); [reflexivity|].
  destruct (hasStringForm (getProp e (lit "id"))); reflexivity.
Qed.

Lemma imageFromThumbnail_spec e img :
  imageFromThumbnail canParseUrl e img =
  if negb (truthy img) && isValidImageUrl canParseUrl (thumbnailUrl e)
  then thumbnailUrl e else img.
Proof.
  unfold imageFromThumbnail, thumbnailUrl, firstAttachment. cbv zeta.
  destruct (truthy img); [reflexivity|]. simpl negb. rewrite !andb_true_l.
  destruct (getProp e (lit "Image")) as [| |b|n|s|xs|ps]; simpl isArray; cbv iota;
    rewrite ?andb_false_r; try reflexivity.
  simpl truthy at 1. rewrite !andb_true_l.
  set (a := getIndex (JArr xs) 0).
  destruct (truthy a) eqn:Ha;
    [|rewrite (falsy_getProp a _ Ha); reflexivity].
  rewrite andb_true_l.
  destruct (truthy (getProp a (lit "thumbnails"))) eqn:Ht;
    [|rewrite (falsy_getProp _ (lit "card_cover") Ht); reflexivity].
  rewrite andb_true_l.
  destruct (truthy (getProp (getProp a (lit "thumbnails")) (lit "card_cover"))) eqn:Hc;
    [reflexivity|].
  rewrite (falsy_getProp _ (lit "url") Hc). reflexivity.
Qed.

Lemma imageFromOriginal_spec e img :
  imageFromOriginal canParseUrl e img =
  if negb (truthy img) && isValidImageUrl canParseUrl (originalUrl e)
  then originalUrl e else img.
Proof.
  unfold imageFromOriginal, originalUrl, firstAttachment. cbv zeta.
  destruct (truthy img); [reflexivity|]. simpl negb. rewrite !andb_true_l.
  destruct (getProp e (lit "Image")) as [| |b|n|s|xs|ps]; simpl isArray; cbv iota;
    rewrite ?andb_false_r; try reflexivity.
  simpl truthy at 1. rewrite !andb_true_l.
  set (a := getIndex (JArr xs) 0).
  destruct (truthy a) eqn:Ha;
    [|rewrite (falsy_getProp a _ Ha); reflexivity].
  rewrite andb_true_l.
  destruct (truthy (getProp a (lit "url"))) eqn:Hu; [reflexivity|].
  rewrite (falsy_invalid _ Hu). reflexivity.
Qed.

Lemma trimmed_valid_truthy v :
  isValidImageUrl canParseUrl v = true -> truthy (trimmed v) = true.
Proof.
  intros H. destruct (isValidImageUrl_string v H) as (s & -> & _).
  simpl trimmed. apply isValidImageUrl_truthy. rewrite isValidImageUrl_trim. exact H.
Qed.

(** The second and third tries after the first, against the chain. *)
Lemma imageChain_after_direct e :
  imageFromOriginal canParseUrl e
    (imageFromThumbnail canParseUrl e
       (if isValidImageUrl canParseUrl (directUrl e)
        then trimmed (directUrl e) else JStr []))
  = trimmedImageUrl canParseUrl e.
Proof.
  rewrite imageFromOriginal_spec, imageFromThumbnail_spec.
  unfold trimmedImageUrl.
  destruct (isValidImageUrl canParseUrl (directUrl e)) eqn:Hd.
  - pose proof (trimmed_valid_truthy _ Hd) as Hx.
    rewrite Hx. cbv beta iota delta [negb andb]. rewrite Hx. reflexivity.
  - change (truthy (JStr [])) with false. cbv beta iota delta [negb andb].
    destruct (isValidImageUrl canParseUrl (thumbnailUrl e)) eqn:Ht.
    + rewrite (isValidImageUrl_truthy _ Ht). reflexivity.
    + change (truthy (JStr [])) with false. reflexivity.
Qed.

Lemma trimmedImageUrl_string e :
  exists s, trimmedImageUrl canParseUrl e = JStr s
            /\ (s = [] \/ isValidImageUrl canParseUrl (JStr s) = true).
Proof.
  unfold trimmedImageUrl.
  destruct (isValidImageUrl canParseUrl (directUrl e)) eqn:Hd.
  - destruct (isValidImageUrl_string _ Hd) as (s & Hs & _). rewrite Hs in *.
    exists (trim s). split; [reflexivity|]. right. rewrite isValidImageUrl_trim. exact Hd.
  - destruct (isValidImageUrl canParseUrl (thumbnailUrl e)) eqn:Ht.
    + destruct (isValidImageUrl_string _ Ht) as (s & Hs & _). rewrite Hs in *.
      exists s. split; [reflexivity|]. right. exact Ht.
    + destruct (isValidImageUrl canParseUrl (originalUrl e)) eqn:Ho.
      * destruct (isValidImageUrl_string _ Ho) as (s & Hs & _). rewrite Hs in *.
        exists s. split; [reflexivity|]. right. exact Ho.
      * exists []. split; [reflexivity|]. left. reflexivity.
Qed.

(** Every way [formatExperienceData] can go on an object: it returns when
    its console lines can be built, and throws the TypeError of ToString
    when they cannot. *)
Lemma formatExperienceData_run record language :
  formatExperienceData canParseUrl (JObj record) language =
  if logsComplete canParseUrl (JObj record) language
  then Ok (formatted canParseUrl record language)
  else Throw noPrimitiveValue.
Proof.
  unfold formatExperienceData, logsComplete, formatted. cbv zeta.
  set (e := JObj record).
  rewrite imageFromDirectField_spec.
  assert (Hn : (if str_eqb language (lit "en-us")
                then getProp e (lit "Name_en_us")
                else getProp e (lit "Name_pt_br"))
               = selectedName e language).
  { unfold selectedName. destruct (str_eqb language (lit "en-us")); reflexivity. }
  assert (Hd : (if str_eqb language (lit "en-us")
                then getProp e (lit "Description_en_us")
                else getProp e (lit "Description_pt_br"))
               = selectedDescription e language).
  { unfold selectedDescription. destruct (str_eqb language (lit "en-us")); reflexivity. }
  rewrite Hn, Hd.
  pose proof (imageChain_after_direct e) as Hchain.
  destruct (trimmedImageUrl_string e) as (u & Hu & _).
  destruct (isValidImageUrl canParseUrl (directUrl e)) eqn:Hv.
  - rewrite Hchain, Hu.
    assert (Htu : truthy (JStr u) = true).
    { rewrite <- Hu. unfold trimmedImageUrl. rewrite Hv.
      apply trimmed_valid_truthy, Hv. }
    rewrite Htu. simpl negb. cbv iota. rewrite template_id_string, orb_true_l, andb_true_r.
    destruct (hasStringForm (getProp e (lit "id"))); reflexivity.
  - destruct (hasStringForm (getProp e (lit "id"))) eqn:Hid.
    + simpl negb. rewrite andb_false_r. rewrite Hchain, Hu.
      destruct (truthy (JStr u)); simpl negb; cbv iota.
      * rewrite template_id_string, Hid. reflexivity.
      * rewrite template_pair, Hid, orb_false_l, !andb_true_l.
        destruct (hasStringForm (selectedName e language)); reflexivity.
    + simpl negb. rewrite andb_true_r.
      destruct (truthy (directUrl e) && isString (directUrl e)); [reflexivity|].
      rewrite Hchain, Hu.
      destruct (truthy (JStr u)); simpl negb; cbv iota.
      * rewrite template_id_string, Hid. reflexivity.
      * rewrite template_pair, Hid. reflexivity.
Qed.

Lemma truthy_not_empty_string v : truthy v = true -> isEmptyString v = false.
Proof. destruct v as [| | | |s| |]; try reflexivity. destruct s; [discriminate|reflexivity]. Qed.

Lemma jsOr_not_empty v placeholder :
  placeholder <> [] -> isEmptyString (jsOr v (JStr placeholder)) = false.
Proof.
  intros Hp. unfold jsOr. destruct (truthy v) eqn:Hv.
  - apply truthy_not_empty_string, Hv.
  - destruct placeholder; [contradiction|reflexivity].
Qed.

(** An empty field is read as false; a text field that is not empty is
    read as true. *)
Lemma isEmptyField_falsy v : isEmptyField v = true -> truthy v = false.
Proof. destruct v as [| | | |s| |]; try discriminate; try reflexivity.
       destruct s; [reflexivity|discriminate]. Qed.

Lemma isTextField_truthy v :
  isTextField v = true -> truthy v = negb (isEmptyField v).
Proof. destruct v as [| | | |s| |]; try discriminate; try reflexivity.
       destruct s; reflexivity. Qed.

Lemma jsOr_empty v placeholder : isEmptyField v = true -> jsOr v placeholder = placeholder.
Proof. intros H. unfold jsOr. rewrite (isEmptyField_falsy v H). reflexivity. Qed.

Lemma jsOr_text v placeholder :
  isTextField v = true ->
  jsOr v placeholder = if isEmptyField v then placeholder else v.
Proof.
  intros H. unfold jsOr. rewrite (isTextField_truthy v H).
  destruct (isEmptyField v); reflexivity.
Qed.

Lemma selectedName_either e language :
  selectedName e language = getProp e (lit "Name_en_us")
  \/ selectedName e language = getProp e (lit "Name_pt_br").
Proof. unfold selectedName. destruct (str_eqb language (lit "en-us")); auto. Qed.

Lemma selectedDescription_either e language :
  selectedDescription e language = getProp e (lit "Description_en_us")
  \/ selectedDescription e language = getProp e (lit "Description_pt_br").
Proof. unfold selectedDescription. destruct (str_eqb language (lit "en-us")); auto. Qed.

(** The console lines can be built for every record whose identifier and
    name have a string form, as numbers, strings, null and absent fields
    have. *)
Lemma logsComplete_string_forms record language :
  hasStringForm (getProp (JObj record) (lit "id")) = true ->
  hasStringForm (selectedName (JObj record) language) = true ->
  logsComplete canParseUrl (JObj record) language = true.
Proof.
  intros Hid Hname. unfold logsComplete. rewrite Hid, Hname, orb_true_r. reflexivity.
Qed.

(** C2, amended.  On every record for which the lines it writes to the
    console can be built (the identifier has a string form, and so has the
    name when no image is found), [formatExperienceData] returns, and the
    image URL it returns is resolved by a first-match-wins chain: the
    direct image-URL field, trimmed of leading and trailing white space,
    if the field passes [isValidImageUrl]; otherwise the card-sized
    thumbnail URL of the first attachment if it passes; otherwise the
    original URL of the first attachment if it passes; otherwise the empty
    string.  A record with a plausible direct URL resolves to it (trimmed)
    whatever its attachments hold, and where trimming changes nothing the
    chain is the one the specification words. *)
Theorem formatExperienceData_image_chain
    (record : list (JsString * JsValue)) (language : JsString) :
  logsComplete canParseUrl (JObj record) language = true ->
  exists r,
    formatExperienceData canParseUrl (JObj record) language = Ok r
    /\ fe_imageUrl r = trimmedImageUrl canParseUrl (JObj record)
    /\ (isValidImageUrl canParseUrl (directUrl (JObj record)) = true ->
        fe_imageUrl r = trimmed (directUrl (JObj record)))
    /\ (trimmed (directUrl (JObj record)) = directUrl (JObj record) ->
        fe_imageUrl r = specImageUrl canParseUrl (JObj record)).
Proof.
  intros Hl. rewrite formatExperienceData_run, Hl.
  exists (formatted canParseUrl record language).
  split; [reflexivity|]. split; [reflexivity|]. simpl fe_imageUrl. split.
  - intros Hd. unfold trimmedImageUrl. rewrite Hd. reflexivity.
  - intros Ht. unfold trimmedImageUrl, specImageUrl. rewrite Ht. reflexivity.
Qed.

(** C6.  [formatExperienceData] never returns an empty string as name or
    description.  Whenever it returns (and it returns on every record
    whose identifier and name have a string form), the name is the fixed
    placeholder when the field of the selected language is empty (absent,
    null or the empty string), and on a text field it is the placeholder
    exactly then and the field itself otherwise; the same holds of the
    description; in particular the placeholder is returned when the
    fields of both languages are empty. *)
Theorem formatExperienceData_placeholders
    (record : list (JsString * JsValue)) (language : JsString) :
  (hasStringForm (getProp (JObj record) (lit "id")) = true ->
   hasStringForm (selectedName (JObj record) language) = true ->
   exists r, formatExperienceData canParseUrl (JObj record) language = Ok r)
  /\ (forall r,
        formatExperienceData canParseUrl (JObj record) language = Ok r ->
        isEmptyString (fe_name r) = false
        /\ isEmptyString (fe_description r) = false
        /\ (isEmptyField (selectedName (JObj record) language) = true ->
            fe_name r = JStr placeholderName)
        /\ (isTextField (selectedName (JObj record) language) = true ->
            fe_name r =
            if isEmptyField (selectedName (JObj record) language)
            then JStr placeholderName else selectedName (JObj record) language)
        /\ (isEmptyField (selectedDescription (JObj record) language) = true ->
            fe_description r = JStr placeholderDescription)
        /\ (isTextField (selectedDescription (JObj record) language) = true ->
            fe_description r =
            if isEmptyField (selectedDescription (JObj record) language)
            then JStr placeholderDescription
            else selectedDescription (JObj record) language)
        /\ (isEmptyField (getProp (JObj record) (lit "Name_pt_br")) = true ->
            isEmptyField (getProp (JObj record) (lit "Name_en_us")) = true ->
            fe_name r = JStr placeholderName)
        /\ (isEmptyField (getProp (JObj record) (lit "Description_pt_br")) = true ->
            isEmptyField (getProp (JObj record) (lit "Description_en_us")) = true ->
            fe_description r = JStr placeholderDescription)).
Proof.
  rewrite formatExperienceData_run. split.
  - intros Hid Hname. unfold logsComplete. rewrite Hid, Hname, orb_true_r.
    eexists. reflexivity.
  - intros r Hr.
    destruct (logsComplete canParseUrl (JObj record) language); [|discriminate Hr].
    injection Hr as <-. cbv beta iota delta [formatted fe_name fe_description].
    split; [apply jsOr_not_empty; discriminate|].
    split; [apply jsOr_not_empty; discriminate|].
    split; [apply jsOr_empty|]. split; [apply jsOr_text|].
    split; [apply jsOr_empty|]. split; [apply jsOr_text|]. split.
    + intros Hp He. apply jsOr_empty.
      destruct (selectedName_either (JObj record) language) as [E|E];
        rewrite E; assumption.
    + intros Hp He. apply jsOr_empty.
      destruct (selectedDescription_either (JObj record) language) as [E|E];
        rewrite E; assumption.
Qed.

End Format.

(** C2, as the specification states it, fails on a direct URL with a
    leading blank: the field passes [isValidImageUrl] whenever the browser
    parses the URL without the blank, the chain of the specification
    resolves to the field (blank included), and [formatExperienceData]
    returns the URL without the blank. *)
Lemma formatExperienceData_trims_direct_url :
  directUrl (JObj record_paddedUrl) = JStr (32%N :: url_rio)
  /\ (forall canParseUrl : JsString -> bool,
        canParseUrl url_rio = true ->
        forall language : JsString,
          isValidImageUrl canParseUrl (directUrl (JObj record_paddedUrl)) = true
          /\ specImageUrl canParseUrl (JObj record_paddedUrl) = JStr (32%N :: url_rio)
          /\ exists r,
               formatExperienceData canParseUrl (JObj record_paddedUrl) language = Ok r
               /\ fe_imageUrl r = JStr url_rio).
Proof.
  split; [reflexivity|]. intros canParseUrl Hparse language.
  assert (Hv : isValidImageUrl canParseUrl (directUrl (JObj record_paddedUrl)) = true).
  { change (directUrl (JObj record_paddedUrl)) with (JStr (32%N :: url_rio)).
    unfold isValidImageUrl. change (trim (32%N :: url_rio)) with url_rio.
    rewrite Hparse. reflexivity. }
  split; [exact Hv|]. split.
  - unfold specImageUrl. rewrite Hv. reflexivity.
  - rewrite formatExperienceData_run.
    assert (Hi : trimmedImageUrl canParseUrl (JObj record_paddedUrl) = JStr url_rio).
    { unfold trimmedImageUrl. rewrite Hv. reflexivity. }
    assert (Hl : logsComplete canParseUrl (JObj record_paddedUrl) language = true).
    { unfold logsComplete. rewrite Hi. reflexivity. }
    rewrite Hl. eexists. split; [reflexivity|]. exact Hi.
Qed.

(** The chain of C2 on a record with a direct URL and an attachment, for a
    browser that parses the URLs starting with https. *)
Lemma formatExperienceData_image_chain_witness :
  exists r,
    formatExperienceData (isPrefixOf (lit "https://")) (JObj record_rio) (lit "pt-br")
    = Ok r
    /\ fe_imageUrl r = trimmedImageUrl (isPrefixOf (lit "https://")) (JObj record_rio)
    /\ (isValidImageUrl (isPrefixOf (lit "https://")) (directUrl (JObj record_rio)) = true ->
        fe_imageUrl r = trimmed (directUrl (JObj record_rio)))
    /\ (trimmed (directUrl (JObj record_rio)) = directUrl (JObj record_rio) ->
        fe_imageUrl r = specImageUrl (isPrefixOf (lit "https://")) (JObj record_rio)).
Proof.
  apply (formatExperienceData_image_chain (isPrefixOf (lit "https://")) record_rio
           (lit "pt-br")).
  reflexivity.
Defined.

(* ================================================================== *)
(** * Submitting a contact (api.js) *)
(* ================================================================== *)

Section Submit.

Lemma cupomProvided_after_trim c :
  cupomProvided c = match couponAfterTrim c with Some _ => true | None => false end.
Proof.
  destruct c as [s|]; [|reflexivity]. unfold cupomProvided, couponAfterTrim.
  destruct (trim s) as [|x t] eqn:Et.
  - apply andb_false_r.
  - destruct s as [|y s]; [discriminate Et|]. reflexivity.
Qed.

Lemma contactBody_shape d :
  contactBody d =
  [ (key_Name, JStr (trim (name d)));
    (key_Whatsapp, JStr (trim (whatsapp d)));
    (key_Experiencias, JArr [JNum (experienceId d)]) ]
  ++ match couponAfterTrim (cupom d) with
     | Some c => [(key_Parceiro_id, JStr c)]
     | None => []
     end.
Proof.
  unfold contactBody. cbv zeta. rewrite cupomProvided_after_trim.
  destruct (cupom d) as [s|]; simpl couponAfterTrim; [|symmetry; apply app_nil_r].
  destruct (trim s); [symmetry; apply app_nil_r | reflexivity].
Qed.

(** C8.  The request body of [submitContact] holds the trimmed name, the
    trimmed phone and the experience identifier as a one-element list, in
    that order, followed by the trimmed coupon under Parceiro_id when the
    coupon is not empty after trimming and by nothing otherwise; so the
    body has a Parceiro_id exactly when the coupon is given and not empty
    after trimming, and that body is what the request carries. *)
Theorem submitContact_body (d : ContactData) :
  contactBody d =
    [ (key_Name, JStr (trim (name d)));
      (key_Whatsapp, JStr (trim (whatsapp d)));
      (key_Experiencias, JArr [JNum (experienceId d)]) ]
    ++ match couponAfterTrim (cupom d) with
       | Some c => [(key_Parceiro_id, JStr c)]
       | None => []
       end
  /\ lookup key_Name (contactBody d) = JStr (trim (name d))
  /\ lookup key_Whatsapp (contactBody d) = JStr (trim (whatsapp d))
  /\ lookup key_Experiencias (contactBody d) = JArr [JNum (experienceId d)]
  /\ (hasKey key_Parceiro_id (contactBody d) = true <->
        exists s, cupom d = Some s /\ trim s <> [])
  /\ (forall s, cupom d = Some s -> trim s <> [] ->
        lookup key_Parceiro_id (contactBody d) = JStr (trim s))
  /\ (forall post, submitContact post d =
        match submitContactTry (post (contactBody d)) with
        | Ok responseData => Ok responseData
        | Throw error => Throw (submitContactCatch error)
        end).
Proof.
  pose proof (contactBody_shape d) as Hb.
  split; [exact Hb|].
  split; [rewrite Hb; reflexivity|]. split; [rewrite Hb; reflexivity|].
  split; [rewrite Hb; reflexivity|].
  split; [|split; [|reflexivity]]; rewrite Hb; clear Hb.
  - destruct (cupom d) as [s|]; simpl couponAfterTrim.
    + destruct (trim s) as [|x t] eqn:Et.
      * split; [discriminate|]. intros (s' & Hs & Hne). injection Hs as <-. congruence.
      * split; [|reflexivity]. intros _. exists s. split; [reflexivity|congruence].
    + split; [discriminate|]. intros (s' & Hs & _). discriminate Hs.
  - intros s Hs Hne. rewrite Hs. simpl couponAfterTrim.
    destruct (trim s) as [|x t]; [contradiction|reflexivity].
Qed.

(** Where the classification of [submitContact] is the one intended. *)
Lemma submitContact_three_messages post d e :
  submitContact post d = Throw e ->
  e = newError msg_serverError \/ e = newError msg_connectionError
  \/ e = newError msg_sendError.
Proof.
  unfold submitContact. destruct (submitContactTry (post (contactBody d))) as [v|err];
    [discriminate|].
  intros H. injection H as <-. unfold submitContactCatch.
  destruct (includes (errMessage err) (lit "HTTP error")); [auto|].
  destruct (str_eqb (errName err) (lit "TypeError") && includes (errMessage err) (lit "fetch"));
    auto.
Qed.

Lemma includes_prefix p s : includes (p ++ s) p = true.
Proof.
  assert (H : isPrefixOf p (p ++ s) = true).
  { induction p as [|x p IH]; simpl; [reflexivity|]. rewrite N.eqb_refl. exact IH. }
  destruct (p ++ s); simpl; simpl in H; rewrite H; reflexivity.
Qed.

Lemma submitContact_json_error_response post d status v :
  post (contactBody d) = FetchResponse status (JsonParsed v) ->
  responseOk status = false ->
  submitContact post d = Throw (newError msg_serverError).
Proof.
  intros Hp Hok. unfold submitContact, submitContactTry. rewrite Hp, Hok. simpl negb.
  cbv iota. unfold submitContactCatch, httpError, newError.
  cbv beta iota delta [errMessage errName].
  change (lit "HTTP error! status: " ++ showN status)
    with (lit "HTTP error" ++ (lit "! status: " ++ showN status)).
  rewrite (includes_prefix (lit "HTTP error") (lit "! status: " ++ showN status)).
  reflexivity.
Qed.

Lemma submitContact_network_failure post d e :
  post (contactBody d) = FetchRejected e ->
  includes (errMessage e) (lit "HTTP error") = false ->
  str_eqb (errName e) (lit "TypeError") = true ->
  includes (errMessage e) (lit "fetch") = true ->
  submitContact post d = Throw (newError msg_connectionError).
Proof.
  intros Hp Hh Hn Hf. unfold submitContact, submitContactTry. rewrite Hp.
  unfold submitContactCatch. rewrite Hh, Hn, Hf. reflexivity.
Qed.

(** C9 fails where the claim is right.  A response with status 502 whose
    body is not JSON (a gateway's HTML page) is a non-2xx response, yet
    [submitContact] answers with the generic fallback message and not with
    the server-error message: the body is parsed before the status is
    looked at, and the parse error carries no "HTTP error" text. *)
Theorem submitContact_bad_gateway (d : ContactData) :
  responseOk 502 = false
  /\ submitContact (fun _ => response_badGateway) d = Throw (newError msg_sendError)
  /\ str_eqb msg_sendError msg_serverError = false.
Proof. repeat split. Qed.

End Submit.

(* ================================================================== *)
(** * Submitting the contact form (modal.js) *)
(* ================================================================== *)

Section FormSubmit.

Variable post : list (JsString * JsValue) -> FetchOutcome.
Variables (urlCupom experienceName : JsString) (experienceId : Z).

(** With a name that is not valid, the list of validation errors starts
    with an error about the name. *)
Lemma validateForm_name_first name whatsapp :
  fieldInvalid validateName name = true ->
  exists m rest,
    validateForm name whatsapp = m :: rest /\ isNameError (Some m) = true.
Proof.
  unfold fieldInvalid, validateForm. cbv zeta.
  destruct name as [s|].
  - destruct (negb (truthy (JStr s))) eqn:Hb.
    + intros _. phone_cases whatsapp; eexists; eexists; split; reflexivity.
    + simpl orb. intros Hv. rewrite Hv.
      phone_cases whatsapp; eexists; eexists; split; reflexivity.
  - intros _. phone_cases whatsapp; eexists; eexists; split; reflexivity.
Qed.

(** With a valid name and a phone that is not valid, the only validation
    error is about the phone. *)
Lemma validateForm_phone_only name whatsapp :
  fieldInvalid validateName name = false ->
  fieldInvalid validateBrazilianPhone whatsapp = true ->
  exists m, validateForm name whatsapp = [m] /\ isPhoneError (Some m) = true.
Proof.
  unfold fieldInvalid, validateForm. cbv zeta.
  destruct name as [s|]; [|discriminate].
  intros Hn. apply orb_false_iff in Hn as [Hb Hv]. rewrite Hb, Hv.
  destruct whatsapp as [p|].
  - destruct (negb (truthy (JStr p))) eqn:Hpb.
    + intros _. eexists. split; reflexivity.
    + simpl orb. intros Hpv. rewrite Hpv. eexists. split; reflexivity.
  - intros _. eexists. split; reflexivity.
Qed.

Lemma validateForm_phone_invalid name whatsapp :
  fieldInvalid validateBrazilianPhone whatsapp = true ->
  exists m rest, validateForm name whatsapp = m :: rest.
Proof.
  intros Hp. destruct (fieldInvalid validateName name) eqn:Hn.
  - destruct (validateForm_name_first name whatsapp Hn) as (m & rest & H & _). eauto.
  - destruct (validateForm_phone_only name whatsapp Hn Hp) as (m & H & _). eauto.
Qed.

Lemma highlightInvalidFields_no_submit name whatsapp :
  submitCalled (highlightInvalidFields name whatsapp) = false.
Proof.
  unfold highlightInvalidFields.
  destruct (fieldInvalid validateName name);
    destruct (fieldInvalid validateBrazilianPhone whatsapp); reflexivity.
Qed.

(** A submission with validation errors shows the first of them and never
    reaches the remote call. *)
Lemma handleFormSubmit_rejected formName formWhatsapp m rest :
  validateForm (option_map trim formName) (option_map trim formWhatsapp) = m :: rest ->
  submitCalled
    (handleFormSubmit post formName formWhatsapp urlCupom experienceName experienceId)
  = false
  /\ firstErrorSurfaced
       (handleFormSubmit post formName formWhatsapp urlCupom experienceName experienceId)
     = Some m.
Proof.
  intros H. unfold handleFormSubmit. cbv zeta. rewrite H. split; [|reflexivity].
  unfold submitCalled. simpl. apply highlightInvalidFields_no_submit.
Qed.

(** C1, amended.  A submission with an invalid phone never invokes
    [submitContact]; when the name and the phone are both invalid the
    first error surfaced is the error about the name, and the error about
    the phone is surfaced first when the name is valid. *)
Theorem handleFormSubmit_invalid_phone (formName formWhatsapp : FormValue) :
  let name := option_map trim formName in
  let whatsapp := option_map trim formWhatsapp in
  let trace :=
    handleFormSubmit post formName formWhatsapp urlCupom experienceName experienceId in
  (fieldInvalid validateBrazilianPhone whatsapp = true -> submitCalled trace = false)
  /\ (fieldInvalid validateName name = true ->
      fieldInvalid validateBrazilianPhone whatsapp = true ->
      isNameError (firstErrorSurfaced trace) = true)
  /\ (fieldInvalid validateName name = false ->
      fieldInvalid validateBrazilianPhone whatsapp = true ->
      isPhoneError (firstErrorSurfaced trace) = true).
Proof.
  cbv zeta. split; [|split].
  - intros Hp.
    destruct (validateForm_phone_invalid (option_map trim formName) _ Hp) as (m & rest & H).
    apply (handleFormSubmit_rejected _ _ _ _ H).
  - intros Hn _.
    destruct (validateForm_name_first _ (option_map trim formWhatsapp) Hn)
      as (m & rest & H & Hm).
    destruct (handleFormSubmit_rejected _ _ _ _ H) as [_ Hf]. rewrite Hf. exact Hm.
  - intros Hn Hp.
    destruct (validateForm_phone_only _ _ Hn Hp) as (m & H & Hm).
    destruct (handleFormSubmit_rejected _ _ _ _ H) as [_ Hf]. rewrite Hf. exact Hm.
Qed.

End FormSubmit.

(** C1, as the specification states it, fails: with the name "A1" and the
    phone "123", both invalid, the first error surfaced is the error about
    the name and not one about the phone (and the remote call is not
    made). *)
Lemma handleFormSubmit_name_error_first :
  fieldInvalid validateName (Some (trim (lit "A1"))) = true
  /\ fieldInvalid validateBrazilianPhone (Some (trim (lit "123"))) = true
  /\ firstErrorSurfaced
       (handleFormSubmit (fun _ => response_badGateway)
          (Some (lit "A1")) (Some (lit "123")) [] (lit "Rio") 7)
     = Some msg_nameInvalid
  /\ isPhoneError
       (firstErrorSurfaced
          (handleFormSubmit (fun _ => response_badGateway)
             (Some (lit "A1")) (Some (lit "123")) [] (lit "Rio") 7))
     = false
  /\ submitCalled
       (handleFormSubmit (fun _ => response_badGateway)
          (Some (lit "A1")) (Some (lit "123")) [] (lit "Rio") 7)
     = false.
Proof. repeat split. Qed.

(* ================================================================== *)
(** * Changing the language (main.js) *)
(* ================================================================== *)

Section LanguageChange.

Variable w : World.

Lemma Frame_refl st : Frame st st.
Proof.
  split; [reflexivity|]. split; [reflexivity|].
  exists []. split; [symmetry; apply app_nil_r | reflexivity].
Qed.

Lemma Frame_trans st1 st2 st3 : Frame st1 st2 -> Frame st2 st3 -> Frame st1 st3.
Proof.
  intros (Hc1 & Hl1 & n1 & Ht1 & Hf1) (Hc2 & Hl2 & n2 & Ht2 & Hf2).
  split; [congruence|]. split; [congruence|].
  exists (n1 ++ n2). split.
  - rewrite Ht2, Ht1. symmetry. apply app_assoc.
  - rewrite existsb_app, Hf1, Hf2. reflexivity.
Qed.

Lemma framed_ret {A} (a : A) : framed (ret a).
Proof. intros st. apply Frame_refl. Qed.

Lemma framed_throw {A} e : framed (@throw A e).
Proof. intros st. apply Frame_refl. Qed.

Lemma framed_getState : framed getState.
Proof. intros st. apply Frame_refl. Qed.

Lemma framed_bind {A B} (m : M A) (k : A -> M B) :
  framed m -> (forall a, framed (k a)) -> framed (bind m k).
Proof.
  intros Hm Hk st. unfold bind. specialize (Hm st).
  destruct (m st) as [[a|e] st']; simpl in Hm; [|exact Hm].
  apply (Frame_trans _ _ _ Hm). apply Hk.
Qed.

Lemma framed_tryCatch {A} (m : M A) (handler : JsError -> M A) :
  framed m -> (forall e, framed (handler e)) -> framed (tryCatch m handler).
Proof.
  intros Hm Hh st. unfold tryCatch. specialize (Hm st).
  destruct (m st) as [[a|e] st']; simpl in Hm; [exact Hm|].
  apply (Frame_trans _ _ _ Hm). apply Hh.
Qed.

Lemma framed_emit e : isFetch e = false -> framed (emit e).
Proof.
  intros He st. split; [reflexivity|]. split; [reflexivity|].
  exists [e]. split; [reflexivity|]. simpl. rewrite He. reflexivity.
Qed.

Lemma framed_when b (m : M unit) : framed m -> framed (when b m).
Proof. intros Hm. destruct b; [exact Hm | apply framed_ret]. Qed.

Lemma framed_setCurrentLang l : framed (setCurrentLang l).
Proof.
  intros st. split; [reflexivity|]. split; [reflexivity|].
  exists []. split; [symmetry; apply app_nil_r | reflexivity].
Qed.

Lemma framed_setTranslations tr : framed (setTranslations tr).
Proof.
  intros st. split; [reflexivity|]. split; [reflexivity|].
  exists []. split; [symmetry; apply app_nil_r | reflexivity].
Qed.

Lemma framed_callLoadTranslations language : framed (callLoadTranslations w language).
Proof.
  intros st. split; [reflexivity|]. split; [reflexivity|].
  exists [CallLoadTranslations language]. split; reflexivity.
Qed.

Create HintDb frame.
#[local] Hint Resolve framed_ret framed_throw framed_getState framed_bind
  framed_tryCatch framed_when framed_setCurrentLang framed_setTranslations
  framed_callLoadTranslations : frame.
#[local] Hint Extern 1 (framed (emit _)) => apply framed_emit; reflexivity : frame.

Lemma framed_loadTranslationsForLanguage language :
  framed (loadTranslationsForLanguage w language).
Proof.
  unfold loadTranslationsForLanguage.
  apply framed_tryCatch; [auto 10 with frame|].
  intros e. destruct (negb (str_eqb language (lit "pt-br"))); auto 10 with frame.
Qed.

Lemma framed_lift {A} (r : Result A) : framed (lift r).
Proof. intros st. apply Frame_refl. Qed.

Lemma framed_callGetTranslation key : framed (callGetTranslation w key).
Proof.
  intros st. split; [reflexivity|]. split; [reflexivity|].
  exists [CallGetTranslation key]. split; reflexivity.
Qed.

Lemma framed_forEach {A} (f : A -> M unit) xs :
  (forall x, framed (f x)) -> framed (forEach f xs).
Proof.
  intros Hf. induction xs as [|x xs IH]; simpl; [apply framed_ret|].
  apply framed_bind; [apply Hf | intros _; exact IH].
Qed.

#[local] Hint Resolve framed_lift framed_callGetTranslation framed_forEach : frame.

Lemma framed_createExperienceCard experience :
  framed (createExperienceCard w experience).
Proof. unfold createExperienceCard. auto 12 with frame. Qed.

Lemma framed_appendCard experience : framed (appendCard w experience).
Proof.
  unfold appendCard. pose proof framed_createExperienceCard. auto with frame.
Qed.

Lemma framed_renderExperiences experiences : framed (renderExperiences w experiences).
Proof.
  unfold renderExperiences. pose proof framed_appendCard.
  apply framed_bind; [auto with frame|]. intros _.
  destruct (negb (dataContainerPresent w)); auto 12 with frame.
Qed.

Lemma framed_renderData : framed (renderData w).
Proof.
  unfold renderData. apply framed_bind; [apply framed_getState|]. intros s.
  destruct (negb (truthy (cachedData s))
            || negb (truthy (getProp (cachedData s) (lit "results"))));
    [auto with frame|].
  apply framed_tryCatch; [|auto with frame].
  apply framed_bind; [apply framed_lift|]. intros formatted.
  destruct (length formatted =? 0)%nat;
    [auto with frame | apply framed_renderExperiences].
Qed.

Lemma appendedCards_app a b : appendedCards (a ++ b) = appendedCards a ++ appendedCards b.
Proof.
  induction a as [|e a IH]; simpl; [reflexivity|].
  destruct e; simpl; rewrite IH; reflexivity.
Qed.

(** Every way the building of a card can go: it leaves the state as it
    is, asks at most for the label of the button, and the card it returns
    is that of the record. *)
Lemma createExperienceCard_run experience s t :
  exists r calls,
    createExperienceCard w experience (s, t) = (r, (s, t ++ calls))
    /\ forallb isCardCall calls = true
    /\ appendedCards calls = []
    /\ (forall card, r = Ok card -> cardExperience card = experience).
Proof.
  unfold createExperienceCard. monad_step.
  destruct (template [fe_id experience]) as [[]|e1].
  2:{ exists (Throw e1), []. rewrite app_nil_r. repeat split. discriminate. }
  monad_step. destruct (imageHtml experience) as [image|e2].
  2:{ exists (Throw e2), []. rewrite app_nil_r. repeat split. discriminate. }
  monad_step.
  destruct (template [fe_id experience; fe_name experience; fe_description experience;
                      fe_id experience; fe_name experience; fe_name experience])
    as [[]|e3].
  2:{ exists (Throw e3), []. rewrite app_nil_r. repeat split. discriminate. }
  monad_step.
  eexists. exists [CallGetTranslation (lit "whatsapp")]. repeat split.
  intros card H. injection H as <-. reflexivity.
Qed.

(** The loop of [renderExperiences]: the cards appended are, in order,
    those of the records; all of them when the loop runs to its end. *)
Lemma forEach_cards_run experiences s t :
  exists r calls,
    forEach (appendCard w) experiences (s, t) = (r, (s, t ++ calls))
    /\ forallb isCardCall calls = true
    /\ (r = Ok tt -> map cardExperience (appendedCards calls) = experiences).
Proof.
  revert t. induction experiences as [|x xs IH]; intros t.
  - exists (Ok tt), []. simpl. unfold ret. rewrite app_nil_r. repeat split.
  - simpl forEach. unfold appendCard at 1. unfold bind at 1 2.
    destruct (createExperienceCard_run x s t) as (r1 & c1 & H1 & Hq1 & Ha1 & Hc1).
    rewrite H1. destruct r1 as [card|e].
    + unfold emit at 1. simpl fst. simpl snd.
      destruct (IH ((t ++ c1) ++ [AppendCard card])) as (r2 & c2 & H2 & Hq2 & Ha2).
      exists r2, (c1 ++ [AppendCard card] ++ c2).
      split; [etransitivity; [exact H2|]; rewrite <- !app_assoc; reflexivity|]. split.
      * rewrite !forallb_app, Hq1, Hq2. reflexivity.
      * intros Hr. rewrite !appendedCards_app, Ha1. simpl.
        rewrite (Hc1 card eq_refl), (Ha2 Hr). reflexivity.
    + exists (Throw e), c1. split; [reflexivity|]. split; [exact Hq1|discriminate].
Qed.

(** Every way [renderExperiences] can go. *)
Lemma renderExperiences_run experiences s t :
  (dataContainerPresent w = false
   /\ renderExperiences w experiences (s, t)
      = (Ok tt, (s, t ++ [RenderExperiences experiences])))
  \/ (dataContainerPresent w = true
      /\ exists calls,
           forallb isCardCall calls = true
           /\ ((renderExperiences w experiences (s, t)
                = (Ok tt, (s, t ++ RenderExperiences experiences :: calls ++ [ShowData]))
                /\ map cardExperience (appendedCards calls) = experiences)
               \/ exists e,
                    renderExperiences w experiences (s, t)
                    = (Throw e, (s, t ++ RenderExperiences experiences :: calls)))).
Proof.
  destruct (forEach_cards_run experiences s
              ((t ++ [RenderExperiences experiences]) ++ [ClearContainer]))
    as (r & calls & Hrun & Hq & Ha).
  unfold renderExperiences. monad_step.
  destruct (dataContainerPresent w); [right|left; split; reflexivity].
  split; [reflexivity|]. exists (ClearContainer :: calls). split; [exact Hq|].
  change (negb true) with false. cbv beta iota. monad_step. unfold Trace in Hrun.
  destruct r as [[]|e].
  - left. split; [|exact (Ha eq_refl)].
    rewrite Hrun. rewrite <- !app_assoc. reflexivity.
  - right. exists e. rewrite Hrun. rewrite <- !app_assoc. reflexivity.
Qed.

Lemma isCardCall_render calls :
  forallb isCardCall calls = true -> forallb isRenderCall calls = true.
Proof.
  intros H. rewrite forallb_forall in *. intros e He. specialize (H e He).
  destruct e; try discriminate H; reflexivity.
Qed.

(** Every way [renderData] can go: it returns, leaves the state as it is,
    and appends to the trace one of six sequences of calls. *)
Lemma renderData_cases s t :
  exists new,
    renderData w (s, t) = (Ok tt, (s, t ++ new))
    /\ ((new = [ShowError msg_noExperience]
         /\ (truthy (cachedData s) = false
             \/ truthy (getProp (cachedData s) (lit "results")) = false))
        \/ (truthy (cachedData s) = true
            /\ ((new = [ShowError msg_renderError]
                 /\ exists e, formattedExperiences w (currentLang s) (cachedData s)
                              = Throw e)
                \/ (new = [ShowError msg_noValidExperience]
                    /\ formattedExperiences w (currentLang s) (cachedData s) = Ok [])
                \/ exists cards,
                     formattedExperiences w (currentLang s) (cachedData s) = Ok cards
                     /\ cards <> []
                     /\ ((new = [RenderExperiences cards]
                          /\ dataContainerPresent w = false)
                         \/ (dataContainerPresent w = true
                             /\ exists calls,
                                  forallb isCardCall calls = true
                                  /\ ((new = RenderExperiences cards :: calls ++ [ShowData]
                                       /\ map cardExperience (appendedCards calls) = cards)
                                      \/ new = RenderExperiences cards :: calls
                                                 ++ [ShowError msg_renderError])))))).
Proof.
  unfold renderData. cbv beta iota delta [bind getState fst].
  destruct (truthy (cachedData s)) eqn:Hc.
  2:{ exists [ShowError msg_noExperience]. split; [reflexivity|]. left. auto. }
  change (negb true) with false. rewrite orb_false_l.
  match goal with
  | |- context [truthy (getProp ?v ?k)] => destruct (truthy (getProp v k)) eqn:Hr
  end.
  2:{ exists [ShowError msg_noExperience]. split; [reflexivity|]. left. auto. }
  change (negb true) with false. cbv iota. unfold tryCatch, bind, lift.
  destruct (formattedExperiences w (currentLang s) (cachedData s)) as [cards|e] eqn:Hf.
  2:{ exists [ShowError msg_renderError]. split; [reflexivity|]. right.
      split; [reflexivity|]. left. split; [reflexivity|]. exists e. reflexivity. }
  destruct cards as [|c cards].
  { exists [ShowError msg_noValidExperience]. split; [reflexivity|]. right.
    split; [reflexivity|]. right. left. split; reflexivity. }
  change (length (c :: cards) =? 0)%nat with false. cbv iota.
  destruct (renderExperiences_run (c :: cards) s t)
    as [[Hp Hrun]|[Hp (calls & Hq & [[Hrun Ha]|[e Hrun]])]]; rewrite Hrun.
  - exists [RenderExperiences (c :: cards)]. split; [reflexivity|]. right.
    split; [reflexivity|]. right. right. exists (c :: cards).
    split; [reflexivity|]. split; [discriminate|]. left. split; [reflexivity|exact Hp].
  - eexists. split; [reflexivity|]. right.
    split; [reflexivity|]. right. right. exists (c :: cards).
    split; [reflexivity|]. split; [discriminate|]. right. split; [exact Hp|].
    exists calls. split; [exact Hq|]. left. split; [reflexivity|exact Ha].
  - unfold emit. simpl fst. simpl snd.
    exists (RenderExperiences (c :: cards) :: calls ++ [ShowError msg_renderError]).
    split; [rewrite <- !app_assoc; reflexivity|]. right.
    split; [reflexivity|]. right. right. exists (c :: cards).
    split; [reflexivity|]. split; [discriminate|]. right. split; [exact Hp|].
    exists calls. split; [exact Hq|]. right. reflexivity.
Qed.

(** A render in short: it returns, leaves the state as it is, and appends
    calls of a render followed by at most one call that shows a region, and
    by exactly one when the page has the data container. *)
Lemma renderData_run s t :
  exists quiet shown,
    renderData w (s, t) = (Ok tt, (s, t ++ quiet ++ shown))
    /\ renderShape w quiet shown.
Proof.
  destruct (renderData_cases s t)
    as (new & Hrun & [[-> _]|[_ [[-> _]|[[-> _]|(cards & _ & _ & H)]]]]).
  - exists [], [ShowError msg_noExperience]. split; [exact Hrun|].
    split; [reflexivity|]. right. eexists. split; reflexivity.
  - exists [], [ShowError msg_renderError]. split; [exact Hrun|].
    split; [reflexivity|]. right. eexists. split; reflexivity.
  - exists [], [ShowError msg_noValidExperience]. split; [exact Hrun|].
    split; [reflexivity|]. right. eexists. split; reflexivity.
  - destruct H as [[-> Hp]|[Hp (calls & Hq & [[-> _]| ->])]].
    + exists [RenderExperiences cards], []. split; [exact Hrun|].
      split; [reflexivity|]. left. split; [reflexivity|exact Hp].
    + exists (RenderExperiences cards :: calls), [ShowData]. split; [exact Hrun|].
      split; [simpl; apply isCardCall_render, Hq|]. right. eexists. split; reflexivity.
    + exists (RenderExperiences cards :: calls), [ShowError msg_renderError].
      split; [exact Hrun|].
      split; [simpl; apply isCardCall_render, Hq|]. right. eexists. split; reflexivity.
Qed.

Lemma renderData_at st :
  exists quiet shown,
    renderData w st = (Ok tt, (fst st, snd st ++ quiet ++ shown))
    /\ renderShape w quiet shown.
Proof. destruct st as [s t]. apply renderData_run. Qed.

Lemma isRenderCall_not_fetch quiet :
  forallb isRenderCall quiet = true -> existsb isFetch quiet = false.
Proof.
  induction quiet as [|e quiet IH]; simpl; [reflexivity|].
  intros H. apply andb_true_iff in H as [He Hq]. rewrite (IH Hq), orb_false_r.
  destruct e; try discriminate He; reflexivity.
Qed.

Lemma isRenderCall_not_select quiet :
  forallb isRenderCall quiet = true -> existsb isSetLangSelect quiet = false.
Proof.
  induction quiet as [|e quiet IH]; simpl; [reflexivity|].
  intros H. apply andb_true_iff in H as [He Hq]. rewrite (IH Hq), orb_false_r.
  destruct e; try discriminate He; reflexivity.
Qed.

Lemma isRenderCall_quiet quiet :
  forallb isRenderCall quiet = true -> forallb isQuietCall quiet = true.
Proof.
  intros H. rewrite forallb_forall in *. intros e He. specialize (H e He).
  destruct e; try discriminate H; reflexivity.
Qed.

Lemma renderShape_not_fetch quiet shown :
  renderShape w quiet shown -> existsb isFetch (quiet ++ shown) = false.
Proof.
  intros [Hq Hs]. rewrite existsb_app, (isRenderCall_not_fetch quiet Hq).
  destruct Hs as [[-> _]|(X & -> & HX)]; [reflexivity|].
  destruct X; try discriminate HX; reflexivity.
Qed.

Lemma renderShape_not_select quiet shown :
  renderShape w quiet shown -> existsb isSetLangSelect (quiet ++ shown) = false.
Proof.
  intros [Hq Hs]. rewrite existsb_app, (isRenderCall_not_select quiet Hq).
  destruct Hs as [[-> _]|(X & -> & HX)]; [reflexivity|].
  destruct X; try discriminate HX; reflexivity.
Qed.

Lemma framed_handleLanguageChange newLang : framed (handleLanguageChange w newLang).
Proof.
  unfold handleLanguageChange.
  apply framed_bind; [apply framed_getState|]. intros s.
  destruct (str_eqb newLang (currentLang s)); [apply framed_ret|].
  pose proof framed_renderData. pose proof framed_loadTranslationsForLanguage.
  auto 12 with frame.
Qed.

Lemma filter_isFetch_nil new : existsb isFetch new = false -> filter isFetch new = [].
Proof.
  induction new as [|e new IH]; [reflexivity|]. simpl. intros H.
  apply orb_false_iff in H as [He Hn]. rewrite He. apply IH, Hn.
Qed.

Lemma fetchCount_app t new : existsb isFetch new = false -> fetchCount (t ++ new) = fetchCount t.
Proof.
  intros H. unfold fetchCount. rewrite filter_app, length_app.
  rewrite (filter_isFetch_nil new H). simpl. lia.
Qed.

(** [loadAppData] with a populated cache: the list is not fetched again
    and the cache stays as it is. *)
Lemma loadAppData_cached s t :
  truthy (cachedData s) = true ->
  cachedData (fst (snd (loadAppData w (s, t)))) = cachedData s
  /\ fetchCount (snd (snd (loadAppData w (s, t)))) = fetchCount t.
Proof.
  intros Hc. unfold loadAppData. monad_step.
  destruct (isLoading s); [split; reflexivity|].
  match goal with
  | |- context [loadTranslationsForLanguage w ?l ?st] =>
      pose proof (framed_loadTranslationsForLanguage l st) as HF;
      destruct (loadTranslationsForLanguage w l st) as [[[]|e] [s1 t1]]
  end; destruct HF as (Hc1 & _ & new & Ht1 & Hnew); simpl in Hc1, Ht1.
  - rewrite Hc1, Hc. change (negb true) with false. monad_step.
    render_step renderData_at. monad_step.
    split; [exact Hc1|]. rewrite Ht1, <- !app_assoc.
    rewrite fetchCount_app; [reflexivity|].
    rewrite !existsb_app, Hnew, (isRenderCall_not_fetch quiet (proj1 Hshape)).
    destruct Hshape as [_ [[-> _]|(X & -> & HX)]]; [reflexivity|].
    destruct X; try discriminate HX; reflexivity.
  - destruct (length (translations s1) =? 0)%nat; monad_step;
      (split; [exact Hc1|]); rewrite Ht1, <- !app_assoc;
      (rewrite fetchCount_app; [reflexivity|]);
      rewrite !existsb_app, Hnew; reflexivity.
Qed.

(** [loadAppData] with an empty cache, when the translations load and the
    list fetch succeeds: the list is fetched once and cached. *)
Lemma loadAppData_populates s t tr data :
  isLoading s = false ->
  truthy (cachedData s) = false ->
  loadTranslations w (t ++ [ShowLoading]) (currentLang s) = Ok tr ->
  fetchExperiences
    (getExperiences w (t ++ [ShowLoading; CallLoadTranslations (currentLang s);
                             UpdateLanguageLabels tr])) = Ok data ->
  cachedData (fst (snd (loadAppData w (s, t)))) = data
  /\ isLoading (fst (snd (loadAppData w (s, t)))) = false
  /\ fetchCount (snd (snd (loadAppData w (s, t)))) = S (fetchCount t).
Proof.
  intros Hl Hc Hload Hfetch. unfold loadAppData. monad_step. rewrite Hl.
  unfold loadTranslationsForLanguage. monad_step. rewrite Hload. monad_step.
  rewrite Hc. change (negb false) with true. monad_step.
  rewrite <- !app_assoc. simpl app. rewrite Hfetch. monad_step.
  render_step renderData_at. monad_step.
  split; [reflexivity|]. split; [reflexivity|].
  pose proof (renderShape_not_fetch quiet shown Hshape) as Hnf.
  rewrite <- !app_assoc. simpl app. rewrite (app_assoc quiet shown).
  change (ShowLoading :: CallLoadTranslations (currentLang s) :: UpdateLanguageLabels tr
            :: CallFetchExperiences :: (quiet ++ shown) ++ [HideLoading])
    with ([ShowLoading; CallLoadTranslations (currentLang s); UpdateLanguageLabels tr;
           CallFetchExperiences] ++ (quiet ++ shown) ++ [HideLoading]).
  unfold fetchCount. rewrite (filter_app _ t), !length_app, (filter_app _ [_; _; _; _]),
    (filter_app _ (quiet ++ shown)), (filter_isFetch_nil _ Hnf), !length_app.
  simpl. lia.
Qed.

(** A language change whose translations load: the state takes the new
    language and its translations, and the trace grows by the load, the
    relabelling and one render of the cached response. *)
Lemma handleLanguageChange_success newLang s t tr :
  truthy (cachedData s) = true ->
  str_eqb newLang (currentLang s) = false ->
  loadTranslations w t newLang = Ok tr ->
  handleLanguageChange w newLang (s, t) =
  renderData w
    ({| currentLang := newLang; cachedData := cachedData s;
        translations := tr; isLoading := isLoading s |},
     t ++ [CallLoadTranslations newLang; UpdateLanguageLabels tr]).
Proof.
  intros Hc Hneq Hload.
  unfold handleLanguageChange. monad_step. rewrite Hneq.
  unfold loadTranslationsForLanguage. monad_step. rewrite Hload.
  monad_step. rewrite Hc. unfold when. rewrite <- !app_assoc. simpl app.
  match goal with
  | |- context [renderData w ?st] =>
      destruct (renderData_at st) as (quiet & shown & Hrun & _); rewrite Hrun
  end.
  reflexivity.
Qed.

(** C7.  Once the cached experience list is populated, a language change
    leaves it (and the loading flag) as it was and calls no list fetch:
    the trace only grows, by calls none of which is [fetchExperiences].
    When the new translations load, what changes is the current language,
    the translations, and the page, which is rendered again from the
    cached list in the new language: after the load of the translations
    and the relabelling, the trace grows by what one run of [renderData]
    in the new state appends, and by nothing else. *)
Theorem handleLanguageChange_reuses_cache
    (newLang : JsString) (s : AppState) (t : Trace) :
  truthy (cachedData s) = true ->
  let out := handleLanguageChange w newLang (s, t) in
  let s' := fst (snd out) in
  let t' := snd (snd out) in
  cachedData s' = cachedData s
  /\ isLoading s' = isLoading s
  /\ fetchCount t' = fetchCount t
  /\ (exists new, t' = t ++ new /\ existsb isFetch new = false)
  /\ (forall tr,
        str_eqb newLang (currentLang s) = false ->
        loadTranslations w t newLang = Ok tr ->
        fst out = Ok tt
        /\ currentLang s' = newLang
        /\ translations s' = tr
        /\ exists render,
             t' = t ++ [CallLoadTranslations newLang; UpdateLanguageLabels tr] ++ render
             /\ renderData w (s', t ++ [CallLoadTranslations newLang;
                                         UpdateLanguageLabels tr])
                = (Ok tt, (s', t'))).
Proof.
  intros Hc. cbv zeta.
  destruct (framed_handleLanguageChange newLang (s, t)) as (H1 & H2 & new & H3 & H4).
  simpl fst in H1, H2. simpl snd in H3.
  split; [exact H1|]. split; [exact H2|].
  split; [rewrite H3; apply fetchCount_app, H4|].
  split; [exists new; split; assumption|].
  intros tr Hneq Hload.
  rewrite (handleLanguageChange_success newLang s t tr Hc Hneq Hload).
  match goal with
  | |- context [renderData w ?st] =>
      destruct (renderData_at st) as (quiet & shown & Hrun & _); rewrite Hrun
  end.
  cbn [fst snd currentLang translations].
  split; [reflexivity|]. split; [reflexivity|]. split; [reflexivity|].
  exists (quiet ++ shown). split; [rewrite <- !app_assoc; reflexivity|].
  rewrite Hrun. cbn [fst snd]. reflexivity.
Qed.

End LanguageChange.

(** The frame of C7 at the end-to-end example of the specification: a
    cached list of two experiences and a switch from pt-br to en-us. *)
Lemma handleLanguageChange_reuses_cache_witness :
  let out := handleLanguageChange world_offline (lit "en-us") (state_cached, []) in
  let s' := fst (snd out) in
  let t' := snd (snd out) in
  cachedData s' = cachedData state_cached
  /\ isLoading s' = isLoading state_cached
  /\ fetchCount t' = fetchCount []
  /\ (exists new, t' = [] ++ new /\ existsb isFetch new = false)
  /\ (forall tr,
        str_eqb (lit "en-us") (currentLang state_cached) = false ->
        loadTranslations world_offline [] (lit "en-us") = Ok tr ->
        fst out = Ok tt
        /\ currentLang s' = lit "en-us"
        /\ translations s' = tr
        /\ exists render,
             t' = [] ++ [CallLoadTranslations (lit "en-us"); UpdateLanguageLabels tr]
                     ++ render
             /\ renderData world_offline
                  (s', [] ++ [CallLoadTranslations (lit "en-us");
                              UpdateLanguageLabels tr])
                = (Ok tt, (s', t'))).
Proof.
  apply (handleLanguageChange_reuses_cache world_offline (lit "en-us") state_cached []).
  reflexivity.
Defined.

(** The end-to-end example evaluated: the switch loads the English
    translations, relabels the page and renders the two cached experiences
    with their English names; the network, which is down, is not asked. *)
Example language_switch_two_items :
  exists c1 c2,
    handleLanguageChange world_offline (lit "en-us") (state_cached, []) =
    (Ok tt,
     ({| currentLang := lit "en-us"; cachedData := cache_two;
         translations := translations_en; isLoading := false |},
      [CallLoadTranslations (lit "en-us"); UpdateLanguageLabels translations_en;
       RenderExperiences [c1; c2]; ClearContainer;
       CallGetTranslation (lit "whatsapp");
       AppendCard {| cardExperience := c1; cardImage := ImageBlock url_rio;
                     cardLabel := lit "whatsapp" |};
       CallGetTranslation (lit "whatsapp");
       AppendCard {| cardExperience := c2; cardImage := NoImageBlock;
                     cardLabel := lit "whatsapp" |};
       ShowData]))
    /\ fe_name c1 = JStr (lit "Rio")
    /\ fe_name c2 = JStr (lit "Paraty")
    /\ fe_imageUrl c1 = JStr url_rio
    /\ fe_imageUrl c2 = JStr [].
Proof.
  eexists. eexists. split; [vm_compute; reflexivity|]. repeat split.
Qed.

(** From the opening of the page: the load fetches the list once and
    caches it, and the language switch that follows fetches nothing. *)
Example load_then_language_switch :
  let loaded := snd (loadAppData world_online (state_initial, [])) in
  let switched := snd (handleLanguageChange world_online (lit "en-us") loaded) in
  cachedData (fst loaded) = cache_two
  /\ fetchCount (snd loaded) = 1
  /\ cachedData (fst switched) = cache_two
  /\ currentLang (fst switched) = lit "en-us"
  /\ fetchCount (snd switched) = 1.
Proof. vm_compute. repeat split. Qed.

(* ================================================================== *)
(** * The operations on sample inputs *)
(* ================================================================== *)

Example validateBrazilianPhone_samples :
  validateBrazilianPhone phone_mobile = true
  /\ validateBrazilianPhone phone_landline = true
  /\ validateBrazilianPhone phone_masked = true
  /\ validateBrazilianPhone (lit "219876543") = false
  /\ validateBrazilianPhone (lit "219876543210") = false.
Proof. repeat split. Qed.

Example formatBrazilianPhone_samples :
  formatBrazilianPhone phone_masked = phone_masked
  /\ formatBrazilianPhone (lit "21 98765 4321") = phone_masked
  /\ formatBrazilianPhone (lit "219876") = lit "219876".
Proof. repeat split. Qed.

(** The range À-ÿ of [nameRegex] holds the multiplication sign: a name
    made of two of them is accepted. *)
Example validateName_accepts_multiplication_signs :
  validateName [0xD7%N; 0xD7%N] = true.
Proof. reflexivity. Qed.

Example isValidImageUrl_samples :
  isValidImageUrl (isPrefixOf (lit "https://")) (JStr (lit "https://example.com/a.JPG?w=1")) = true
  /\ isValidImageUrl (isPrefixOf (lit "https://")) (JStr (lit "https://example.com/a.txt")) = false
  /\ isValidImageUrl (isPrefixOf (lit "https://")) (JStr (lit "https://cdn.example.com/img/a")) = true
  /\ isValidImageUrl (isPrefixOf (lit "https://")) (JStr (lit "example.com/a.png")) = false
  /\ isValidImageUrl (isPrefixOf (lit "https://")) (JNum 5) = false.
Proof. repeat split. Qed.

Example contactBody_sample :
  contactBody contact_ana =
  [ (key_Name, JStr (lit "Ana Souza"));
    (key_Whatsapp, JStr (lit "(21) 98765-4321"));
    (key_Experiencias, JArr [JNum 7]);
    (key_Parceiro_id, JStr (lit "UP10")) ].
Proof. reflexivity. Qed.

Example formatExperienceData_sample :
  exists r,
    formatExperienceData (isPrefixOf (lit "https://")) (JObj record_rio) (lit "pt-br") = Ok r
    /\ fe_name r = JStr (lit "Rio de Janeiro")
    /\ fe_description r = JStr (lit "Passeio")
    /\ fe_imageUrl r = JStr url_rio.
Proof. eexists. repeat split. Qed.

(* ================================================================== *)
(** * More on the utilities (utils.js) *)
(* ================================================================== *)

Section UtilsMore.

Lemma dropWhile_split (p : N -> bool) s :
  exists a, s = a ++ dropWhile p s /\ forallb p a = true.
Proof.
  induction s as [|c s (a & Hs & Ha)]; simpl.
  - exists []. split; reflexivity.
  - destruct (p c) eqn:Hc.
    + exists (c :: a). simpl. rewrite Hc, Ha. split; [f_equal; exact Hs | reflexivity].
    + exists []. split; reflexivity.
Qed.

Lemma forallb_rev {A} (p : A -> bool) (l : list A) :
  forallb p (rev l) = forallb p l.
Proof.
  induction l as [|x l IH]; simpl; [reflexivity|].
  rewrite forallb_app, IH. simpl. rewrite andb_true_r. apply andb_comm.
Qed.

(** [trim] only takes white space away, at the two ends. *)
Lemma trim_split s :
  exists a b, s = a ++ trim s ++ b
              /\ forallb isWhiteSpace a = true /\ forallb isWhiteSpace b = true.
Proof.
  unfold trim, trimStart, trimEnd.
  destruct (dropWhile_split isWhiteSpace s) as (a & Hs & Ha).
  destruct (dropWhile_split isWhiteSpace (rev (dropWhile isWhiteSpace s)))
    as (b & Hr & Hb).
  exists a, (rev b). split; [|split; [exact Ha | rewrite forallb_rev; exact Hb]].
  rewrite Hs at 1. f_equal.
  rewrite <- (rev_involutive (dropWhile isWhiteSpace s)) at 1.
  rewrite Hr at 1. apply rev_app_distr.
Qed.

Lemma isWhiteSpace_not_digit c : isWhiteSpace c = true -> isDigit c = false.
Proof.
  unfold isWhiteSpace, isDigit. rewrite !orb_true_iff, !inRange_spec, !N.eqb_eq.
  intros H. apply not_true_iff_false. rewrite inRange_spec. lia.
Qed.

Lemma stripNonDigits_spaces a : forallb isWhiteSpace a = true -> stripNonDigits a = [].
Proof.
  unfold stripNonDigits. induction a as [|c a IH]; simpl; [reflexivity|].
  intros H. apply andb_true_iff in H as [Hc Ha].
  rewrite (isWhiteSpace_not_digit c Hc). apply IH, Ha.
Qed.

Lemma stripNonDigits_trim s : stripNonDigits (trim s) = stripNonDigits s.
Proof.
  destruct (trim_split s) as (a & b & Hs & Ha & Hb).
  rewrite Hs at 2. rewrite !stripNonDigits_app.
  rewrite (stripNonDigits_spaces a Ha), (stripNonDigits_spaces b Hb), app_nil_r.
  reflexivity.
Qed.

(** The mask neither adds nor drops a digit. *)
Lemma stripNonDigits_format phone :
  stripNonDigits (formatBrazilianPhone phone) = stripNonDigits phone.
Proof.
  destruct (Nat.eq_dec (length (stripNonDigits phone)) 11) as [H11|H11].
  - destruct (formatBrazilianPhone_eleven phone H11)
      as (g1 & g2 & g3 & Hd & _ & _ & _ & Hf).
    rewrite Hf, Hd. apply stripNonDigits_masked. rewrite <- Hd.
    apply stripNonDigits_digits.
  - destruct (Nat.eq_dec (length (stripNonDigits phone)) 10) as [H10|H10].
    + destruct (formatBrazilianPhone_ten phone H10)
        as (g1 & g2 & g3 & Hd & _ & _ & _ & Hf).
      rewrite Hf, Hd. apply stripNonDigits_masked. rewrite <- Hd.
      apply stripNonDigits_digits.
    + rewrite (formatBrazilianPhone_other phone H11 H10). reflexivity.
Qed.

Lemma validate_by_digits p q :
  stripNonDigits p = stripNonDigits q ->
  validateBrazilianPhone p = validateBrazilianPhone q.
Proof. unfold validateBrazilianPhone. intros H. rewrite H. reflexivity. Qed.

(** X1.  Formatting a phone keeps its digits, in order, and so keeps its
    validity: a number is valid after the mask exactly when it was valid
    before. *)
Theorem formatBrazilianPhone_keeps_digits (phone : JsString) :
  stripNonDigits (formatBrazilianPhone phone) = stripNonDigits phone
  /\ validateBrazilianPhone (formatBrazilianPhone phone) = validateBrazilianPhone phone.
Proof.
  split; [apply stripNonDigits_format|].
  apply validate_by_digits, stripNonDigits_format.
Qed.

(** X2.  The validity of a phone depends on its digits alone: trimming the
    input, stripping it to its digits, or wrapping it in text without
    digits does not change the answer of [validateBrazilianPhone]. *)
Theorem validateBrazilianPhone_digits_only (phone : JsString) :
  validateBrazilianPhone (trim phone) = validateBrazilianPhone phone
  /\ validateBrazilianPhone (stripNonDigits phone) = validateBrazilianPhone phone
  /\ (forall before after,
        existsb isDigit before = false -> existsb isDigit after = false ->
        validateBrazilianPhone (before ++ phone ++ after) = validateBrazilianPhone phone).
Proof.
  split; [apply validate_by_digits, stripNonDigits_trim|].
  split; [apply validate_by_digits, stripNonDigits_idem|].
  intros before after Hb Ha. apply validate_by_digits.
  assert (Hnone : forall l, existsb isDigit l = false -> stripNonDigits l = []).
  { unfold stripNonDigits. induction l as [|c l IH]; simpl; [reflexivity|].
    intros H. apply orb_false_iff in H as [Hc Hl]. rewrite Hc. apply IH, Hl. }
  rewrite !stripNonDigits_app, (Hnone before Hb), (Hnone after Ha), app_nil_r.
  reflexivity.
Qed.

Lemma nameChar_not_digit c : nameChar c = true -> isDigit c = false.
Proof.
  unfold nameChar. rewrite !orb_true_iff. intros H.
  destruct H as [[[[H|H]|H]|H]|H].
  - apply not_true_iff_false. unfold isDigit. rewrite inRange_spec in *. lia.
  - apply not_true_iff_false. unfold isDigit. rewrite inRange_spec in *. lia.
  - apply not_true_iff_false. unfold isDigit. rewrite inRange_spec in *. lia.
  - apply isWhiteSpace_not_digit, H.
  - apply N.eqb_eq in H. subst c. reflexivity.
Qed.

Lemma existsb_false_forallb {A} (p q : A -> bool) (l : list A) :
  (forall x, q x = true -> p x = false) -> forallb q l = true -> existsb p l = false.
Proof.
  intros Hpq. induction l as [|x l IH]; simpl; [reflexivity|].
  intros H. apply andb_true_iff in H as [Hx Hl]. rewrite (Hpq x Hx), (IH Hl). reflexivity.
Qed.

(** X3.  A name that [validateName] accepts holds no digit anywhere and
    has at least two characters. *)
Theorem validateName_no_digit (name : JsString) :
  validateName name = true ->
  existsb isDigit name = false /\ 2 <= length name.
Proof.
  unfold validateName. cbv zeta. intros H.
  apply andb_true_iff in H as [Hlen Hall]. apply Nat.leb_le in Hlen.
  destruct (trim_split name) as (a & b & Hs & Ha & Hb).
  split.
  - rewrite Hs, !existsb_app.
    rewrite (existsb_false_forallb isDigit isWhiteSpace a isWhiteSpace_not_digit Ha).
    rewrite (existsb_false_forallb isDigit nameChar (trim name) nameChar_not_digit Hall).
    rewrite (existsb_false_forallb isDigit isWhiteSpace b isWhiteSpace_not_digit Hb).
    reflexivity.
  - rewrite Hs, !length_app. lia.
Qed.

Lemma validateName_no_digit_witness :
  existsb isDigit name_Ana = false /\ 2 <= length name_Ana.
Proof. apply (validateName_no_digit name_Ana). reflexivity. Defined.

End UtilsMore.

(* ================================================================== *)
(** * Image URLs and the language of the page (utils.js) *)
(* ================================================================== *)

Section ImageUrlMore.

Variable canParseUrl : JsString -> bool.

(** X4.  [isValidImageUrl] accepts nothing but a string that is not blank,
    that the browser parses as a URL once trimmed, and that has an image
    extension or holds one of the eight host hints; and white space around
    the URL does not change its answer. *)
Theorem isValidImageUrl_accepts (url : JsValue) :
  (isValidImageUrl canParseUrl url = true ->
     exists s,
       url = JStr s /\ trim s <> [] /\ canParseUrl (trim s) = true
       /\ (imageExtensionsTest (trim s) = true
           \/ exists hint, In hint imageHostHints /\ includes (trim s) hint = true))
  /\ (forall s,
        isValidImageUrl canParseUrl (JStr (trim s)) = isValidImageUrl canParseUrl (JStr s)).
Proof.
  split; [|apply isValidImageUrl_trim].
  intros H. destruct (isValidImageUrl_string canParseUrl url H) as (s & -> & Hs).
  exists s. split; [reflexivity|].
  pose proof H as H'. rewrite <- isValidImageUrl_trim in H'.
  apply isValidImageUrl_truthy in H'.
  split; [intros E; rewrite E in H'; discriminate|].
  unfold isValidImageUrl in H. destruct s as [|c s]; [contradiction|].
  simpl truthy in H. simpl negb in H. cbv iota zeta in H.
  destruct (canParseUrl (trim (c :: s))); [|discriminate].
  split; [reflexivity|]. simpl negb in H. cbv iota in H.
  apply orb_true_iff in H as [H|H]; [left; exact H|right].
  apply existsb_exists in H. exact H.
Qed.

End ImageUrlMore.

Section ImageExtension.

Lemma stripPrefixCI_spec p s r :
  stripPrefixCI p s = Some r <-> exists e, s = e ++ r /\ map lowerAscii e = p.
Proof.
  revert s. induction p as [|x p IH]; intros s; simpl.
  - split.
    + intros H. injection H as <-. exists []. split; reflexivity.
    + intros (e & Hs & He). destruct e; [|discriminate]. subst s. reflexivity.
  - destruct s as [|y s].
    + split; [discriminate|]. intros (e & Hs & He).
      destruct e; [discriminate|discriminate].
    + destruct (x =? lowerAscii y)%N eqn:E.
      * apply N.eqb_eq in E. rewrite IH. split.
        -- intros (e & Hs & He). exists (y :: e). simpl. rewrite Hs, He, E.
           split; reflexivity.
        -- intros (e & Hs & He). destruct e as [|y' e]; [discriminate|].
           simpl in Hs, He. injection Hs as -> Hs. injection He as _ He.
           exists e. split; assumption.
      * apply N.eqb_neq in E. split; [discriminate|].
        intros (e & Hs & He). destruct e as [|y' e]; [discriminate|].
        simpl in Hs, He. injection Hs as -> Hs. injection He as Hx _.
        symmetry in Hx. contradiction.
Qed.

Lemma queryTail_spec r :
  queryTail r = true <->
  (r = [] \/ exists q, r = 63%N :: q
                       /\ forallb (fun x => negb (isLineTerminator x)) q = true).
Proof.
  destruct r as [|c q]; simpl.
  - split; [auto|reflexivity].
  - rewrite andb_true_iff, N.eqb_eq. split.
    + intros [-> Hq]. right. exists q. split; [reflexivity|exact Hq].
    + intros [H|(q' & H & Hq)]; [discriminate|]. injection H as -> ->.
      split; [reflexivity|exact Hq].
Qed.

Lemma extensionAt_spec s :
  extensionAt s = true <->
  exists ext query,
    s = 46%N :: ext ++ query
    /\ In (map lowerAscii ext) imageExtensionNames /\ queryTail query = true.
Proof.
  destruct s as [|c r].
  - split; [discriminate|]. intros (e & q & H & _). discriminate.
  - unfold extensionAt. rewrite andb_true_iff, N.eqb_eq, existsb_exists. split.
    + intros [-> (x & Hx & Hm)].
      destruct (stripPrefixCI x r) as [rest|] eqn:E; [|discriminate].
      apply stripPrefixCI_spec in E as (e & Hr & He).
      exists e, rest. rewrite Hr, He. repeat split; assumption.
    + intros (e & q & H & Hin & Hq). injection H as -> ->.
      split; [reflexivity|]. exists (map lowerAscii e). split; [exact Hin|].
      assert (E : stripPrefixCI (map lowerAscii e) (e ++ q) = Some q).
      { apply stripPrefixCI_spec. exists e. split; reflexivity. }
      rewrite E. exact Hq.
Qed.

(** X5.  The extension test of [isValidImageUrl] accepts a string exactly
    when it ends in a dot, one of jpg, jpeg, png, gif, bmp, webp and svg in
    any letter case, and at most a query that holds no line break. *)
Theorem imageExtensionsTest_iff (s : JsString) :
  imageExtensionsTest s = true <-> hasImageExtension s.
Proof.
  unfold hasImageExtension. induction s as [|c s IH].
  - split; [discriminate|].
    intros (b & e & q & H & _). destruct b; discriminate.
  - change (imageExtensionsTest (c :: s))
      with (extensionAt (c :: s) || imageExtensionsTest s).
    rewrite orb_true_iff, IH, extensionAt_spec. split.
    + intros [(e & q & H & Hin & Hq)|(b & e & q & H & Hin & Hq)].
      * exists [], e, q. split; [exact H|]. split; [exact Hin|].
        apply queryTail_spec, Hq.
      * exists (c :: b), e, q. split; [simpl; rewrite H; reflexivity|].
        split; assumption.
    + intros (b & e & q & H & Hin & Hq). destruct b as [|c' b].
      * left. exists e, q. split; [exact H|]. split; [exact Hin|].
        apply queryTail_spec, Hq.
      * right. simpl in H. injection H as -> H.
        exists b, e, q. repeat split; assumption.
Qed.

End ImageExtension.

Section UrlLang.

Variable toLowerCase : JsString -> JsString.

Lemma str_eqb_eq a b : str_eqb a b = true <-> a = b.
Proof.
  revert b. induction a as [|x a IH]; intros [|y b]; simpl;
    try (split; [discriminate|discriminate]); [split; reflexivity|].
  rewrite andb_true_iff, N.eqb_eq, IH. split.
  - intros [-> ->]. reflexivity.
  - intros H. injection H as -> ->. split; reflexivity.
Qed.

(** X6.  [getUrlLang] answers one of the two locales whatever the query
    holds: en-us exactly when the lang parameter is there, is not empty
    and reads en_us or en-us in lower case, and pt-br in every other case
    (no parameter, an empty one, an unknown language). *)
Theorem getUrlLang_two_locales (langParam : option JsString) :
  (getUrlLang toLowerCase langParam = lit "en-us"
   \/ getUrlLang toLowerCase langParam = lit "pt-br")
  /\ (getUrlLang toLowerCase langParam = lit "en-us" <->
        exists l, langParam = Some l /\ l <> []
                  /\ (toLowerCase l = lit "en_us" \/ toLowerCase l = lit "en-us"))
  /\ getUrlLang toLowerCase None = lit "pt-br"
  /\ getUrlLang toLowerCase (Some []) = lit "pt-br".
Proof.
  split; [|split; [|split; reflexivity]].
  - unfold getUrlLang. destruct langParam as [l|]; [|right; reflexivity].
    destruct (truthy (JStr l)); [|right; reflexivity]. cbv zeta.
    destruct (str_eqb (toLowerCase l) (lit "en_us")
              || str_eqb (toLowerCase l) (lit "en-us")); [left; reflexivity|].
    destruct (str_eqb (toLowerCase l) (lit "pt_br")
              || str_eqb (toLowerCase l) (lit "pt-br")); right; reflexivity.
  - unfold getUrlLang. destruct langParam as [l|].
    + destruct l as [|c l].
      * simpl. split; [discriminate|]. intros (l' & H & Hne & _).
        injection H as <-. contradiction.
      * simpl truthy. cbv iota zeta.
        destruct (str_eqb (toLowerCase (c :: l)) (lit "en_us")
                  || str_eqb (toLowerCase (c :: l)) (lit "en-us")) eqn:E.
        -- split; [|reflexivity]. intros _. exists (c :: l).
           split; [reflexivity|]. split; [discriminate|].
           apply orb_true_iff in E. rewrite !str_eqb_eq in E. exact E.
        -- split.
           ++ destruct (str_eqb (toLowerCase (c :: l)) (lit "pt_br")
                        || str_eqb (toLowerCase (c :: l)) (lit "pt-br"));
                discriminate.
           ++ intros (l' & H & _ & Hl). injection H as <-.
              rewrite <- !str_eqb_eq, <- orb_true_iff, E in Hl. discriminate.
    + split; [discriminate|]. intros (l' & H & _). discriminate.
Qed.

End UrlLang.

(* ================================================================== *)
(** * The remote data client (api.js) *)
(* ================================================================== *)

Section ApiMore.

Lemma fetchExperiences_returns status data xs :
  responseOk status = true ->
  getProp data (lit "results") = JArr xs ->
  fetchExperiences (FetchResponse status (JsonParsed data)) = Ok data.
Proof.
  intros Hok Hr. unfold fetchExperiences. rewrite Hok.
  change (negb true) with false. cbv iota.
  destruct data as [| |b|n|s|ys|props]; try discriminate Hr;
    cbv beta iota zeta; rewrite Hr; reflexivity.
Qed.

Lemma fetchExperiences_returned out data :
  fetchExperiences out = Ok data ->
  exists status xs,
    out = FetchResponse status (JsonParsed data)
    /\ responseOk status = true
    /\ getProp data (lit "results") = JArr xs.
Proof.
  destruct out as [e|status body]; [discriminate|].
  unfold fetchExperiences. destruct (responseOk status) eqn:Hok; [|discriminate].
  simpl negb. cbv iota.
  destruct body as [d|e]; [|discriminate].
  destruct d as [| |b|n|str|ys|props]; try discriminate; cbv zeta;
    match goal with
    | |- context [truthy (getProp ?v ?k)] =>
        destruct (getProp v k) as [| |b'|n'|s'|xs|ps] eqn:Hr
    end;
    try (simpl isArray; simpl negb; rewrite ?orb_true_r; discriminate).
  intros H. injection H as <-. exists status, xs. repeat split; assumption.
Qed.

Lemma fetchExperiences_thrown out e :
  fetchExperiences out = Throw e -> e = newError msg_fetchExperiences.
Proof.
  destruct out as [e0|status body]; [intros H; injection H as <-; reflexivity|].
  unfold fetchExperiences.
  destruct (negb (responseOk status)); [intros H; injection H as <-; reflexivity|].
  destruct body as [d|e0]; [|intros H; injection H as <-; reflexivity].
  destruct d as [| |b|n|str|ys|props];
    try (intros H; injection H as <-; reflexivity); cbv zeta;
    match goal with
    | |- context [if ?c then _ else _] => destruct c
    end; intros H; try discriminate H; injection H as <-; reflexivity.
Qed.

(** X7.  [fetchExperiences] returns exactly on a 2xx response whose body
    is JSON with an array under results: on such a response it returns the
    body as it is, it returns on no other, and whatever else the request
    comes to is replaced by the one fixed error message. *)
Theorem fetchExperiences_outcomes (out : FetchOutcome) :
  (forall status data xs,
      out = FetchResponse status (JsonParsed data) ->
      (200 <= status <= 299)%N ->
      getProp data (lit "results") = JArr xs ->
      fetchExperiences out = Ok data)
  /\ (forall data,
        fetchExperiences out = Ok data ->
        exists status xs,
          out = FetchResponse status (JsonParsed data)
          /\ (200 <= status <= 299)%N
          /\ getProp data (lit "results") = JArr xs)
  /\ (forall e,
        fetchExperiences out = Throw e -> e = newError msg_fetchExperiences).
Proof.
  split; [|split].
  - intros status data xs -> Hs Hr.
    apply (fetchExperiences_returns status data xs); [apply inRange_spec, Hs | exact Hr].
  - intros data H.
    destruct (fetchExperiences_returned out data H) as (status & xs & Hout & Hok & Hr).
    exists status, xs. split; [exact Hout|]. split; [apply inRange_spec, Hok | exact Hr].
  - apply fetchExperiences_thrown.
Qed.

Lemma submitContactCatch_messages error :
  exists message,
    submitContactCatch error = newError message
    /\ (message = msg_serverError \/ message = msg_connectionError
        \/ message = msg_sendError).
Proof.
  unfold submitContactCatch.
  destruct (includes (errMessage error) (lit "HTTP error")); [eauto|].
  destruct (str_eqb (errName error) (lit "TypeError")
            && includes (errMessage error) (lit "fetch")); eauto 6.
Qed.

(** X8.  [submitContact] returns exactly on a 2xx response whose body is
    JSON: on such a response it returns the parsed body, it returns on no
    other, and on every other outcome it throws an Error whose message is
    one of the three fixed messages, so the cause itself never reaches the
    caller. *)
Theorem submitContact_outcomes
    (post : list (JsString * JsValue) -> FetchOutcome) (d : ContactData) :
  (forall status v,
      post (contactBody d) = FetchResponse status (JsonParsed v) ->
      (200 <= status <= 299)%N ->
      submitContact post d = Ok v)
  /\ (forall v,
        submitContact post d = Ok v ->
        exists status,
          post (contactBody d) = FetchResponse status (JsonParsed v)
          /\ (200 <= status <= 299)%N)
  /\ (forall e,
        submitContact post d = Throw e ->
        exists message,
          e = newError message
          /\ (message = msg_serverError \/ message = msg_connectionError
              \/ message = msg_sendError)).
Proof.
  unfold submitContact, submitContactTry.
  destruct (post (contactBody d)) as [e|status [v|e]].
  - split; [intros ? ? H; discriminate H|]. split; [intros ? H; discriminate H|].
    intros e' H. injection H as <-. apply submitContactCatch_messages.
  - destruct (responseOk status) eqn:Hok; simpl negb; cbv iota.
    + split; [|split].
      * intros status' v' H _. injection H as _ <-. reflexivity.
      * intros v' H. injection H as <-. exists status. split; [reflexivity|].
        apply inRange_spec, Hok.
      * intros e H. discriminate H.
    + split; [|split].
      * intros status' v' H Hs. injection H as <- _.
        apply inRange_spec in Hs. unfold responseOk in Hok. congruence.
      * intros v' H. discriminate H.
      * intros e' H. injection H as <-. apply submitContactCatch_messages.
  - split; [intros ? ? H; discriminate H|]. split; [intros ? H; discriminate H|].
    intros e' H. injection H as <-. apply submitContactCatch_messages.
Qed.

End ApiMore.

(* ================================================================== *)
(** * From the cached rows to the cards (api.js, main.js, ui.js) *)
(* ================================================================== *)

Section Cards.

Variable w : World.

Lemma isValidImageUrl_trim_nonempty cp s :
  isValidImageUrl cp (JStr s) = true -> s <> [] /\ trim s <> [].
Proof.
  intros H. split.
  - intros ->. discriminate H.
  - rewrite <- isValidImageUrl_trim in H. intros E. rewrite E in H. discriminate H.
Qed.

(** X9.  Whenever [formatExperienceData] returns, the image URL it
    returns is a string: the empty string, or a string that passes
    [isValidImageUrl]; and it is the same in every language in which the
    function returns.  It returns exactly when the lines it writes to the
    console can be built, and throws the TypeError of ToString when they
    cannot, which may be so in one language and not in the other. *)
Theorem formatExperienceData_imageUrl_valid
    (record : list (JsString * JsValue)) (language : JsString) :
  (forall r,
     formatExperienceData (canParseUrl w) (JObj record) language = Ok r ->
     exists s,
       fe_imageUrl r = JStr s
       /\ (s = [] \/ isValidImageUrl (canParseUrl w) (JStr s) = true)
       /\ (forall language' r',
             formatExperienceData (canParseUrl w) (JObj record) language' = Ok r' ->
             fe_imageUrl r' = JStr s))
  /\ (logsComplete (canParseUrl w) (JObj record) language = true ->
      exists r, formatExperienceData (canParseUrl w) (JObj record) language = Ok r)
  /\ (logsComplete (canParseUrl w) (JObj record) language = false ->
      formatExperienceData (canParseUrl w) (JObj record) language
      = Throw noPrimitiveValue).
Proof.
  split; [|split].
  - intros r Hr. rewrite formatExperienceData_run in Hr.
    destruct (logsComplete (canParseUrl w) (JObj record) language); [|discriminate Hr].
    injection Hr as <-.
    destruct (trimmedImageUrl_string (canParseUrl w) (JObj record)) as (s & Hs & Hv).
    exists s. split; [exact Hs|]. split; [exact Hv|].
    intros language' r' Hr'. rewrite formatExperienceData_run in Hr'.
    destruct (logsComplete (canParseUrl w) (JObj record) language'); [|discriminate Hr'].
    injection Hr' as <-. exact Hs.
  - intros Hl. rewrite formatExperienceData_run, Hl. eexists. reflexivity.
  - intros Hl. rewrite formatExperienceData_run, Hl. reflexivity.
Qed.

(** X10.  The image block of the card of a formatted record.  The test of
    [createExperienceCard] never meets an image URL that is no string.  A
    record whose image URL is empty gets the block without an image.  A
    record whose image URL is not empty gets the block with the [img]
    element, provided its name has a string form (the name stands in the
    template of the block; the TypeError of ToString is thrown when it has
    none): the text put into the markup as the source of the image is the
    URL trimmed, which is not empty and passes [isValidImageUrl]. *)
Theorem imageHtml_of_formatted
    (record : list (JsString * JsValue)) (language : JsString)
    (r : FormattedExperience) :
  formatExperienceData (canParseUrl w) (JObj record) language = Ok r ->
  exists s,
    fe_imageUrl r = JStr s
    /\ (s = [] -> imageHtml r = Ok NoImageBlock)
    /\ (s <> [] ->
        trim s <> []
        /\ isValidImageUrl (canParseUrl w) (JStr (trim s)) = true
        /\ imageHtml r =
           if hasStringForm (fe_name r) then Ok (ImageBlock (trim s))
           else Throw noPrimitiveValue).
Proof.
  intros Hr. rewrite formatExperienceData_run in Hr.
  destruct (logsComplete (canParseUrl w) (JObj record) language); [|discriminate Hr].
  injection Hr as <-.
  destruct (trimmedImageUrl_string (canParseUrl w) (JObj record)) as (s & Hs & Hv).
  exists s. split; [exact Hs|]. unfold imageHtml. simpl fe_imageUrl. rewrite Hs. split.
  - intros ->. reflexivity.
  - intros Hne. destruct Hv as [->|Hv]; [contradiction|].
    destruct (isValidImageUrl_trim_nonempty _ s Hv) as [_ Htne].
    split; [exact Htne|]. split; [rewrite isValidImageUrl_trim; exact Hv|].
    destruct s as [|c s]; [contradiction|].
    destruct (trim (c :: s)) as [|c' t'] eqn:Et; [contradiction|].
    change (truthy (JStr (c :: s)) && truthy (JStr (c' :: t'))) with true. cbv iota.
    rewrite template_pair. change (hasStringForm (JStr (c' :: t'))) with true.
    rewrite andb_true_l.
    destruct (hasStringForm (fe_name (formatted (canParseUrl w) record language)));
      reflexivity.
Qed.

Lemma isValidRecord_object x : isValidRecord x = true -> exists props, x = JObj props.
Proof. destruct x; try discriminate. eauto. Qed.

Lemma isValidRecord_id x : isValidRecord x = true -> truthy (getProp x (lit "id")) = true.
Proof.
  destruct x as [| | | | | |props]; try discriminate. unfold isValidRecord, getProp.
  rewrite !andb_true_iff. intros [[H _] _]. exact H.
Qed.

(** What [validateExperienceData] returns is what the specification calls
    a valid row; it throws on a valid row without image whose identifier
    has no string form. *)
Lemma validateExperienceData_run x :
  notNullish x = true ->
  validateExperienceData x = Ok (isValidRecord x)
  \/ (validateExperienceData x = Throw noPrimitiveValue
      /\ isValidRecord x = true
      /\ hasStringForm (getProp x (lit "id")) = false).
Proof.
  intros Hn.
  assert (Hv : (truthy x && isTypeofObject x && truthy (getProp x (lit "id"))
                && truthy (jsOr (getProp x (lit "Name_pt_br"))
                                (getProp x (lit "Name_en_us")))
                && truthy (jsOr (getProp x (lit "Description_pt_br"))
                                (getProp x (lit "Description_en_us"))))
               = isValidRecord x).
  { destruct x as [| |b|n|s|xs|props]; try discriminate Hn; simpl truthy at 1;
      simpl isTypeofObject; rewrite ?andb_false_r, ?andb_false_l; try reflexivity.
    unfold isValidRecord, getProp, jsOr. rewrite !andb_true_l.
    destruct (truthy (lookup (lit "id") props)); [|reflexivity].
    rewrite !andb_true_l.
    destruct (truthy (lookup (lit "Name_pt_br") props)) eqn:E1;
      destruct (truthy (lookup (lit "Description_pt_br") props)) eqn:E2;
      rewrite ?E1, ?E2; reflexivity. }
  unfold validateExperienceData.
  destruct x as [| |b|n|s|xs|props]; try discriminate Hn; cbv zeta; rewrite Hv;
    try (left; reflexivity).
  destruct (isValidRecord (JObj props)) eqn:Hvalid; [|left; reflexivity].
  rewrite andb_true_l.
  match goal with
  | |- context [if negb ?img then _ else _] => destruct (negb img)
  end; [|left; reflexivity].
  unfold template. cbn [forallb]. rewrite andb_true_r.
  destruct (hasStringForm (getProp (JObj props) (lit "id"))) eqn:Hid;
    [left; reflexivity|].
  right. repeat split.
Qed.

Lemma filterValid_cases xs :
  forallb notNullish xs = true ->
  filterValid xs = Ok (filter isValidRecord xs)
  \/ (filterValid xs = Throw noPrimitiveValue
      /\ exists x, In x xs /\ isValidRecord x = true
                   /\ hasStringForm (getProp x (lit "id")) = false).
Proof.
  induction xs as [|x xs IH]; simpl; [left; reflexivity|].
  intros H. apply andb_true_iff in H as [Hx Hxs].
  destruct (validateExperienceData_run x Hx) as [E|(E & Hv & Hid)]; rewrite E.
  - destruct (IH Hxs) as [E'|(E' & y & Hy & Hvy & Hidy)]; rewrite E'.
    + left. destruct (isValidRecord x); reflexivity.
    + right. split; [reflexivity|]. exists y. auto.
  - right. split; [reflexivity|]. exists x. auto.
Qed.

Lemma filterValid_nullish xs :
  existsb (fun v => negb (notNullish v)) xs = true -> exists e, filterValid xs = Throw e.
Proof.
  induction xs as [|x xs IH]; simpl; [discriminate|].
  destruct (notNullish x) eqn:Hx; simpl.
  - intros H. destruct (IH H) as (e & He). rewrite He.
    destruct (validateExperienceData x); eauto.
  - intros _. destruct x; try discriminate Hx; simpl; eauto.
Qed.

Lemma formatted_cardOk record lang :
  isValidRecord (JObj record) = true ->
  cardOk (formatted (canParseUrl w) record lang) = true.
Proof.
  intros Hv. pose proof (isValidRecord_id _ Hv) as Hid.
  unfold cardOk, formatted. cbv beta iota zeta delta [fe_id fe_name fe_description].
  rewrite Hid, !jsOr_not_empty by discriminate. reflexivity.
Qed.

(** [map] of [formatExperienceData] over valid rows: the cards when every
    row can be logged, the TypeError of ToString when one cannot. *)
Lemma mapFormat_run lang ys :
  forallb isValidRecord ys = true ->
  (forallb (fun x => logsComplete (canParseUrl w) x lang) ys = true ->
   exists cards, mapFormat w lang ys = Ok cards
                 /\ map fe_originalData cards = ys /\ forallb cardOk cards = true)
  /\ (forallb (fun x => logsComplete (canParseUrl w) x lang) ys = false ->
      mapFormat w lang ys = Throw noPrimitiveValue).
Proof.
  induction ys as [|y ys IH]; simpl.
  - intros _. split; [|discriminate]. intros _. exists []. repeat split.
  - intros H. apply andb_true_iff in H as [Hy Hys].
    destruct (isValidRecord_object y Hy) as (record & ->).
    rewrite formatExperienceData_run.
    destruct (logsComplete (canParseUrl w) (JObj record) lang); simpl.
    + destruct (IH Hys) as [IH1 IH2]. split.
      * intros Hl. destruct (IH1 Hl) as (cards & Hm & Ho & Hk). rewrite Hm.
        eexists. split; [reflexivity|]. simpl. rewrite Ho, Hk.
        rewrite (formatted_cardOk record lang Hy). repeat split.
      * intros Hl. rewrite (IH2 Hl). reflexivity.
    + split; [discriminate|reflexivity].
Qed.

(** X11.  From a cached response without null rows.  When the console
    lines of every valid row can be built, the cards are built, in order,
    from the valid rows and from no other: the record behind each card is
    such a row, every card has an identifier that is not empty and a name
    and a description that are not the empty string.  When the lines of
    one valid row cannot be built, no card is built: the TypeError of
    ToString is thrown. *)
Theorem formattedExperiences_cards (lang : JsString) (data : JsValue)
    (xs : list JsValue) :
  getProp data (lit "results") = JArr xs ->
  forallb notNullish xs = true ->
  (forallb (fun x => logsComplete (canParseUrl w) x lang) (filter isValidRecord xs) = true ->
   exists cards,
     formattedExperiences w lang data = Ok cards
     /\ map fe_originalData cards = filter isValidRecord xs
     /\ forallb cardOk cards = true)
  /\ (forallb (fun x => logsComplete (canParseUrl w) x lang) (filter isValidRecord xs)
      = false ->
      formattedExperiences w lang data = Throw noPrimitiveValue).
Proof.
  intros Hr Hn. unfold formattedExperiences. rewrite Hr.
  assert (Hvalid : forallb isValidRecord (filter isValidRecord xs) = true)
    by apply forallb_filter.
  destruct (mapFormat_run lang _ Hvalid) as [Hm1 Hm2].
  destruct (filterValid_cases xs Hn) as [E|(E & x & Hx & Hv & Hid)]; rewrite E.
  - split; assumption.
  - split; [|reflexivity]. intros Hl. exfalso.
    rewrite forallb_forall in Hl.
    assert (Hin : In x (filter isValidRecord xs)) by (apply filter_In; auto).
    specialize (Hl x Hin). unfold logsComplete in Hl. rewrite Hid in Hl.
    discriminate Hl.
Qed.

(** X12.  One null (or undefined) row in the cached response is enough for
    [renderData] to show the render error and no card at all, whatever the
    other rows hold. *)
Theorem renderData_null_row (s : AppState) (t : Trace) (xs : list JsValue) :
  getProp (cachedData s) (lit "results") = JArr xs ->
  existsb (fun v => negb (notNullish v)) xs = true ->
  renderData w (s, t) = (Ok tt, (s, t ++ [ShowError msg_renderError])).
Proof.
  intros Hr Hn.
  assert (Hthrow : exists e, formattedExperiences w (currentLang s) (cachedData s)
                             = Throw e).
  { unfold formattedExperiences. rewrite Hr.
    destruct (filterValid_nullish xs Hn) as (e & He). rewrite He. eauto. }
  destruct Hthrow as (e & He).
  destruct (renderData_cases w s t)
    as (new & Hrun & [[_ [Hc|Hc]]|[_ [[-> _]|[[_ Hf]|(cards & Hf & _)]]]]).
  - destruct (cachedData s); try discriminate Hr; discriminate Hc.
  - rewrite Hr in Hc. discriminate Hc.
  - exact Hrun.
  - rewrite He in Hf. discriminate Hf.
  - rewrite He in Hf. discriminate Hf.
Qed.

End Cards.

Lemma imageHtml_of_formatted_witness :
  exists s,
    fe_imageUrl (formatted (canParseUrl world_offline) record_rio (lit "pt-br")) = JStr s
    /\ (s = [] ->
        imageHtml (formatted (canParseUrl world_offline) record_rio (lit "pt-br"))
        = Ok NoImageBlock)
    /\ (s <> [] ->
        trim s <> []
        /\ isValidImageUrl (canParseUrl world_offline) (JStr (trim s)) = true
        /\ imageHtml (formatted (canParseUrl world_offline) record_rio (lit "pt-br")) =
           if hasStringForm
                (fe_name (formatted (canParseUrl world_offline) record_rio (lit "pt-br")))
           then Ok (ImageBlock (trim s))
           else Throw noPrimitiveValue).
Proof.
  apply (imageHtml_of_formatted world_offline record_rio (lit "pt-br")).
  reflexivity.
Defined.

Lemma formattedExperiences_cards_witness :
  (forallb (fun x => logsComplete (canParseUrl world_offline) x (lit "en-us"))
     (filter isValidRecord [JObj record_rio; JObj record_paraty]) = true ->
   exists cards,
     formattedExperiences world_offline (lit "en-us") cache_two = Ok cards
     /\ map fe_originalData cards = filter isValidRecord [JObj record_rio; JObj record_paraty]
     /\ forallb cardOk cards = true)
  /\ (forallb (fun x => logsComplete (canParseUrl world_offline) x (lit "en-us"))
        (filter isValidRecord [JObj record_rio; JObj record_paraty]) = false ->
      formattedExperiences world_offline (lit "en-us") cache_two = Throw noPrimitiveValue).
Proof.
  apply (formattedExperiences_cards world_offline (lit "en-us") cache_two
           [JObj record_rio; JObj record_paraty]); reflexivity.
Defined.

Lemma renderData_null_row_witness :
  renderData world_offline (state_null_row, []) =
  (Ok tt, (state_null_row, [] ++ [ShowError msg_renderError])).
Proof.
  apply (renderData_null_row world_offline state_null_row [] [JObj record_rio; JNull]);
    reflexivity.
Defined.

(** A row whose identifier has no string form is not formatted in any
    language, and is not even validated when it has no image: the lines
    written to the console cannot be built. *)
Example formatExperienceData_object_id (language : JsString) :
  formatExperienceData (isPrefixOf (lit "https://")) (JObj record_object_id) language
  = Throw noPrimitiveValue
  /\ validateExperienceData (JObj record_object_id) = Throw noPrimitiveValue.
Proof. split; [rewrite formatExperienceData_run|]; reflexivity. Qed.

(** A row that is valid and formatted, but whose card cannot be built:
    [renderExperiences] is called, empties the container and fails on the
    card, and the render error is shown. *)
Example renderData_card_fails :
  exists c,
    renderData world_offline (state_object_description, []) =
    (Ok tt, (state_object_description,
             [RenderExperiences [c]; ClearContainer; ShowError msg_renderError]))
    /\ fe_originalData c = JObj record_object_description.
Proof. eexists. split; [vm_compute; reflexivity|reflexivity]. Qed.

(* ================================================================== *)
(** * More on the contact form (modal.js) *)
(* ================================================================== *)

Section FormMore.

Variable post : list (JsString * JsValue) -> FetchOutcome.
Variables (urlCupom experienceName : JsString) (experienceId : Z).

Lemma validateForm_valid name whatsapp :
  fieldInvalid validateName name = false ->
  fieldInvalid validateBrazilianPhone whatsapp = false ->
  validateForm name whatsapp = [].
Proof.
  unfold fieldInvalid, validateForm. cbv zeta.
  destruct name as [n|]; [|discriminate]. destruct whatsapp as [p|]; [|discriminate].
  intros Hn Hp. apply orb_false_iff in Hn as [Hn1 Hn2]. apply orb_false_iff in Hp as [Hp1 Hp2].
  rewrite Hn1, Hn2, Hp1, Hp2. reflexivity.
Qed.

Lemma fieldInvalid_false validate v :
  fieldInvalid validate v = false ->
  exists s, v = Some s /\ s <> [] /\ validate s = true.
Proof.
  destruct v as [s|]; [|discriminate]. simpl. intros H.
  apply orb_false_iff in H as [H1 H2]. apply negb_false_iff in H1, H2.
  exists s. split; [reflexivity|]. split; [|exact H2].
  intros ->. discriminate H1.
Qed.

(** X13.  The two readings of the form agree: [validateForm] reports an
    error for a field exactly when [highlightInvalidFields] marks that
    field, there are at most two errors, and there is none exactly when
    the name and the phone are both valid. *)
Theorem validateForm_agrees_with_highlight (name whatsapp : FormValue) :
  length (validateForm name whatsapp) = length (highlightInvalidFields name whatsapp)
  /\ length (validateForm name whatsapp) <= 2
  /\ (validateForm name whatsapp = [] <->
        fieldInvalid validateName name = false
        /\ fieldInvalid validateBrazilianPhone whatsapp = false).
Proof.
  unfold validateForm, highlightInvalidFields, fieldInvalid. cbv zeta.
  destruct name as [n|]; destruct whatsapp as [p|];
    repeat match goal with
           | |- context [negb (truthy (JStr ?s))] =>
               destruct (negb (truthy (JStr s)))
           | |- context [negb (validateName ?s)] => destruct (negb (validateName s))
           | |- context [negb (validateBrazilianPhone ?s)] =>
               destruct (negb (validateBrazilianPhone s))
           end;
    simpl; (split; [reflexivity|]); (split; [lia|]);
    (split; [try discriminate; auto | intros [H1 H2]; try discriminate; reflexivity]).
Qed.

(** The trace of a submission that passes validation. *)
Lemma handleFormSubmit_accepted formName formWhatsapp :
  validateForm (option_map trim formName) (option_map trim formWhatsapp) = [] ->
  handleFormSubmit post formName formWhatsapp urlCupom experienceName experienceId =
  let d := {| Api.name := fromForm (option_map trim formName);
              Api.whatsapp := fromForm (option_map trim formWhatsapp);
              Api.experienceId := experienceId; Api.cupom := Some urlCupom |} in
  [HideFormError; ClearFieldErrors; SetButtonLoading true; CallSubmitContact d]
  ++ match submitContact post d with
     | Ok _ =>
         match openWhatsApp (generateWhatsAppMessage experienceName (Api.name d)
                               (Api.whatsapp d) urlCupom) with
         | Ok opened => [opened; CloseContactModal]
         | Throw error => [ShowFormError (errMessage error)]
         end
     | Throw error => [ShowFormError (errMessage error)]
     end
  ++ [SetButtonLoading false].
Proof. intros H. unfold handleFormSubmit. cbv zeta. rewrite H. reflexivity. Qed.

Lemma handleFormSubmit_rejected_trace formName formWhatsapp m rest :
  validateForm (option_map trim formName) (option_map trim formWhatsapp) = m :: rest ->
  handleFormSubmit post formName formWhatsapp urlCupom experienceName experienceId =
  [HideFormError; ClearFieldErrors; ShowFormError m]
  ++ highlightInvalidFields (option_map trim formName) (option_map trim formWhatsapp).
Proof. intros H. unfold handleFormSubmit. cbv zeta. rewrite H. reflexivity. Qed.

Lemma highlightInvalidFields_field_errors name whatsapp :
  forallb isFieldError (highlightInvalidFields name whatsapp) = true.
Proof.
  unfold highlightInvalidFields.
  destruct (fieldInvalid validateName name);
    destruct (fieldInvalid validateBrazilianPhone whatsapp); reflexivity.
Qed.

Lemma openWhatsApp_event message opened :
  openWhatsApp message = Ok opened -> opened = OpenWhatsApp message.
Proof.
  unfold openWhatsApp. destruct (isWellFormed message); [|discriminate].
  intros H. injection H as <-. reflexivity.
Qed.

(** X14.  [handleFormSubmit] makes the remote call exactly when the name
    and the phone are both valid, once, and with the trimmed name, the
    trimmed phone, the experience identifier and the coupon of the URL;
    the name and the phone it sends pass their validations. *)
Theorem handleFormSubmit_submits_iff_valid (formName formWhatsapp : FormValue) :
  let name := option_map trim formName in
  let whatsapp := option_map trim formWhatsapp in
  let trace :=
    handleFormSubmit post formName formWhatsapp urlCupom experienceName experienceId in
  submitCalled trace =
    negb (fieldInvalid validateName name
          || fieldInvalid validateBrazilianPhone whatsapp)
  /\ length (filter isSubmitCall trace) <= 1
  /\ (forall d, In (CallSubmitContact d) trace ->
        Some (Api.name d) = name /\ Some (Api.whatsapp d) = whatsapp
        /\ Api.experienceId d = experienceId /\ Api.cupom d = Some urlCupom
        /\ validateName (Api.name d) = true
        /\ validateBrazilianPhone (Api.whatsapp d) = true).
Proof.
  cbv zeta.
  destruct (validateForm (option_map trim formName) (option_map trim formWhatsapp))
    as [|m rest] eqn:Hv.
  - assert (Hn : fieldInvalid validateName (option_map trim formName) = false).
    { destruct (fieldInvalid validateName (option_map trim formName)) eqn:E;
        [|reflexivity].
      destruct (validateForm_name_first _ (option_map trim formWhatsapp) E)
        as (m & rest & H & _). rewrite H in Hv. discriminate Hv. }
    assert (Hp : fieldInvalid validateBrazilianPhone (option_map trim formWhatsapp)
                 = false).
    { destruct (fieldInvalid validateBrazilianPhone (option_map trim formWhatsapp)) eqn:E;
        [|reflexivity].
      destruct (validateForm_phone_invalid (option_map trim formName) _ E)
        as (m & rest & H). rewrite H in Hv. discriminate Hv. }
    rewrite (handleFormSubmit_accepted _ _ Hv), Hn, Hp. cbv zeta.
    destruct (fieldInvalid_false _ _ Hn) as (n & En & _ & Hvn).
    destruct (fieldInvalid_false _ _ Hp) as (p & Ep & _ & Hvp).
    rewrite En, Ep. simpl fromForm.
    set (d := {| Api.name := n; Api.whatsapp := p; Api.experienceId := experienceId;
                 Api.cupom := Some urlCupom |}).
    assert (Htail :
      forall tail,
        (tail = [ShowFormError [] ] \/ (exists m, tail = [ShowFormError m])
         \/ exists m, tail = [OpenWhatsApp m; CloseContactModal]) ->
        submitCalled ([HideFormError; ClearFieldErrors; SetButtonLoading true;
                       CallSubmitContact d] ++ tail ++ [SetButtonLoading false]) = true
        /\ length (filter isSubmitCall
                     ([HideFormError; ClearFieldErrors; SetButtonLoading true;
                       CallSubmitContact d] ++ tail ++ [SetButtonLoading false])) <= 1
        /\ (forall d', In (CallSubmitContact d')
                         ([HideFormError; ClearFieldErrors; SetButtonLoading true;
                           CallSubmitContact d] ++ tail ++ [SetButtonLoading false]) ->
                       d' = d)).
    { intros tail [->|[(m & ->)|(m & ->)]]; simpl;
        (split; [reflexivity|]); (split; [lia|]);
        intros d' H; repeat (destruct H as [H|H]; try discriminate H);
        try contradiction; injection H as <-; reflexivity. }
    match goal with
    | |- context [_ ++ ?tail ++ [SetButtonLoading false]] =>
        destruct (Htail tail) as (H1 & H2 & H3)
    end.
    { destruct (submitContact post d) as [v|e]; [|right; left; eauto].
      destruct (openWhatsApp _) as [opened|e] eqn:Ho; [|right; left; eauto].
      right. right. apply openWhatsApp_event in Ho. subst opened. eauto. }
    split; [exact H1|]. split; [exact H2|].
    intros d' Hd'. rewrite (H3 d' Hd'). simpl. repeat split; assumption.
  - destruct (handleFormSubmit_rejected post urlCupom experienceName experienceId
                _ _ _ _ Hv) as [Hs _].
    rewrite Hs. split.
    + symmetry. apply negb_false_iff.
      destruct (fieldInvalid validateName (option_map trim formName)) eqn:Hn;
        [reflexivity|].
      destruct (fieldInvalid validateBrazilianPhone (option_map trim formWhatsapp)) eqn:Hp;
        [reflexivity|].
      rewrite (validateForm_valid _ _ Hn Hp) in Hv. discriminate Hv.
    + assert (Hnone : forall d, ~ In (CallSubmitContact d)
        (handleFormSubmit post formName formWhatsapp urlCupom experienceName experienceId)).
      { intros d Hin. unfold submitCalled in Hs.
        assert (E : existsb isSubmitCall
          (handleFormSubmit post formName formWhatsapp urlCupom experienceName
             experienceId) = true).
        { apply existsb_exists. exists (CallSubmitContact d). split; [exact Hin|reflexivity]. }
        rewrite Hs in E. discriminate E. }
      split.
      * unfold submitCalled in Hs.
        assert (E : filter isSubmitCall
          (handleFormSubmit post formName formWhatsapp urlCupom experienceName
             experienceId) = []).
        { destruct (filter isSubmitCall _) as [|x l] eqn:Ef; [reflexivity|].
          assert (Hx : In x (x :: l)) by (left; reflexivity).
          rewrite <- Ef in Hx. apply filter_In in Hx as [Hx1 Hx2].
          destruct x; try discriminate Hx2. exfalso. apply (Hnone _ Hx1). }
        rewrite E. simpl. lia.
      * intros d Hin. exfalso. apply (Hnone d Hin).
Qed.

(** X15.  What a submission does after validation: WhatsApp is opened only
    after [submitContact] has returned without an error, the modal is
    closed exactly when WhatsApp was opened, the submit button is put in
    its loading state as often as it is taken out of it and it is the last
    thing touched when the remote call was made; when [submitContact]
    fails, its message is the error shown and WhatsApp stays closed. *)
Theorem handleFormSubmit_outcome (formName formWhatsapp : FormValue) :
  let trace :=
    handleFormSubmit post formName formWhatsapp urlCupom experienceName experienceId in
  (existsb isOpenWhatsApp trace = true ->
     exists d v, In (CallSubmitContact d) trace /\ submitContact post d = Ok v)
  /\ existsb isCloseModal trace = existsb isOpenWhatsApp trace
  /\ length (filter (isButtonLoading true) trace)
     = length (filter (isButtonLoading false) trace)
  /\ (submitCalled trace = true -> last trace HideFormError = SetButtonLoading false)
  /\ (forall d e,
        In (CallSubmitContact d) trace -> submitContact post d = Throw e ->
        firstErrorSurfaced trace = Some (errMessage e)
        /\ existsb isOpenWhatsApp trace = false).
Proof.
  cbv zeta.
  destruct (validateForm (option_map trim formName) (option_map trim formWhatsapp))
    as [|m rest] eqn:Hv.
  - rewrite (handleFormSubmit_accepted _ _ Hv). cbv zeta.
    set (d := {| Api.name := fromForm (option_map trim formName);
                 Api.whatsapp := fromForm (option_map trim formWhatsapp);
                 Api.experienceId := experienceId; Api.cupom := Some urlCupom |}).
    destruct (submitContact post d) as [v|e] eqn:Hs.
    + destruct (openWhatsApp _) as [opened|e] eqn:Ho.
      * apply openWhatsApp_event in Ho. subst opened. simpl.
        split; [intros _; exists d, v; split; [auto|exact Hs]|].
        split; [reflexivity|]. split; [reflexivity|]. split; [reflexivity|].
        intros d' e' Hin He. in_cases Hin. injection Hin as <-. congruence.
      * simpl. split; [discriminate|].
        split; [reflexivity|]. split; [reflexivity|]. split; [reflexivity|].
        intros d' e' Hin He. in_cases Hin. injection Hin as <-. congruence.
    + simpl. split; [discriminate|].
      split; [reflexivity|]. split; [reflexivity|]. split; [reflexivity|].
      intros d' e' Hin He. in_cases Hin. injection Hin as <-.
      split; [|reflexivity]. congruence.
  - rewrite (handleFormSubmit_rejected_trace _ _ _ _ Hv).
    unfold highlightInvalidFields.
    destruct (fieldInvalid validateName (option_map trim formName));
      destruct (fieldInvalid validateBrazilianPhone (option_map trim formWhatsapp));
      simpl; (split; [discriminate|]); (split; [reflexivity|]);
      (split; [reflexivity|]); (split; [discriminate|]);
      intros d e Hin _; in_cases Hin.
Qed.

Lemma trim_spaces c : forallb isWhiteSpace c = true -> trim c = [].
Proof.
  intros H. unfold trim, trimStart.
  assert (E : dropWhile isWhiteSpace c = []).
  { induction c as [|x c IH]; [reflexivity|]. simpl in *.
    apply andb_true_iff in H as [Hx Hc]. rewrite Hx. apply IH, Hc. }
  rewrite E. reflexivity.
Qed.

(** X16.  The coupon of the URL goes two ways.  It is stored with the lead
    exactly when it is not empty after trimming, and then trimmed; it is
    mentioned in the WhatsApp message exactly when it is not empty, and
    then as it is.  So a stored coupon is always mentioned, and a coupon
    made of blanks is mentioned without being stored. *)
Theorem coupon_stored_and_mentioned (name whatsapp cupom : JsString) :
  let d := {| Api.name := name; Api.whatsapp := whatsapp;
              Api.experienceId := experienceId; Api.cupom := Some cupom |} in
  let base := generateWhatsAppMessage experienceName name whatsapp [] in
  (hasKey key_Parceiro_id (contactBody d) = true <-> trim cupom <> [])
  /\ (cupom <> [] ->
      generateWhatsAppMessage experienceName name whatsapp cupom
      = base ++ [10%N] ++ lit "Cupom de desconto " ++ cupom)
  /\ (cupom = [] ->
      generateWhatsAppMessage experienceName name whatsapp cupom = base)
  /\ (hasKey key_Parceiro_id (contactBody d) = true -> cupom <> [])
  /\ (forallb isWhiteSpace cupom = true ->
      hasKey key_Parceiro_id (contactBody d) = false).
Proof.
  cbv zeta.
  assert (Hkey : forall c,
    hasKey key_Parceiro_id
      (contactBody {| Api.name := name; Api.whatsapp := whatsapp;
                      Api.experienceId := experienceId; Api.cupom := Some c |})
    = match trim c with [] => false | _ :: _ => true end).
  { intros c. rewrite contactBody_shape. simpl couponAfterTrim.
    destruct (trim c); reflexivity. }
  split; [|split; [|split; [|split]]].
  - rewrite Hkey. destruct (trim cupom); split; congruence.
  - intros Hne. unfold generateWhatsAppMessage.
    destruct cupom as [|c cs]; [contradiction|]. simpl truthy. cbv iota.
    rewrite <- !app_assoc. reflexivity.
  - intros ->. reflexivity.
  - rewrite Hkey. intros H ->. discriminate H.
  - intros Hw. rewrite Hkey, (trim_spaces cupom Hw). reflexivity.
Qed.

End FormMore.

(* ================================================================== *)
(** * Opening and closing the modal (modal.js) *)
(* ================================================================== *)

Section ModalPage.

Lemma closeContactModal_ok p : pageOk p -> pageOk (closeContactModal p) /\ modals (closeContactModal p) = 0.
Proof.
  intros [Hm Ho]. unfold closeContactModal. destruct (modals p) as [|n] eqn:E.
  - split; [split; [lia|rewrite Ho, E; reflexivity] | exact E].
  - assert (n = 0) by lia. subst n. split; [split; simpl; [lia|reflexivity]|reflexivity].
Qed.

Lemma openContactModal_ok p : pageOk p -> pageOk (openContactModal p).
Proof.
  intros H. destruct (closeContactModal_ok p H) as [_ H0].
  unfold openContactModal. cbv zeta. rewrite H0. split; simpl; [lia|reflexivity].
Qed.

Lemma runEscapeListeners_ok n p : pageOk p -> pageOk (runEscapeListeners n p).
Proof.
  revert p. induction n as [|n IH]; intros p H; simpl; [exact H|].
  apply IH, closeContactModal_ok, H.
Qed.

Lemma runEscapeListeners_closes n p :
  pageOk p -> 0 < n -> modals (runEscapeListeners n p) = 0.
Proof.
  revert p. induction n as [|n IH]; intros p H Hn; [lia|]. simpl.
  destruct (closeContactModal_ok p H) as [Hok H0].
  destruct n as [|n]; [exact H0|]. apply IH; [exact Hok|lia].
Qed.

Lemma pageStep_ok p e : pageOk p -> pageOk (pageStep p e).
Proof.
  intros H. destruct e as [| |[|]]; simpl.
  - apply openContactModal_ok, H.
  - apply closeContactModal_ok, H.
  - apply (runEscapeListeners_ok (escapeListeners p)) in H. exact H.
  - exact H.
Qed.

Lemma runPage_ok events p : pageOk p -> pageOk (runPage events p).
Proof.
  unfold runPage. revert p. induction events as [|e events IH]; intros p H; simpl;
    [exact H|]. apply IH, pageStep_ok, H.
Qed.

(** X17.  Whatever the user clicks and types, from the page as it is
    loaded: the document never holds more than one contact modal, the body
    is kept from scrolling exactly while a modal is open, and right after
    a click on a contact button exactly one modal is open. *)
Theorem modal_at_most_one (events : list PageEvent) :
  modals (runPage events initialPage) <= 1
  /\ overflowHidden (runPage events initialPage)
     = (modals (runPage events initialPage) =? 1)
  /\ modals (runPage (events ++ [ContactClick]) initialPage) = 1
  /\ modals (runPage (events ++ [CloseClick]) initialPage) = 0.
Proof.
  assert (H0 : pageOk initialPage) by (split; [simpl; lia|reflexivity]).
  pose proof (runPage_ok events initialPage H0) as [Hm Ho].
  split; [exact Hm|]. split; [exact Ho|].
  unfold runPage. rewrite !fold_left_app. simpl.
  fold (runPage events initialPage).
  destruct (closeContactModal_ok _ (conj Hm Ho)) as [_ Hc].
  split; [|exact Hc]. unfold openContactModal. cbv zeta. rewrite Hc. reflexivity.
Qed.

Lemma escapeListeners_close p : escapeListeners (closeContactModal p) = escapeListeners p.
Proof. unfold closeContactModal. destruct (modals p); reflexivity. Qed.

(** X18.  The Escape listeners pile up: each opening of the modal puts one
    more keydown listener on the document, closing the modal by its close
    control (or by the backdrop) takes none away, and only an Escape key
    clears them; without an Escape key there are as many listeners as the
    modal was opened.  One Escape key then closes the modal and leaves no
    listener. *)
Theorem escape_listeners_accumulate (events : list PageEvent) :
  hasEscape events = false ->
  escapeListeners (runPage events initialPage) = contactClicks events
  /\ escapeListeners (runPage (events ++ [Keydown true]) initialPage) = 0
  /\ (0 < contactClicks events ->
      modals (runPage (events ++ [Keydown true]) initialPage) = 0).
Proof.
  intros Hesc.
  assert (Hgen : forall p,
    escapeListeners (runPage events p) = escapeListeners p + contactClicks events).
  { unfold runPage, contactClicks. clear - Hesc.
    induction events as [|e events IH]; intros p; simpl; [lia|].
    simpl in Hesc. apply orb_false_iff in Hesc as [He Hes].
    rewrite (IH Hes). destruct e as [| |[|]]; simpl; try discriminate He.
    - rewrite escapeListeners_close. lia.
    - rewrite escapeListeners_close. lia.
    - lia. }
  assert (H0 : pageOk initialPage) by (split; [simpl; lia|reflexivity]).
  split; [rewrite Hgen; reflexivity|].
  unfold runPage. rewrite !fold_left_app. simpl. fold (runPage events initialPage).
  split; [reflexivity|].
  intros Hc. apply runEscapeListeners_closes; [apply runPage_ok, H0|].
  rewrite Hgen. simpl. exact Hc.
Qed.

Lemma escape_listeners_accumulate_witness :
  escapeListeners (runPage [ContactClick; CloseClick; ContactClick] initialPage)
  = contactClicks [ContactClick; CloseClick; ContactClick]
  /\ escapeListeners
       (runPage ([ContactClick; CloseClick; ContactClick] ++ [Keydown true]) initialPage)
     = 0
  /\ (0 < contactClicks [ContactClick; CloseClick; ContactClick] ->
      modals
        (runPage ([ContactClick; CloseClick; ContactClick] ++ [Keydown true]) initialPage)
      = 0).
Proof.
  apply (escape_listeners_accumulate [ContactClick; CloseClick; ContactClick]).
  reflexivity.
Defined.

End ModalPage.

(* ================================================================== *)
(** * The phone field while typing (modal.js) *)
(* ================================================================== *)

Section PhoneInput.

Lemma formatBrazilianPhone_fixed phone :
  formatBrazilianPhone (formatBrazilianPhone phone) = formatBrazilianPhone phone.
Proof.
  unfold formatBrazilianPhone at 1. cbv zeta. rewrite stripNonDigits_format.
  unfold formatBrazilianPhone. cbv zeta.
  destruct (length (stripNonDigits phone) =? 11); [reflexivity|].
  destruct (length (stripNonDigits phone) =? 10); reflexivity.
Qed.

Lemma str_eqb_refl a : str_eqb a a = true.
Proof. apply str_eqb_eq. reflexivity. Qed.

(** X19.  The input listener of the phone field leaves the field holding
    the formatted value, asks for a caret that keeps its distance to the
    end of the text, and is stable: run again on what it left, whatever
    the caret, it changes nothing and moves no caret. *)
Theorem phoneInput_stable (cursorPosition : Z) (oldValue : JsString) :
  fst (phoneInput cursorPosition oldValue) = formatBrazilianPhone oldValue
  /\ (forall cursor',
        phoneInput cursor' (fst (phoneInput cursorPosition oldValue))
        = (fst (phoneInput cursorPosition oldValue), None))
  /\ (forall caret,
        snd (phoneInput cursorPosition oldValue) = Some caret ->
        (Z.of_nat (length (fst (phoneInput cursorPosition oldValue))) - caret
         = Z.of_nat (length oldValue) - cursorPosition)%Z)
  /\ (snd (phoneInput cursorPosition oldValue) = None <->
        formatBrazilianPhone oldValue = oldValue).
Proof.
  assert (Hfst : fst (phoneInput cursorPosition oldValue) = formatBrazilianPhone oldValue).
  { unfold phoneInput. cbv zeta.
    destruct (str_eqb (formatBrazilianPhone oldValue) oldValue) eqn:E; simpl;
      [apply str_eqb_eq in E; congruence | reflexivity]. }
  split; [exact Hfst|]. rewrite Hfst. split; [|split].
  - intros cursor'. unfold phoneInput. cbv zeta.
    rewrite formatBrazilianPhone_fixed, str_eqb_refl. reflexivity.
  - intros caret. unfold phoneInput. cbv zeta.
    destruct (str_eqb (formatBrazilianPhone oldValue) oldValue); simpl;
      [discriminate|]. intros H. injection H as <-. lia.
  - unfold phoneInput. cbv zeta.
    destruct (str_eqb (formatBrazilianPhone oldValue) oldValue) eqn:E; simpl.
    + apply str_eqb_eq in E. split; [intros _; exact E | reflexivity].
    + split; [discriminate|]. intros H. apply str_eqb_eq in H. congruence.
Qed.

End PhoneInput.

(* ================================================================== *)
(** * Loading, retrying and the regions of the page (main.js, ui.js) *)
(* ================================================================== *)

Section Loading.

Variable w : World.

(** Every way [loadTranslationsForLanguage] can go. *)
Lemma loadTranslationsForLanguage_run language s t :
  loadTranslationsForLanguage w language (s, t) =
  match loadTranslations w t language with
  | Ok tr =>
      (Ok tt,
       ({| currentLang := currentLang s; cachedData := cachedData s;
           translations := tr; isLoading := isLoading s |},
        t ++ [CallLoadTranslations language; UpdateLanguageLabels tr]))
  | Throw _ =>
      if negb (str_eqb language (lit "pt-br")) then
        match loadTranslations w (t ++ [CallLoadTranslations language]) (lit "pt-br") with
        | Ok tr =>
            (Ok tt,
             ({| currentLang := lit "pt-br"; cachedData := cachedData s;
                 translations := tr; isLoading := isLoading s |},
              t ++ [CallLoadTranslations language; CallLoadTranslations (lit "pt-br");
                    UpdateLanguageLabels tr]))
        | Throw e =>
            (Throw e,
             ({| currentLang := lit "pt-br"; cachedData := cachedData s;
                 translations := translations s; isLoading := isLoading s |},
              t ++ [CallLoadTranslations language; CallLoadTranslations (lit "pt-br")]))
        end
      else (Throw (newError msg_translations), (s, t ++ [CallLoadTranslations language]))
  end.
Proof.
  unfold loadTranslationsForLanguage. monad_step.
  destruct (loadTranslations w t language) as [tr|e].
  - rewrite <- !app_assoc. reflexivity.
  - destruct (negb (str_eqb language (lit "pt-br"))); [|reflexivity].
    monad_step.
    destruct (loadTranslations w (t ++ [CallLoadTranslations language]) (lit "pt-br"));
      rewrite <- !app_assoc; reflexivity.
Qed.

Lemma fetchExperiences_ok out data :
  fetchExperiences out = Ok data -> exists xs, getProp data (lit "results") = JArr xs.
Proof.
  intros H. destruct (fetchExperiences_returned out data H) as (_ & xs & _ & _ & Hr).
  exists xs. exact Hr.
Qed.

Lemma fetchCount_plus a b : fetchCount (a ++ b) = fetchCount a + fetchCount b.
Proof. unfold fetchCount. rewrite filter_app, length_app. reflexivity. Qed.

Lemma fetchCount_render quiet : forallb isRenderCall quiet = true -> fetchCount quiet = 0.
Proof.
  intros H. unfold fetchCount.
  rewrite (filter_isFetch_nil quiet (isRenderCall_not_fetch quiet H)). reflexivity.
Qed.

Lemma shownOk_error m : shownOk w [ShowError m].
Proof. right. eexists. split; reflexivity. Qed.

Lemma shownOk_not_fetch shown : shownOk w shown -> fetchCount shown = 0.
Proof.
  intros [[-> _]|(X & -> & HX)]; [reflexivity|].
  destruct X; try discriminate HX; reflexivity.
Qed.

(** Every way [loadAppData] can go when no load is in flight: it returns
    without an error, with the loading flag down, after a trace made of
    [showLoading], calls that leave the regions as they are, at most one
    call that shows the data or an error, and [hideLoading]. *)
Lemma loadAppData_run s t :
  isLoading s = false ->
  exists s' mid shown,
    loadAppData w (s, t) = (Ok tt, (s', t ++ ShowLoading :: mid ++ shown ++ [HideLoading]))
    /\ isLoading s' = false
    /\ shownOk w shown
    /\ forallb isQuietCall mid = true
    /\ fetchCount mid <= 1
    /\ (truthy (cachedData s) = true ->
        cachedData s' = cachedData s /\ fetchCount mid = 0)
    /\ (cachedData s' = cachedData s
        \/ (fetchCount mid = 1
            /\ exists t1, fetchExperiences (getExperiences w t1) = Ok (cachedData s'))).
Proof.
  intros Hl. unfold loadAppData. monad_step. rewrite Hl.
  rewrite loadTranslationsForLanguage_run. monad_step.
  assert (Hquiet : forall pre quiet,
             forallb isQuietCall pre = true -> forallb isRenderCall quiet = true ->
             forallb isQuietCall (pre ++ quiet) = true).
  { intros pre quiet Hp Hq. rewrite forallb_app, Hp.
    apply isRenderCall_quiet, Hq. }
  assert (Hcount : forall pre quiet,
             forallb isRenderCall quiet = true ->
             fetchCount (pre ++ quiet) = fetchCount pre).
  { intros pre quiet Hq. rewrite fetchCount_plus, (fetchCount_render quiet Hq). lia. }
  destruct (loadTranslations w (t ++ [ShowLoading]) (currentLang s)) as [tr|e1].
  - monad_step. destruct (truthy (cachedData s)) eqn:Hc.
    + change (negb true) with false. monad_step.
      render_step (renderData_at w). monad_step. destruct Hshape as [Hq Hs].
      eexists.
      exists ([CallLoadTranslations (currentLang s); UpdateLanguageLabels tr] ++ quiet),
             shown.
      split; [rewrite <- !app_assoc; reflexivity|].
      cbn [isLoading cachedData]. rewrite (Hcount _ quiet Hq).
      repeat split; auto.
    + change (negb false) with true. monad_step.
      destruct (fetchExperiences _) as [data|e2] eqn:Hf.
      * monad_step. render_step (renderData_at w). monad_step.
        destruct Hshape as [Hq Hs]. eexists.
        exists ([CallLoadTranslations (currentLang s); UpdateLanguageLabels tr;
                 CallFetchExperiences] ++ quiet), shown.
        split; [rewrite <- !app_assoc; reflexivity|].
        cbn [isLoading cachedData]. rewrite (Hcount _ quiet Hq).
        repeat split; auto; try discriminate.
        right. split; [reflexivity|]. eexists. exact Hf.
      * monad_step.
        eexists. exists [CallLoadTranslations (currentLang s); UpdateLanguageLabels tr;
                         CallFetchExperiences].
        exists [if (length tr =? 0)%nat then ShowError msg_translationsError
                else ShowError (if truthy (JStr (errMessage e2))
                                then errMessage e2 else msg_experiencesError)].
        split; [destruct (length tr =? 0)%nat; monad_step; rewrite <- !app_assoc;
                reflexivity|].
        destruct (length tr =? 0)%nat; cbn [isLoading cachedData];
          repeat split; auto using shownOk_error; try discriminate.
  - destruct (negb (str_eqb (currentLang s) (lit "pt-br"))).
    + monad_step.
      destruct (loadTranslations w _ (lit "pt-br")) as [tr|e2].
      * monad_step. destruct (truthy (cachedData s)) eqn:Hc.
        -- change (negb true) with false. monad_step.
           render_step (renderData_at w). monad_step. destruct Hshape as [Hq Hs].
           eexists.
           exists ([CallLoadTranslations (currentLang s);
                    CallLoadTranslations (lit "pt-br"); UpdateLanguageLabels tr]
                   ++ quiet), shown.
           split; [rewrite <- !app_assoc; reflexivity|].
           cbn [isLoading cachedData]. rewrite (Hcount _ quiet Hq).
           repeat split; auto.
        -- change (negb false) with true. monad_step.
           destruct (fetchExperiences _) as [data|e3] eqn:Hf.
           ++ monad_step. render_step (renderData_at w). monad_step.
              destruct Hshape as [Hq Hs]. eexists.
              exists ([CallLoadTranslations (currentLang s);
                       CallLoadTranslations (lit "pt-br");
                       UpdateLanguageLabels tr; CallFetchExperiences] ++ quiet), shown.
              split; [rewrite <- !app_assoc; reflexivity|].
              cbn [isLoading cachedData]. rewrite (Hcount _ quiet Hq).
              repeat split; auto; try discriminate.
              right. split; [reflexivity|]. eexists. exact Hf.
           ++ monad_step.
              eexists. exists [CallLoadTranslations (currentLang s);
                               CallLoadTranslations (lit "pt-br");
                               UpdateLanguageLabels tr; CallFetchExperiences].
              exists [if (length tr =? 0)%nat then ShowError msg_translationsError
                      else ShowError (if truthy (JStr (errMessage e3))
                                      then errMessage e3 else msg_experiencesError)].
              split; [destruct (length tr =? 0)%nat; monad_step; rewrite <- !app_assoc;
                      reflexivity|].
              destruct (length tr =? 0)%nat; cbn [isLoading cachedData];
                repeat split; auto using shownOk_error; try discriminate.
      * monad_step.
        eexists. exists [CallLoadTranslations (currentLang s);
                         CallLoadTranslations (lit "pt-br")].
        exists [if (length (translations s) =? 0)%nat
                then ShowError msg_translationsError
                else ShowError (if truthy (JStr (errMessage e2))
                                then errMessage e2 else msg_experiencesError)].
        split; [destruct (length (translations s) =? 0)%nat; monad_step;
                rewrite <- !app_assoc; reflexivity|].
        destruct (length (translations s) =? 0)%nat; cbn [isLoading cachedData];
          repeat split; auto using shownOk_error.
    + monad_step.
      eexists. exists [CallLoadTranslations (currentLang s)].
      exists [if (length (translations s) =? 0)%nat
              then ShowError msg_translationsError
              else ShowError (if truthy (JStr (errMessage (newError msg_translations)))
                              then errMessage (newError msg_translations)
                              else msg_experiencesError)].
      split; [destruct (length (translations s) =? 0)%nat; monad_step;
              rewrite <- !app_assoc; reflexivity|].
      destruct (length (translations s) =? 0)%nat; cbn [isLoading cachedData];
        repeat split; auto using shownOk_error.
Qed.

Lemma fetchCount_bracket t mid shown :
  shownOk w shown ->
  fetchCount (t ++ ShowLoading :: mid ++ shown ++ [HideLoading])
  = fetchCount t + fetchCount mid.
Proof.
  intros Hs. rewrite fetchCount_plus. f_equal.
  change (ShowLoading :: mid ++ shown ++ [HideLoading])
    with ([ShowLoading] ++ mid ++ shown ++ [HideLoading]).
  rewrite !fetchCount_plus, (shownOk_not_fetch shown Hs).
  unfold fetchCount at 1 3. simpl. lia.
Qed.

(** X20.  [loadAppData] never throws.  While a load is in flight it does
    nothing at all; otherwise it ends with the loading flag down, and what
    it did to the page is [showLoading], then calls that leave the regions
    as they are (among them a call of [renderExperiences] that may have
    failed half way), then at most one call that shows the data or an
    error, and exactly one when the page has the data container, then
    [hideLoading]. *)
Theorem loadAppData_always_settles (s : AppState) (t : Trace) :
  let out := loadAppData w (s, t) in
  fst out = Ok tt
  /\ (isLoading s = true -> snd out = (s, t))
  /\ (isLoading s = false ->
      isLoading (fst (snd out)) = false
      /\ exists mid shown,
           snd (snd out) = t ++ ShowLoading :: mid ++ shown ++ [HideLoading]
           /\ forallb isQuietCall mid = true
           /\ forallb isRegionCall shown = true
           /\ length shown <= 1
           /\ (dataContainerPresent w = true -> length shown = 1)).
Proof.
  cbv zeta. destruct (isLoading s) eqn:Hl.
  - unfold loadAppData. monad_step. rewrite Hl.
    split; [reflexivity|]. split; [reflexivity|discriminate].
  - destruct (loadAppData_run s t Hl) as (s' & mid & shown & Hrun & H1 & H2 & H3 & _).
    rewrite Hrun. split; [reflexivity|]. split; [discriminate|]. intros _.
    split; [exact H1|]. exists mid, shown. split; [reflexivity|]. split; [exact H3|].
    destruct H2 as [[-> Hp]|(X & -> & HX)].
    + split; [reflexivity|]. split; [simpl; lia|]. intros H. congruence.
    + split; [simpl; rewrite HX; reflexivity|]. split; [simpl; lia|]. reflexivity.
Qed.

(** X21.  [loadAppData] fetches the list at most once, and not at all
    when the list is cached or a load is in flight; in these two cases the
    cache is left as it is. *)
Theorem loadAppData_fetches_at_most_once (s : AppState) (t : Trace) :
  let out := loadAppData w (s, t) in
  fetchCount (snd (snd out)) <= S (fetchCount t)
  /\ (truthy (cachedData s) = true \/ isLoading s = true ->
      cachedData (fst (snd out)) = cachedData s
      /\ fetchCount (snd (snd out)) = fetchCount t).
Proof.
  cbv zeta. destruct (isLoading s) eqn:Hl.
  - unfold loadAppData. monad_step. rewrite Hl. simpl.
    split; [lia|]. intros _. split; reflexivity.
  - destruct (loadAppData_run s t Hl)
      as (s' & mid & shown & Hrun & _ & HX & _ & Hle & Hc & _).
    rewrite Hrun. simpl fst. simpl snd. rewrite (fetchCount_bracket t mid shown HX).
    split; [lia|]. intros [Ht|Ht]; [|discriminate Ht].
    destruct (Hc Ht) as [Hc1 Hc2]. split; [exact Hc1|lia].
Qed.

(** X22.  [handleRetry] drops the cache for good: afterwards the cache is
    null or holds what a fetch has just returned, never the old response.
    When no load is in flight and the translations load, the list is
    fetched exactly once; when a load is in flight, the cache is dropped
    and nothing else happens. *)
Theorem handleRetry_refetches (s : AppState) (t : Trace) :
  let out := handleRetry w (s, t) in
  (cachedData (fst (snd out)) = JNull
   \/ exists t1, fetchExperiences (getExperiences w t1) = Ok (cachedData (fst (snd out))))
  /\ (isLoading s = true ->
      cachedData (fst (snd out)) = JNull /\ snd (snd out) = t)
  /\ (isLoading s = false ->
      forall tr,
        loadTranslations w (t ++ [ShowLoading]) (currentLang s) = Ok tr ->
        fetchCount (snd (snd out)) = S (fetchCount t)).
Proof.
  cbv zeta. unfold handleRetry. monad_step.
  set (s0 := {| currentLang := currentLang s; cachedData := JNull;
                translations := translations s; isLoading := isLoading s |}).
  destruct (isLoading s) eqn:Hl.
  - assert (E : loadAppData w (s0, t) = (Ok tt, (s0, t))).
    { unfold loadAppData, s0. monad_step. reflexivity. }
    rewrite E. simpl. split; [left; reflexivity|].
    split; [intros _; split; reflexivity | discriminate].
  - assert (Hl0 : isLoading s0 = false) by reflexivity.
    split; [|split; [discriminate|]].
    + destruct (loadAppData_run s0 t Hl0)
        as (s' & mid & shown & Hrun & _ & _ & _ & _ & _ & [Hsame|[_ Hfetched]]).
      * rewrite Hrun. left. exact Hsame.
      * rewrite Hrun. right. exact Hfetched.
    + intros _ tr Hload. unfold loadAppData, s0. monad_step.
      rewrite loadTranslationsForLanguage_run. monad_step. rewrite Hload. monad_step.
      change (negb (truthy JNull)) with true. monad_step.
      destruct (fetchExperiences _) as [data|e].
      * monad_step. render_step (renderData_at w). monad_step.
        rewrite <- !app_assoc. simpl app. rewrite fetchCount_plus.
        change (ShowLoading :: CallLoadTranslations (currentLang s)
                  :: UpdateLanguageLabels tr :: CallFetchExperiences
                  :: quiet ++ shown ++ [HideLoading])
          with ([ShowLoading; CallLoadTranslations (currentLang s);
                 UpdateLanguageLabels tr; CallFetchExperiences]
                  ++ quiet ++ shown ++ [HideLoading]).
        rewrite !fetchCount_plus, (fetchCount_render quiet (proj1 Hshape)),
          (shownOk_not_fetch shown (proj2 Hshape)).
        unfold fetchCount. simpl. lia.
      * monad_step. destruct (length tr =? 0)%nat; monad_step;
          rewrite <- !app_assoc; simpl app; rewrite fetchCount_plus;
          unfold fetchCount at 2; simpl; lia.
Qed.

(** X23.  A language change that fails leaves the application as it was:
    the current language is back to the one before, the translations, the
    cache and the loading flag are untouched, nothing on the page was
    relabelled or rendered, and when the selector is on the page the last
    thing done is to set it back to the previous language. *)
Theorem handleLanguageChange_rolls_back
    (newLang : JsString) (s : AppState) (t : Trace) (e : JsError) :
  fst (handleLanguageChange w newLang (s, t)) = Throw e ->
  let out := handleLanguageChange w newLang (s, t) in
  currentLang (fst (snd out)) = currentLang s
  /\ translations (fst (snd out)) = translations s
  /\ cachedData (fst (snd out)) = cachedData s
  /\ isLoading (fst (snd out)) = isLoading s
  /\ exists new,
       snd (snd out) = t ++ new
       /\ existsb isPageUpdate new = false
       /\ (langSelectPresent w = true ->
           last new ShowLoading = SetLangSelect (currentLang s)).
Proof.
  cbv zeta. unfold handleLanguageChange. monad_step.
  destruct (str_eqb newLang (currentLang s)); [discriminate|].
  monad_step. rewrite loadTranslationsForLanguage_run. monad_step.
  destruct (loadTranslations w t newLang) as [tr|e1].
  - monad_step. destruct (truthy (cachedData s)); unfold when;
      [render_step (renderData_at w)|]; monad_step; discriminate.
  - destruct (negb (str_eqb newLang (lit "pt-br"))).
    + monad_step. destruct (loadTranslations w _ (lit "pt-br")) as [tr|e2].
      * monad_step. destruct (truthy (cachedData s)); unfold when;
          [render_step (renderData_at w)|]; monad_step; discriminate.
      * monad_step. unfold when. destruct (langSelectPresent w); monad_step;
          intros _; repeat (split; [reflexivity|]);
          eexists; (split; [rewrite <- ?app_assoc; reflexivity|]);
          (split; [reflexivity|]); intros H; try discriminate H; reflexivity.
    + monad_step. unfold when. destruct (langSelectPresent w); monad_step;
        intros _; repeat (split; [reflexivity|]);
        eexists; (split; [rewrite <- ?app_assoc; reflexivity|]);
        (split; [reflexivity|]); intros H; try discriminate H; reflexivity.
Qed.

(** X24.  A language whose translations fail to load falls back to
    Portuguese without a word: when the Portuguese translations load, the
    change ends without an error, the current language is pt-br and not
    the language asked for, the translations are the Portuguese ones, and
    the selector is not set back. *)
Theorem handleLanguageChange_falls_back
    (newLang : JsString) (s : AppState) (t : Trace) (e : JsError)
    (tr : Translations) :
  str_eqb newLang (currentLang s) = false ->
  str_eqb newLang (lit "pt-br") = false ->
  loadTranslations w t newLang = Throw e ->
  loadTranslations w (t ++ [CallLoadTranslations newLang]) (lit "pt-br") = Ok tr ->
  let out := handleLanguageChange w newLang (s, t) in
  fst out = Ok tt
  /\ currentLang (fst (snd out)) = lit "pt-br"
  /\ translations (fst (snd out)) = tr
  /\ exists new,
       snd (snd out) = t ++ new
       /\ existsb isSetLangSelect new = false
       /\ existsb isFetch new = false.
Proof.
  intros Hneq Hpt H1 H2. cbv zeta. unfold handleLanguageChange. monad_step.
  rewrite Hneq. monad_step. rewrite loadTranslationsForLanguage_run. monad_step.
  rewrite H1, Hpt. change (negb false) with true. monad_step. rewrite H2. monad_step.
  destruct (truthy (cachedData s)); unfold when;
    [render_step (renderData_at w)|]; monad_step;
    repeat (split; [reflexivity|]);
    eexists; (split; [rewrite <- ?app_assoc; reflexivity|]); cbn [app existsb isSetLangSelect isFetch orb];
    rewrite ?(renderShape_not_select w quiet shown), ?(renderShape_not_fetch w quiet shown)
      by assumption; split; reflexivity.
Qed.

Lemma perform_present r e : allPresent r = true -> allPresent (Ui.perform r e) = true.
Proof.
  destruct r as [[l|] [d|] [er|]]; try discriminate. intros _.
  destruct e; reflexivity.
Qed.

Lemma performAll_present t r : allPresent r = true -> allPresent (Ui.performAll t r) = true.
Proof.
  unfold Ui.performAll. revert r. induction t as [|e t IH]; intros r H; simpl;
    [exact H|]. apply IH, perform_present, H.
Qed.

Lemma performAll_app a b r : Ui.performAll (a ++ b) r = Ui.performAll b (Ui.performAll a r).
Proof. unfold Ui.performAll. apply fold_left_app. Qed.

Lemma performAll_quiet mid r : forallb isQuietCall mid = true -> Ui.performAll mid r = r.
Proof.
  unfold Ui.performAll. revert r. induction mid as [|e mid IH]; intros r H; simpl;
    [reflexivity|].
  apply andb_true_iff in H as [He Hm]. rewrite <- (IH r Hm) at 2. f_equal.
  destruct e; try discriminate He; reflexivity.
Qed.

(** X25.  After [loadAppData] (no load being in flight) on a page that has
    its three regions, the loading indicator is hidden and exactly one of
    the data region and the error region is visible, whatever was visible
    before and whatever failed.  The page is described twice: by the world,
    which tells [renderExperiences] whether it finds the data container,
    and by the regions the calls act on; both say that the container is
    there. *)
Theorem loadAppData_shows_one_region (s : AppState) (t : Trace) (r : Ui.Regions) :
  isLoading s = false ->
  allPresent r = true ->
  dataContainerPresent w = true ->
  let r' := Ui.performAll (snd (snd (loadAppData w (s, t)))) r in
  isVisible (Ui.loadingState r') = false
  /\ xorb (isVisible (Ui.dynamicData r')) (isVisible (Ui.errorState r')) = true.
Proof.
  intros Hl Hr Hp. cbv zeta.
  destruct (loadAppData_run s t Hl) as (s' & mid & shown & Hrun & _ & HX & Hq & _).
  rewrite Hrun. simpl snd.
  destruct HX as [[_ Habs]|(X & -> & HX)]; [congruence|].
  change (ShowLoading :: mid ++ [X] ++ [HideLoading])
    with ([ShowLoading] ++ mid ++ [X; HideLoading]).
  rewrite !performAll_app.
  pose proof (performAll_present t r Hr) as H1.
  set (r1 := Ui.performAll t r) in *.
  change (Ui.performAll [ShowLoading] r1) with (Ui.showLoading r1).
  rewrite (performAll_quiet mid _ Hq).
  destruct r1 as [[l|] [d|] [er|]]; try discriminate H1.
  destruct X; try discriminate HX; split; reflexivity.
Qed.

Lemma cacheOk_fetched t1 data :
  fetchExperiences (getExperiences w t1) = Ok data -> cacheOk data.
Proof. intros H. right. apply (fetchExperiences_ok _ _ H). Qed.

Lemma act_invariant st a :
  isLoading (fst st) = false -> cacheOk (cachedData (fst st)) ->
  isLoading (fst (act w st a)) = false
  /\ cacheOk (cachedData (fst (act w st a)))
  /\ fetchCount (snd (act w st a))
     <= fetchCount (snd st)
        + (match a with ChangeLanguage _ => 0 | _ => 1 end).
Proof.
  destruct st as [s t]. simpl fst. simpl snd. intros Hl Hc.
  destruct a as [| |newLang]; simpl act.
  - destruct (loadAppData_run s t Hl)
      as (s' & mid & shown & Hrun & H1 & HX & _ & Hle & _ & Hcache).
    rewrite Hrun. simpl fst. simpl snd. rewrite (fetchCount_bracket t mid shown HX).
    split; [exact H1|]. split; [|lia].
    destruct Hcache as [E|[_ (t1 & Hf)]]; [rewrite E; exact Hc|].
    apply (cacheOk_fetched t1), Hf.
  - unfold handleRetry. monad_step.
    match goal with
    | |- context [loadAppData w (?s0, t)] =>
        destruct (loadAppData_run s0 t Hl)
          as (s' & mid & shown & Hrun & H1 & HX & _ & Hle & _ & Hcache);
        rewrite Hrun
    end.
    simpl fst. simpl snd. rewrite (fetchCount_bracket t mid shown HX).
    split; [exact H1|]. split; [|lia].
    destruct Hcache as [E|[_ (t1 & Hf)]]; [rewrite E; left; reflexivity|].
    apply (cacheOk_fetched t1), Hf.
  - destruct (framed_handleLanguageChange w newLang (s, t))
      as (H1 & H2 & new & H3 & H4).
    simpl fst in H1, H2. simpl snd in H3.
    split; [rewrite H2; exact Hl|]. split; [rewrite H1; exact Hc|].
    rewrite H3, (fetchCount_app _ _ H4). lia.
Qed.

Lemma runActions_invariant actions st :
  isLoading (fst st) = false -> cacheOk (cachedData (fst st)) ->
  isLoading (fst (runActions w actions st)) = false
  /\ cacheOk (cachedData (fst (runActions w actions st)))
  /\ fetchCount (snd (runActions w actions st))
     <= fetchCount (snd st) + loadCount actions.
Proof.
  unfold runActions. revert st.
  induction actions as [|a actions IH]; intros st Hl Hc; simpl fold_left.
  - split; [exact Hl|]. split; [exact Hc|]. unfold loadCount. simpl. lia.
  - destruct (act_invariant st a Hl Hc) as (Hl' & Hc' & Hf').
    destruct (IH (act w st a) Hl' Hc') as (H1 & H2 & H3).
    split; [exact H1|]. split; [exact H2|].
    unfold loadCount in *. simpl filter. destruct a; simpl length in *; lia.
Qed.

(** X26.  Whatever sequence of loads, retries and language changes runs,
    one after the other, from a state with the loading flag down and a
    cache that is empty or holds an array under results: the loading flag
    is down again at the end, the cache is still empty or holds an array
    under results (so [renderData] never meets a response it cannot
    filter), and the list was fetched at most once per load or retry, the
    language changes adding no fetch. *)
Theorem controller_invariant (actions : list Action) (s : AppState) (t : Trace) :
  isLoading s = false ->
  cacheOk (cachedData s) ->
  isLoading (fst (runActions w actions (s, t))) = false
  /\ cacheOk (cachedData (fst (runActions w actions (s, t))))
  /\ fetchCount (snd (runActions w actions (s, t)))
     <= fetchCount t + loadCount actions.
Proof.
  intros Hl Hc. exact (runActions_invariant actions (s, t) Hl Hc).
Qed.

End Loading.

Lemma handleLanguageChange_rolls_back_witness :
  let out := handleLanguageChange world_no_translations (lit "en-us") (state_cached, []) in
  currentLang (fst (snd out)) = currentLang state_cached
  /\ translations (fst (snd out)) = translations state_cached
  /\ cachedData (fst (snd out)) = cachedData state_cached
  /\ isLoading (fst (snd out)) = isLoading state_cached
  /\ exists new,
       snd (snd out) = [] ++ new
       /\ existsb isPageUpdate new = false
       /\ (langSelectPresent world_no_translations = true ->
           last new ShowLoading = SetLangSelect (currentLang state_cached)).
Proof.
  apply (handleLanguageChange_rolls_back world_no_translations (lit "en-us")
           state_cached []
           {| errName := lit "TypeError"; errMessage := lit "Failed to fetch" |}).
  reflexivity.
Defined.

Lemma handleLanguageChange_falls_back_witness :
  let out := handleLanguageChange world_pt_only (lit "en-us") (state_cached, []) in
  fst out = Ok tt
  /\ currentLang (fst (snd out)) = lit "pt-br"
  /\ translations (fst (snd out)) = translations_pt
  /\ exists new,
       snd (snd out) = [] ++ new
       /\ existsb isSetLangSelect new = false
       /\ existsb isFetch new = false.
Proof.
  apply (handleLanguageChange_falls_back world_pt_only (lit "en-us") state_cached []
           {| errName := lit "Error"; errMessage := lit "not found" |} translations_pt);
    reflexivity.
Defined.

Lemma loadAppData_shows_one_region_witness :
  let r' :=
    Ui.performAll (snd (snd (loadAppData world_online (state_initial, []))))
      regions_loading in
  isVisible (Ui.loadingState r') = false
  /\ xorb (isVisible (Ui.dynamicData r')) (isVisible (Ui.errorState r')) = true.
Proof.
  apply (loadAppData_shows_one_region world_online state_initial [] regions_loading);
    reflexivity.
Defined.

Lemma controller_invariant_witness :
  isLoading (fst (runActions world_online [Load; ChangeLanguage (lit "en-us"); Retry]
                    (state_initial, []))) = false
  /\ cacheOk (cachedData (fst (runActions world_online
                                 [Load; ChangeLanguage (lit "en-us"); Retry]
                                 (state_initial, []))))
  /\ fetchCount (snd (runActions world_online [Load; ChangeLanguage (lit "en-us"); Retry]
                        (state_initial, [])))
     <= fetchCount [] + loadCount [Load; ChangeLanguage (lit "en-us"); Retry].
Proof.
  apply (controller_invariant world_online [Load; ChangeLanguage (lit "en-us"); Retry]
           state_initial []).
  - reflexivity.
  - left. reflexivity.
Defined.

(* ================================================================== *)
(** * Rendering and the language selector (main.js, ui.js) *)
(* ================================================================== *)

Section Rendering.

Variable w : World.





(** X28.  The language selector after a change.  It is enabled again and
    the language picked is stored, whether or not the change went through.
    When the translations of the language picked load, the selector shows
    the language the application is in.  When the change fails, the
    application is back in its previous language while the selector shows
    the language stored by the change before (pt-br when there was none);
    and when the change fell back to Portuguese, the application is in
    pt-br while the selector shows the language picked. *)
Theorem onLanguageSelected_selector
    (newLang : JsString) (sel : Ui.Selector) (s : AppState) (t : Trace) :
  let after := Ui.onLanguageSelected w newLang sel (s, t) in
  Ui.selDisabled (fst after) = false
  /\ Ui.selStored (fst after) = Some newLang
  /\ (forall tr,
        loadTranslations w t newLang = Ok tr ->
        Ui.selValue (fst after) = currentLang (fst (snd after)))
  /\ (forall e,
        fst (handleLanguageChange w newLang (s, t)) = Throw e ->
        Ui.selValue (fst after) = Ui.storedOrDefault sel
        /\ currentLang (fst (snd after)) = currentLang s)
  /\ (forall e tr,
        str_eqb newLang (currentLang s) = false ->
        str_eqb newLang (lit "pt-br") = false ->
        loadTranslations w t newLang = Throw e ->
        loadTranslations w (t ++ [CallLoadTranslations newLang]) (lit "pt-br") = Ok tr ->
        Ui.selValue (fst after) = newLang
        /\ currentLang (fst (snd after)) = lit "pt-br").
Proof.
  cbv zeta. unfold Ui.onLanguageSelected. cbv zeta. simpl fst. simpl snd.
  split; [reflexivity|]. split; [reflexivity|]. split; [|split].
  - intros tr Hload. unfold handleLanguageChange. monad_step.
    destruct (str_eqb newLang (currentLang s)) eqn:Hsame.
    + apply str_eqb_eq in Hsame. simpl. exact Hsame.
    + monad_step. rewrite loadTranslationsForLanguage_run. monad_step.
      rewrite Hload. monad_step.
      destruct (truthy (cachedData s)); unfold when;
        [render_step (renderData_at w)|]; monad_step; reflexivity.
  - intros e He. rewrite He. split; [reflexivity|].
    unfold handleLanguageChange in *. revert He. monad_step.
    destruct (str_eqb newLang (currentLang s)); [discriminate|].
    monad_step. rewrite loadTranslationsForLanguage_run. monad_step.
    destruct (loadTranslations w t newLang) as [tr|e1].
    + monad_step. destruct (truthy (cachedData s)); unfold when;
        [render_step (renderData_at w)|]; monad_step; discriminate.
    + destruct (negb (str_eqb newLang (lit "pt-br"))).
      * monad_step. destruct (loadTranslations w _ (lit "pt-br")) as [tr|e2].
        -- monad_step. destruct (truthy (cachedData s)); unfold when;
             [render_step (renderData_at w)|]; monad_step; discriminate.
        -- monad_step. unfold when. destruct (langSelectPresent w); monad_step;
             reflexivity.
      * monad_step. unfold when. destruct (langSelectPresent w); monad_step;
          reflexivity.
  - intros e tr Hneq Hpt H1 H2. unfold handleLanguageChange. monad_step.
    rewrite Hneq. monad_step. rewrite loadTranslationsForLanguage_run. monad_step.
    rewrite H1, Hpt. change (negb false) with true. monad_step. rewrite H2. monad_step.
    destruct (truthy (cachedData s)); unfold when;
      [render_step (renderData_at w)|]; monad_step; split; reflexivity.
Qed.

End Rendering.
